(* ===================================================================== *)
(*  Verification of the core of the ORM (latolukasz/orm):                 *)
(*  bind setters, field edits, the flusher and the background consumer.   *)
(*  The Go code is embedded shallowly: unsigned 64-bit integers are Z     *)
(*  with the wrap-around written out, Go maps are gmaps, panics and       *)
(*  returned errors are explicit results.                                 *)
(* ===================================================================== *)

From Stdlib Require Import ZArith Lia Bool List Ascii String.
From Stdlib Require Import Floats.SpecFloat.
From stdpp Require Import base decidable option list strings pretty gmap fin_maps.

Local Open Scope Z_scope.

(* --------------------------------------------------------------------- *)
(* Machine integers                                                       *)
(* --------------------------------------------------------------------- *)

Definition two64 : Z := 2 ^ 64.
Definition two63 : Z := 2 ^ 63.
Definition maxUint64 : Z := two64 - 1.
Definition minInt64 : Z := - two63.
Definition maxInt64 : Z := two63 - 1.

(* uint64 arithmetic wraps around *)
Definition wrap64 (z : Z) : Z := z mod two64.

(* uint64(x) for an int64 x, and int64(x) for a uint64 x *)
Definition uint64_of_int64 (z : Z) : Z := z mod two64.
Definition int64_of_uint64 (z : Z) : Z :=
  if z <? two63 then z else z - two64.

(* --------------------------------------------------------------------- *)
(* Go values behind the empty interface                                   *)
(* --------------------------------------------------------------------- *)

(* The fixed-width integer types the setters switch on. On the 64-bit
   targets of the library, int and uint are 64 bits wide. *)
Inductive intKind :=
| Uint8 | Uint16 | Uint | Uint32 | Uint64
| Int8 | Int16 | Int | Int32 | Int64.

Inductive floatKind := Float32 | Float64.

Definition isUnsignedKind (k : intKind) : bool :=
  match k with
  | Uint8 | Uint16 | Uint | Uint32 | Uint64 => true
  | _ => false
  end.

Definition kindMin (k : intKind) : Z :=
  match k with
  | Int8 => - 2 ^ 7 | Int16 => - 2 ^ 15 | Int32 => - 2 ^ 31
  | Int | Int64 => - 2 ^ 63
  | _ => 0
  end.

Definition kindMax (k : intKind) : Z :=
  match k with
  | Uint8 => 2 ^ 8 - 1 | Uint16 => 2 ^ 16 - 1 | Uint32 => 2 ^ 32 - 1
  | Uint | Uint64 => 2 ^ 64 - 1
  | Int8 => 2 ^ 7 - 1 | Int16 => 2 ^ 15 - 1 | Int32 => 2 ^ 31 - 1
  | Int | Int64 => 2 ^ 63 - 1
  end.

(* time.Location: only the name and a fixed offset east of UTC matter
   for the setters. *)
Record Location := mkLocation { locName : string; locOffset : Z }.

Definition UTC : Location := mkLocation "UTC" 0.

(* time.Time, kept as the wall clock reading in its own location. *)
Record Time := mkTime {
  tYear : Z; tMonth : Z; tDay : Z;
  tHour : Z; tMinute : Z; tSecond : Z; tNanosecond : Z;
  tLocation : Location
}.

(* A non-nil pointer: its address and the value it points to. *)
Record ptr (A : Type) := mkPtr { addr : Z; deref : A }.
Arguments mkPtr {A} _ _.
Arguments addr {A} _.
Arguments deref {A} _.

(* interface{} / any. ANil is the untyped nil; a typed nil pointer is a
   pointer constructor holding None. *)
Inductive any :=
| ANil
| AString (s : string)
| ABytes (s : string)
| ABool (b : bool)
| ABoolPtr (p : option (ptr bool))
| AInt (k : intKind) (n : Z)
| AIntPtr (k : intKind) (p : option (ptr Z))
| AFloat (k : floatKind) (f : spec_float)
| AFloatPtr (k : floatKind) (p : option (ptr spec_float))
| ATime (t : Time)
| ATimePtr (p : option (ptr Time))
| AOther (typeName : string).

#[global] Instance intKind_eq_dec : EqDecision intKind.
Proof. solve_decision. Defined.
#[global] Instance floatKind_eq_dec : EqDecision floatKind.
Proof. solve_decision. Defined.
#[global] Instance Location_eq_dec : EqDecision Location.
Proof. solve_decision. Defined.
#[global] Instance Time_eq_dec : EqDecision Time.
Proof. solve_decision. Defined.
#[global] Instance ptr_eq_dec {A} `{EqDecision A} : EqDecision (ptr A).
Proof. solve_decision. Defined.
#[global] Instance spec_float_eq_dec : EqDecision spec_float.
Proof. solve_decision. Defined.
#[global] Instance any_eq_dec : EqDecision any.
Proof. solve_decision. Defined.

(* v == w on interface values holding comparable dynamic types *)
Definition any_eqb (v w : any) : bool := bool_decide (v = w).

(* --------------------------------------------------------------------- *)
(* Errors                                                                 *)
(* --------------------------------------------------------------------- *)

Inductive error :=
| BindError (Field Message : string)
| ForeignKeyError (Message Constraint : string)
| DuplicatedKeyError (Message Index : string)
| ErrorString (Message : string)
| TypeAssertionError.

#[global] Instance error_eq_dec : EqDecision error.
Proof. solve_decision. Defined.

(* The value handed to panic. *)
Inductive panicValue :=
| PanicError (e : error)
| PanicOther (v : any).

(* A function that either returns or panics. *)
Inductive outcome (A : Type) :=
| Returned (a : A)
| Panicked (p : panicValue).
Arguments Returned {A} _.
Arguments Panicked {A} _.

(* --------------------------------------------------------------------- *)
(* strconv and strings                                                    *)
(* --------------------------------------------------------------------- *)

Inductive numError := ErrSyntax | ErrRange.

Definition isDigit (c : ascii) : bool :=
  ((48 <=? nat_of_ascii c) && (nat_of_ascii c <=? 57))%nat.

Definition digitValue (c : ascii) : Z := Z.of_nat (nat_of_ascii c) - 48.

(* The digit loop of strconv.ParseUint(s, 10, 64). *)
Fixpoint parseUintFrom (s : string) (n : Z) : Z * option numError :=
  match s with
  | EmptyString => (n, None)
  | String c rest =>
    if isDigit c then
      if maxUint64 / 10 + 1 <=? n then (maxUint64, Some ErrRange)
      else
        let n1 := n * 10 + digitValue c in
        if maxUint64 <? n1 then (maxUint64, Some ErrRange)
        else parseUintFrom rest n1
    else (0, Some ErrSyntax)
  end.

(* strconv.ParseUint(s, 10, 64) *)
Definition ParseUint (s : string) : Z * option numError :=
  match s with
  | EmptyString => (0, Some ErrSyntax)
  | _ => parseUintFrom s 0
  end.

(* strconv.ParseInt(s, 10, 64) *)
Definition ParseInt (s : string) : Z * option numError :=
  match s with
  | EmptyString => (0, Some ErrSyntax)
  | String c rest =>
    let neg := bool_decide (c = "-"%char) in
    let digits :=
      if bool_decide (c = "+"%char) || neg then rest else s in
    match ParseUint digits with
    | (_, Some ErrSyntax) => (0, Some ErrSyntax)
    | (un, _) =>
      if negb neg && (two63 <=? un) then (two63 - 1, Some ErrRange)
      else if neg && (two63 <? un) then (- two63, Some ErrRange)
      else (if neg then - un else un, None)
    end
  end.

(* strconv.FormatUint(n, 10), strconv.FormatInt(n, 10) and the verb %d on
   an integer *)
Definition FormatInt (n : Z) : string := pretty n.
Definition FormatUint (n : Z) : string := pretty n.

(* strings.Split(s, sep) for a one-character separator *)
Fixpoint splitOn (sep : ascii) (s : string) (current : string)
  : list string :=
  match s with
  | EmptyString => [current]
  | String c rest =>
    if bool_decide (c = sep) then current :: splitOn sep rest ""
    else splitOn sep rest (current +:+ String c "")
  end.

Definition Split (s : string) (sep : ascii) : list string := splitOn sep s "".

(* strings.HasPrefix *)
Definition HasPrefix (s prefix : string) : bool := String.prefix prefix s.

(* ===================================================================== *)
(* Part I. The flusher: Track, Delete, Flush and the checked flushers     *)
(* ===================================================================== *)

(* Entities are handed around as pointers. *)
Definition entityRef := nat.

(* The buffers a flush fills and clear() empties. *)
Record flushBuffers := mkFlushBuffers {
  updateSQLs : gmap string (list string);
  deleteBinds : gmap string (gmap Z entityRef);
  localCacheDeletes : gmap string (list string);
  localCacheSets : gmap string (list any)
}.

Definition emptyBuffers : flushBuffers := mkFlushBuffers ∅ ∅ ∅ ∅.

Record flusher := mkFlusher {
  trackedEntities : list entityRef;
  trackedEntitiesCounter : Z;
  buffers : flushBuffers
}.

Definition newFlusher : flusher := mkFlusher [] 0 emptyBuffers.

(* The Go int counter wraps at 64 bits. *)
Definition wrapInt (z : Z) : Z := (z + two63) mod two64 - two63.

(* What the flusher needs from the rest of the engine. W is the state of
   everything outside the flusher: the entities behind the pointers, the
   database pools and the caches. The batched flush itself is taken as an
   operation that fills the buffers and may panic; it never assigns the
   tracked list or its counter. *)
Class engineOps (W : Type) := {
  initIfNeeded : entityRef -> W -> W;
  markToDelete : entityRef -> W -> W;
  forceMarkToDelete : entityRef -> W -> W;
  poolOf : W -> entityRef -> string;
  dbBegin : string -> W -> W * option panicValue;
  dbCommit : string -> W -> W * option panicValue;
  dbRollback : string -> W -> W * option panicValue;
  flush : bool -> bool -> bool -> list entityRef -> flushBuffers -> W ->
          flushBuffers * W * option panicValue
}.

Definition trackLimitError : panicValue :=
  PanicError (ErrorString "track limit 10000 exceeded").

Section Flusher.
Context {W : Type} `{engineOps W}.

Fixpoint Track (entity : list entityRef) (f : flusher) (w : W)
  : flusher * W * option panicValue :=
  match entity with
  | [] => (f, w, None)
  | e :: rest =>
    let w1 := initIfNeeded e w in
    let f1 := mkFlusher (trackedEntities f ++ [e])
                        (wrapInt (trackedEntitiesCounter f + 1))
                        (buffers f) in
    if trackedEntitiesCounter f1 =? 10001
    then (f1, w1, Some trackLimitError)
    else Track rest f1 w1
  end.

Definition Delete (entity : list entityRef) (f : flusher) (w : W)
  : flusher * W * option panicValue :=
  Track entity f (foldl (fun w e => markToDelete e w) w entity).

Definition ForceDelete (entity : list entityRef) (f : flusher) (w : W)
  : flusher * W * option panicValue :=
  Track entity f (foldl (fun w e => forceMarkToDelete e w) w entity).

(* clear() *)
Definition clear (f : flusher) : flusher :=
  mkFlusher (trackedEntities f) (trackedEntitiesCounter f) emptyBuffers.

(* Clear() *)
Definition Clear (f : flusher) : flusher :=
  clear (mkFlusher [] 0 (buffers f)).

Fixpoint eachPool (op : string -> W -> W * option panicValue)
         (pools : list string) (w : W) : W * option panicValue :=
  match pools with
  | [] => (w, None)
  | p :: rest =>
    match op p w with
    | (w1, Some r) => (w1, Some r)
    | (w1, None) => eachPool op rest w1
    end
  end.

Definition withBuffers (f : flusher) (b : flushBuffers) : flusher :=
  mkFlusher (trackedEntities f) (trackedEntitiesCounter f) b.

(* dbPools is a Go map from pool code to pool; it is kept here as the
   list of the distinct codes of the tracked entities. The mutex is left
   out: the calls below are sequential. *)
Definition flushTrackedEntities (lazy transaction : bool)
           (f : flusher) (w : W) : flusher * W * option panicValue :=
  if trackedEntitiesCounter f =? 0 then (f, w, None) else
  let dbPools :=
    if transaction
    then remove_dups (map (poolOf w) (trackedEntities f))
    else [] in
  match (if transaction then eachPool dbBegin dbPools w else (w, None)) with
  | (w1, Some r) => (f, w1, Some r)
  | (w1, None) =>
    (* from here on the deferred rollback is registered *)
    let '(f2, w2, r2) :=
      match flush true lazy transaction (trackedEntities f) (buffers f) w1
      with
      | (b, w2, Some r) => (withBuffers f b, w2, Some r)
      | (b, w2, None) =>
        match (if transaction then eachPool dbCommit dbPools w2
               else (w2, None)) with
        | (w3, Some r) => (withBuffers f b, w3, Some r)
        | (w3, None) => (clear (withBuffers f b), w3, None)
        end
      end in
    match eachPool dbRollback dbPools w2 with
    | (w3, Some r) => (f2, w3, Some r)
    | (w3, None) => (f2, w3, r2)
    end
  end.

Definition Flush (f : flusher) (w : W) : flusher * W * option panicValue :=
  flushTrackedEntities false false f w.

Definition FlushLazy (f : flusher) (w : W)
  : flusher * W * option panicValue :=
  flushTrackedEntities true false f w.

Definition FlushInTransaction (f : flusher) (w : W)
  : flusher * W * option panicValue :=
  flushTrackedEntities false true f w.

(* The error a checked flusher returns is nil (None) or the fault. *)
Definition flushWithCheck (transaction : bool) (f : flusher) (w : W)
  : flusher * W * outcome (option error) :=
  match flushTrackedEntities false transaction f w with
  | (f1, w1, None) => (f1, w1, Returned None)
  | (f1, w1, Some r) =>
    let f2 := Clear f1 in
    match r with
    | PanicOther _ => (f2, w1, Panicked (PanicError TypeAssertionError))
    | PanicError asErr =>
      match asErr with
      | ForeignKeyError _ _ => (f2, w1, Returned (Some asErr))
      | DuplicatedKeyError _ _ => (f2, w1, Returned (Some asErr))
      | _ => (f2, w1, Panicked (PanicError asErr))
      end
    end
  end.

Definition FlushWithCheck := flushWithCheck false.
Definition FlushInTransactionWithCheck := flushWithCheck true.

Definition FlushWithFullCheck (f : flusher) (w : W)
  : flusher * W * outcome (option error) :=
  match flushTrackedEntities false false f w with
  | (f1, w1, None) => (f1, w1, Returned None)
  | (f1, w1, Some r) =>
    let f2 := Clear f1 in
    match r with
    | PanicOther _ => (f2, w1, Panicked (PanicError TypeAssertionError))
    | PanicError asErr => (f2, w1, Returned (Some asErr))
    end
  end.

(* A caller's sequence of tracking calls; it stops at the first panic
   and reports which call raised it. *)
Inductive trackCall :=
| CallTrack (entity : list entityRef)
| CallDelete (entity : list entityRef)
| CallForceDelete (entity : list entityRef).

Definition callEntities (c : trackCall) : list entityRef :=
  match c with
  | CallTrack es | CallDelete es | CallForceDelete es => es
  end.

Definition runCall (c : trackCall) (f : flusher) (w : W)
  : flusher * W * option panicValue :=
  match c with
  | CallTrack es => Track es f w
  | CallDelete es => Delete es f w
  | CallForceDelete es => ForceDelete es f w
  end.

Fixpoint runCalls (n : nat) (calls : list trackCall) (f : flusher) (w : W)
  : flusher * W * option (nat * panicValue) :=
  match calls with
  | [] => (f, w, None)
  | c :: rest =>
    match runCall c f w with
    | (f1, w1, Some r) => (f1, w1, Some (n, r))
    | (f1, w1, None) => runCalls (S n) rest f1 w1
    end
  end.

Definition trackedBy (calls : list trackCall) : Z :=
  Z.of_nat (length (concat (map callEntities calls))).

End Flusher.

(* An engine that only counts how many batched flushes ran; it serves to
   run the flusher on concrete inputs. *)
Definition countingEngine : engineOps nat := {|
  initIfNeeded := fun _ w => w;
  markToDelete := fun _ w => w;
  forceMarkToDelete := fun _ w => w;
  poolOf := fun _ _ => "default";
  dbBegin := fun _ w => (w, None);
  dbCommit := fun _ w => (w, None);
  dbRollback := fun _ w => (w, None);
  flush := fun _ _ _ _ b w => (b, S w, None)
|}.

(* An engine whose batched flush always fails with the given fault. *)
Definition failingEngine (r : panicValue) : engineOps nat := {|
  initIfNeeded := fun _ w => w;
  markToDelete := fun _ w => w;
  forceMarkToDelete := fun _ w => w;
  poolOf := fun _ _ => "default";
  dbBegin := fun _ w => (w, None);
  dbCommit := fun _ w => (w, None);
  dbRollback := fun _ w => (w, None);
  flush := fun _ _ _ _ b w => (b, S w, Some r)
|}.

(* ===================================================================== *)
(* Part II. Ids of a batched insert (flusher.flush, non-lazy branch)      *)
(* ===================================================================== *)

(* Bind: column name -> canonical value. *)
Abbreviation Bind := (gmap string any).

Record tableSchema := mkTableSchema {
  tableName : string;
  mysqlPoolName : string;
  columnNames : list string;
  columnMapping : gmap string nat
}.

(* The part of an entity and of its ORM the insert branch touches. *)
Record Entity := mkEntity {
  idElem : Z;            (* the ID field of the struct *)
  dBData : list any;     (* nil is [] *)
  loaded : bool;
  inDB : bool;
  schema : tableSchema
}.

Definition runtimeIndexError : panicValue :=
  PanicError (ErrorString "runtime error: index out of range").
Definition runtimeNilError : panicValue :=
  PanicError (ErrorString "runtime error: invalid memory address or nil pointer dereference").

(** Modelled from the spec: Entity.GetID, absent from the sources; the ID
   field of the entity (0 means not yet persisted). *)
Definition GetID (e : Entity) : Z := idElem e.

(** Modelled from the spec: ORM.initDBData, absent from the sources; DbData
   is nil until loaded or inserted and then has one slot per column. *)
Definition initDBData (e : Entity) : Entity :=
  match dBData e with
  | [] => mkEntity (idElem e)
                   (replicate (length (columnNames (schema e))) ANil)
                   (loaded e) (inDB e) (schema e)
  | _ => e
  end.

(* mapping[key] of a Go map: the zero value when the key is absent *)
Definition mappingIndex (mapping : gmap string nat) (key : string) : nat :=
  default 0%nat (mapping !! key).

(* for key, value := range bind { dBData[mapping[key]] = value } *)
Fixpoint storeBind (mapping : gmap string nat) (kvs : list (string * any))
         (data : list any) : outcome (list any) :=
  match kvs with
  | [] => Returned data
  | (key, value) :: rest =>
    let i := mappingIndex mapping key in
    if (i <? length data)%nat
    then storeBind mapping rest (<[i := value]> data)
    else Panicked runtimeIndexError
  end.

Definition injectBind (e : Entity) (bind : Bind) : outcome Entity :=
  let e1 := initDBData e in
  match storeBind (columnMapping (schema e1)) (map_to_list bind) (dBData e1)
  with
  | Panicked r => Panicked r
  | Returned data => Returned (mkEntity (idElem e1) data true true (schema e1))
  end.

(* if currentID > 0 { bind["ID"] = currentID }: an entity that carries an
   id takes it into the bind it is inserted with. *)
Definition withCurrentID (currentID : Z) (bind : Bind) : Bind :=
  if 0 <? currentID then <["ID" := AInt Uint64 currentID]> bind else bind.

(* insertKeys[t]: the columns of the statement are the keys of the bind
   of the first entity of the type, in the order the range over that map
   gives them. *)
Definition insertKeysOf (binds : list Bind) : list string :=
  match binds with
  | [] => []
  | bind :: _ => (map_to_list bind).*1
  end.

(* insertArguments[t]: bind[key] for every column, entity after entity;
   a column the bind of an entity lacks is sent as nil. *)
Definition insertArgumentsOf (keys : list string) (binds : list Bind)
  : list any :=
  concat (map (fun bind => map (fun key => default ANil (bind !! key)) keys)
              binds).

(* One call of updateCacheForInserted, as seen from the entity: which
   entity, under which id, with which row. *)
Record insertedCacheUpdate := mkInsertedCacheUpdate {
  cuEntity : entityRef;
  cuID : Z;
  cuRow : list any
}.

(* The loop over insertReflectValues[typeOf] after db.Exec returned:
   id starts at LastInsertId. *)
Fixpoint assignInsertedIDs (autoincrement : Z)
         (batch : list (entityRef * Bind)) (id : Z)
         (heap : gmap entityRef Entity) (updates : list insertedCacheUpdate)
  : outcome (Z * gmap entityRef Entity * list insertedCacheUpdate) :=
  match batch with
  | [] => Returned (id, heap, updates)
  | (r, bind) :: rest =>
    match heap !! r with
    | None => Panicked runtimeNilError
    | Some e =>
      match injectBind e bind with
      | Panicked p => Panicked p
      | Returned e1 =>
        if GetID e1 =? 0 then
          match dBData e1 with
          | [] => Panicked runtimeIndexError
          | _ :: row =>
            let e2 := mkEntity id (AInt Uint64 id :: row)
                               (loaded e1) (inDB e1) (schema e1) in
            assignInsertedIDs autoincrement rest
              (wrap64 (id + autoincrement)) (<[r := e2]> heap)
              (updates ++ [mkInsertedCacheUpdate r id (dBData e2)])
          end
        else
          assignInsertedIDs autoincrement rest id (<[r := e1]> heap)
            (updates ++ [mkInsertedCacheUpdate r (GetID e1) (dBData e1)])
      end
    end
  end.

(* How many of the given entities have no id yet. *)
Fixpoint withoutID (heap : gmap entityRef Entity)
         (batch : list (entityRef * Bind)) : Z :=
  match batch with
  | [] => 0
  | (r, _) :: rest =>
    (match heap !! r with
     | Some e => if GetID e =? 0 then 1 else 0
     | None => 0
     end) + withoutID heap rest
  end.


(* A two-column table and a batch of three new rows of it; the second
   row comes with an id of its own. *)
Definition usersSchema : tableSchema :=
  mkTableSchema "users" "default" ["ID"; "Name"]
                (<["ID" := 0%nat]> (<["Name" := 1%nat]> ∅)).

Definition newUser (id : Z) : Entity := mkEntity id [] false false usersSchema.

Definition usersHeap : gmap entityRef Entity :=
  <[0%nat := newUser 0]> (<[1%nat := newUser 77]> (<[2%nat := newUser 0]> ∅)).

Definition usersBatch : list (entityRef * Bind) :=
  [(0%nat, {["Name" := AString "a"]});
   (1%nat, <["ID" := AInt Uint64 77]> {["Name" := AString "b"]});
   (2%nat, {["Name" := AString "c"]})].

(* A batch of three new rows none of which carries an id. *)
Definition newUsersHeap : gmap entityRef Entity :=
  <[0%nat := newUser 0]> (<[1%nat := newUser 0]> (<[2%nat := newUser 0]> ∅)).




(* A batch that holds its first entity twice. *)
Definition twiceBatch : list (entityRef * Bind) :=
  [(0%nat, withCurrentID 0 {["Name" := AString "a"]});
   (0%nat, withCurrentID 0 {["Name" := AString "a"]});
   (1%nat, withCurrentID 0 {["Name" := AString "b"]})].

(* ===================================================================== *)
(* Part III. The background consumer: replay of a lazy envelope           *)
(* ===================================================================== *)

(* One entry of the "q" list: [poolCode, sql, argsOrNil]. *)
Record lazyQuery := mkLazyQuery {
  qCode : string;
  qSQL : string;
  qArgs : option (list any)
}.

(* One record of the "l" list and of the "d" list, as the maps the
   envelope unserializes to. *)
Record lazyLogRow := mkLazyLogRow {
  lPoolName : string;
  lTableName : string;
  lID : Z;
  lMeta : option Bind;
  lBefore : option Bind;
  lChanges : option Bind
}.

Record dirtyEvent := mkDirtyEvent { evE : string; evI : Z; evA : string }.

Record lazyDirtyRow := mkLazyDirtyRow {
  dEvent : dirtyEvent;
  dStreams : list string
}.

(* The keys of the envelope handleQueries reads; None is an absent key. *)
Record lazyEnvelope := mkLazyEnvelope {
  envQ : option (list lazyQuery);
  envL : option (list lazyLogRow);
  envD : option (list lazyDirtyRow)
}.

(* LogQueueValue as handleLog receives it (Updated is the wall clock of
   the replay and is left out). *)
Record LogQueueValue := mkLogQueueValue {
  logPoolName : string;
  logTableName : string;
  logID : Z;
  logMeta : option Bind;
  logBefore : option Bind;
  logChanges : option Bind
}.

(* The database as the consumer uses it: Exec on a pool returns the
   LastInsertId of the statement or panics; every pool has its
   autoincrement. *)
Class lazyDB (D : Type) := {
  execSQL : string -> string -> option (list any) -> D -> D * outcome Z;
  getAutoincrement : string -> Z
}.

Definition sliceBoundsError : panicValue :=
  PanicError (ErrorString "runtime error: slice bounds out of range").

(* row["ID"] = id; id += autoincrement, over the "l" list *)
Fixpoint renumberLogRows (autoincrement : Z) (rows : list lazyLogRow)
         (id : Z) : list lazyLogRow * Z :=
  match rows with
  | [] => ([], id)
  | row :: rest =>
    let '(rest', id') :=
      renumberLogRows autoincrement rest (wrap64 (id + autoincrement)) in
    (mkLazyLogRow (lPoolName row) (lTableName row) id
                  (lMeta row) (lBefore row) (lChanges row) :: rest', id')
  end.

(* row["Event"]["I"] = id; id += autoincrement, over the "d" list *)
Fixpoint renumberDirtyRows (autoincrement : Z) (rows : list lazyDirtyRow)
         (id : Z) : list lazyDirtyRow * Z :=
  match rows with
  | [] => ([], id)
  | row :: rest =>
    let '(rest', id') :=
      renumberDirtyRows autoincrement rest (wrap64 (id + autoincrement)) in
    (mkLazyDirtyRow (mkDirtyEvent (evE (dEvent row)) id (evA (dEvent row)))
                    (dStreams row) :: rest', id')
  end.

(* The body of the INSERT branch: one running id goes through the "l"
   list and then on through the "d" list. *)
Definition stampInsertedIDs (autoincrement lastInsertId : Z)
           (env : lazyEnvelope) : lazyEnvelope :=
  let id := lastInsertId in
  let '(l, id) :=
    match envL env with
    | Some rows =>
      let '(rows', id') := renumberLogRows autoincrement rows id in
      (Some rows', id')
    | None => (None, id)
    end in
  let '(d, id) :=
    match envD env with
    | Some rows =>
      let '(rows', id') := renumberDirtyRows autoincrement rows id in
      (Some rows', id')
    | None => (None, id)
    end in
  mkLazyEnvelope (envQ env) l d.

Section Consumer.
Context {D : Type} `{lazyDB D}.

(* The first loop of handleQueries. *)
Fixpoint runLazyQueries (queries : list lazyQuery) (env : lazyEnvelope)
         (db : D) (ids : list Z) : outcome (list Z * lazyEnvelope * D) :=
  match queries with
  | [] => Returned (ids, env, db)
  | query :: rest =>
    match execSQL (qCode query) (qSQL query) (qArgs query) db with
    | (db1, Panicked p) => Panicked p
    | (db1, Returned lastInsertId) =>
      if (String.length (qSQL query) <? 11)%nat then Panicked sliceBoundsError
      else if bool_decide (String.substring 0 11 (qSQL query) = "INSERT INTO")
      then runLazyQueries rest
             (stampInsertedIDs (getAutoincrement (qCode query))
                               lastInsertId env)
             db1 (ids ++ [lastInsertId])
      else runLazyQueries rest env db1 (ids ++ [0])
    end
  end.

Definition logQueueValueOf (row : lazyLogRow) : LogQueueValue :=
  mkLogQueueValue (lPoolName row) (lTableName row) (lID row)
                  (lMeta row) (lBefore row) (lChanges row).

Definition publishedBy (row : lazyDirtyRow) : list (string * dirtyEvent) :=
  map (fun stream => (stream, dEvent row)) (dStreams row).

(* handleQueries: the ids of the statements, the envelope as rewritten,
   the log rows handed to handleLog and the dirty events published. *)
Definition handleQueries (env : lazyEnvelope) (db : D)
  : outcome (option (list Z) * lazyEnvelope * D
             * list LogQueueValue * list (string * dirtyEvent)) :=
  match envQ env with
  | None => Returned (None, env, db, [], [])
  | Some validQueries =>
    match runLazyQueries validQueries env db [] with
    | Panicked p => Panicked p
    | Returned (ids, env1, db1) =>
      let logged :=
        match envL env1 with
        | Some rows => map logQueueValueOf rows
        | None => []
        end in
      let published :=
        match envD env1 with
        | Some rows => concat (map publishedBy rows)
        | None => []
        end in
      Returned (Some ids, env1, db1, logged, published)
    end
  end.

End Consumer.

(* A database whose every statement reports LastInsertId 10, with
   autoincrement 1; its state counts the statements. *)
Definition tenDB : lazyDB nat := {|
  execSQL := fun _ _ _ n => (S n, Returned 10);
  getAutoincrement := fun _ => 1
|}.

(* The envelope of one lazily inserted row that is logged and feeds one
   dirty stream. *)
Definition oneInsertEnvelope : lazyEnvelope :=
  mkLazyEnvelope
    (Some [mkLazyQuery "default" "INSERT INTO users(`Name`) VALUES (?)"
                       (Some [AString "a"])])
    (Some [mkLazyLogRow "default" "_log_default_users" 0 None None
                        (Some {["Name" := AString "a"]})])
    (Some [mkLazyDirtyRow (mkDirtyEvent "orm.User" 0 "i") ["user_changed"]]).

(* ===================================================================== *)
(* Part IV. The background consumer: the search indexer loop              *)
(* ===================================================================== *)

Record redisIndexerEvent := mkRedisIndexerEvent {
  Index : string;
  IndexID : Z
}.

(* What the loop needs from the search pool. R is the state of the remote
   store together with whatever the indexer itself reads and writes. *)
Class searchOps (R : Type) := {
  (* redisSearchForceIndexLastIDKeyPrefix, declared outside the sources *)
  lastIDKeyPrefix : string;
  redisGet : string -> R -> option string;
  redisSet : string -> string -> Z -> R -> R;
  redisDel : string -> R -> R;
  (* pusher.pipeline.commands and pusher.Flush() *)
  pusherCommands : R -> Z;
  pusherFlush : R -> R;
  ListIndices : R -> list string;
  dropIndex : string -> R -> R
}.

(* RedisSearchIndex: its name and its Indexer, which may be nil. The
   Indexer receives the cursor and returns the next cursor and whether
   more work is left. *)
Record RedisSearchIndex (R : Type) := mkRedisSearchIndex {
  Name : string;
  Indexer : option (Z -> R -> R * (Z * bool))
}.
Arguments mkRedisSearchIndex {R} _ _.
Arguments Name {R} _.
Arguments Indexer {R} _.

Definition loopDetected (name redisPool : string) : panicValue :=
  PanicError (ErrorString ("loop detected in indxer for index " +:+ name
                           +:+ " in pool " +:+ redisPool)).

(* One turn of the for loop. *)
Inductive turn (R : Type) :=
| Continue (nextID : Z) (r : R)
| Break (r : R)
| Panic (r : R) (p : panicValue).
Arguments Continue {R} _ _.
Arguments Break {R} _.
Arguments Panic {R} _ _.

(* The loop as a whole; OutOfFuel is not a behaviour of the code. *)
Inductive loopResult (R : Type) :=
| Finished (r : R)
| Failed (r : R) (p : panicValue)
| OutOfFuel.
Arguments Finished {R} _.
Arguments Failed {R} _ _.
Arguments OutOfFuel {R}.

Section Indexer.
Context {R : Type} `{searchOps R}.

(* Drop every older version of the index. *)
Definition dropOlderIndices (name : string) (indexID : Z) (r : R) : R :=
  foldl (fun r oldName =>
           if HasPrefix oldName (name +:+ ":") then
             let parts := Split oldName ":"%char in
             let oldID := fst (ParseUint (default "" (parts !! 1%nat))) in
             if oldID <? indexID then dropIndex oldName r else r
           else r)
        r (ListIndices r).

Definition indexerTurn (indexDefinition : RedisSearchIndex R)
           (redisPool idRedisKey : string) (indexID : Z) (id : Z) (r : R)
  : turn R :=
  let '(r1, hasMore, nextID) :=
    match Indexer indexDefinition with
    | Some indexer =>
      let '(r1, (newID, hasNext)) := indexer id r in
      let r2 := if 0 <? pusherCommands r1 then pusherFlush r1 else r1 in
      let r3 :=
        if hasNext then redisSet idRedisKey (FormatUint newID) 86400 r2
        else r2 in
      (r3, hasNext, newID)
    | None => (r, false, 0)
    end in
  if negb hasMore then
    Break (dropOlderIndices (Name indexDefinition) indexID
                            (redisDel idRedisKey r1))
  else if nextID <=? id then
    Panic r1 (loopDetected (Name indexDefinition) redisPool)
  else Continue nextID r1.

Fixpoint indexerLoop (fuel : nat) (indexDefinition : RedisSearchIndex R)
         (redisPool idRedisKey : string) (indexID : Z) (id : Z) (r : R)
  : loopResult R :=
  match fuel with
  | O => OutOfFuel
  | S fuel' =>
    match indexerTurn indexDefinition redisPool idRedisKey indexID id r with
    | Break r1 => Finished r1
    | Panic r1 p => Failed r1 p
    | Continue nextID r1 =>
      indexerLoop fuel' indexDefinition redisPool idRedisKey indexID nextID r1
    end
  end.

(* handleRedisIndexerEvent once the event is unserialized and its index
   definition found in pool redisPool. *)
Definition handleRedisIndexerEvent (fuel : nat)
           (indexDefinition : RedisSearchIndex R) (redisPool : string)
           (indexEvent : redisIndexerEvent) (r : R) : loopResult R :=
  let idRedisKey :=
    lastIDKeyPrefix +:+ Index indexEvent
    +:+ FormatUint (IndexID indexEvent) in
  let id :=
    match redisGet idRedisKey r with
    | Some idInRedis => fst (ParseUint idInRedis)
    | None => 0
    end in
  indexerLoop fuel indexDefinition redisPool idRedisKey
              (IndexID indexEvent) id r.

(* The cursors the Indexer hands back are uint64 values. *)
Definition indexerInRange (indexDefinition : RedisSearchIndex R) : Prop :=
  forall indexer id r,
    Indexer indexDefinition = Some indexer ->
    0 <= id < two64 ->
    0 <= fst (snd (indexer id r)) < two64.

End Indexer.

(* A store that only records the commands it received. *)
Definition recordingStore : searchOps (list string) := {|
  lastIDKeyPrefix := "_orm_force_index";
  redisGet := fun _ _ => None;
  redisSet := fun key value _ r => r ++ ["SET " +:+ key +:+ " " +:+ value];
  redisDel := fun key r => r ++ ["DEL " +:+ key];
  pusherCommands := fun _ => 0;
  pusherFlush := fun r => r ++ ["FLUSH"];
  ListIndices := fun _ => [];
  dropIndex := fun name r => r ++ ["DROP " +:+ name]
|}.

(* An indexer with nothing to do: it hands the cursor back and reports
   no more work. *)
Definition idleIndex : RedisSearchIndex (list string) :=
  mkRedisSearchIndex "users" (Some (fun id r => (r, (id, false)))).

(* An indexer that never advances but keeps asking for another turn. *)
Definition stuckIndex : RedisSearchIndex (list string) :=
  mkRedisSearchIndex "users" (Some (fun id r => (r, (id, true)))).

(* ===================================================================== *)
(* Part V. Bind setters                                                   *)
(* ===================================================================== *)

(* int64(f) for a float f: truncation towards zero. Outside the int64
   range (and for NaN and the infinities) the Go specification leaves the
   result to the implementation; amd64 yields the minimal int64. *)
Definition int64OfFloat (f : spec_float) : Z :=
  match f with
  | S754_zero _ => 0
  | S754_finite s m e =>
    let magnitude :=
      if 0 <=? e then Z.pos m * 2 ^ e else Z.pos m / 2 ^ (- e) in
    let v := if s then - magnitude else magnitude in
    if (minInt64 <=? v) && (v <=? maxInt64) then v else minInt64
  | _ => minInt64
  end.

Definition goTypeName (k : floatKind) : string :=
  match k with Float32 => "float32" | Float64 => "float64" end.

Section Sprintf.
(* The %v rendering of a float (strconv's shortest representation), which
   fmt uses when it reports a float under the verb %d. *)
Variable formatFloatV : floatKind -> spec_float -> string.

(* fmt.Sprintf("%d", v) for the operands the number setter can hand to
   it: integers print in decimal, non-nil pointers print their address,
   strings and floats print as a bad-verb report. *)
Definition sprintD (v : any) : string :=
  match v with
  | AInt _ n => FormatInt n
  | AIntPtr _ (Some p) => FormatUint (addr p)
  | AFloatPtr _ (Some p) => FormatUint (addr p)
  | AString s => "%!d(string=" +:+ s +:+ ")"
  | AFloat k f => "%!d(" +:+ goTypeName k +:+ "=" +:+ formatFloatV k f +:+ ")"
  | _ => "%!d(<nil>)"
  end.

(* The type switch of the number setter: asUint64, asInt64 and isNil, or
   the error it returns at once. *)
Definition numberSwitch (columnName : string) (unsigned : bool) (v : any)
  : (Z * Z * bool) + error :=
  match v with
  | AString s =>
    if unsigned then
      match ParseUint s with
      | (n, None) => inl (n, 0, false)
      | (_, Some _) => inr (BindError columnName ("invalid number " +:+ s))
      end
    else
      match ParseInt s with
      | (n, None) => inl (0, n, false)
      | (_, Some _) => inr (BindError columnName ("invalid number " +:+ s))
      end
  | AInt k n =>
    if isUnsignedKind k then inl (n, 0, false) else inl (0, n, false)
  | AIntPtr k None => inl (0, 0, true)
  | AIntPtr k (Some i) =>
    if isUnsignedKind k then inl (deref i, 0, false)
    else inl (0, deref i, false)
  | AFloat _ f => inl (0, int64OfFloat f, false)
  | AFloatPtr _ None => inl (0, 0, true)
  | AFloatPtr _ (Some i) => inl (0, int64OfFloat (deref i), false)
  | _ => inr (BindError columnName "invalid value")
  end.

Definition createNumberFieldBindSetter (columnName : string)
           (unsigned nullable : bool) (min max : Z) (v : any)
  : any * option error :=
  match v with
  | ANil =>
    if negb nullable
    then (ANil, Some (BindError columnName "nil is not allowed"))
    else (ANil, None)
  | _ =>
    match numberSwitch columnName unsigned v with
    | inr e => (ANil, Some e)
    | inl (asUint64, asInt64, isNil) =>
      if isNil then
        if negb nullable
        then (ANil, Some (BindError columnName "nil is not allowed"))
        else (ANil, None)
      else if negb unsigned then
        let asInt64 :=
          if 0 <? asUint64 then int64_of_uint64 asUint64 else asInt64 in
        if (0 <? asInt64) && (max <? uint64_of_int64 asInt64) then
          (ANil, Some (BindError columnName
                         ("value " +:+ sprintD v
                          +:+ " exceeded max allowed value")))
        else if (asInt64 <? 0) && (asInt64 <? min) then
          (ANil, Some (BindError columnName
                         ("value " +:+ sprintD v
                          +:+ " exceeded min allowed value")))
        else (AInt Int64 asInt64, None)
      else if asInt64 <? 0 then
        (ANil, Some (BindError columnName
                       ("negative number " +:+ sprintD v
                        +:+ " not allowed")))
      else
        let asUint64 :=
          if 0 <? asInt64 then uint64_of_int64 asInt64 else asUint64 in
        if max <? asUint64 then
          (ANil, Some (BindError columnName
                         ("value " +:+ sprintD v
                          +:+ " exceeded max allowed value")))
        else (AInt Uint64 asUint64, None)
    end
  end.

End Sprintf.

(* An integer value fits its Go type. *)
Definition fitsKind (k : intKind) (n : Z) : Prop :=
  kindMin k <= n <= kindMax k.

(* The values that carry an integer: by value or behind a non-nil pointer. *)
Definition integerOperand (v : any) : option (intKind * Z) :=
  match v with
  | AInt k n => Some (k, n)
  | AIntPtr k (Some i) => Some (k, deref i)
  | _ => None
  end.

(* The %v rendering of the two floats the examples use, -1.5 and 300. *)
Definition sampleFloatV (k : floatKind) (f : spec_float) : string :=
  match f with
  | S754_finite true _ _ => "-1.5"
  | _ => "300"
  end.

(* The values that carry a float: by value or behind a non-nil pointer. *)
Definition floatOperand (v : any) : option (floatKind * spec_float) :=
  match v with
  | AFloat k f => Some (k, f)
  | AFloatPtr k (Some i) => Some (k, deref i)
  | _ => None
  end.

(* ===================================================================== *)
(* Part VI. EditEntityField                                               *)
(* ===================================================================== *)

(* The struct behind the entity pointer, as reflection sees it: field 0
   is the ID, the other fields are reached by name. *)
Record structValue := mkStructValue {
  svID : Z;
  svFields : gmap string any
}.

Abbreviation fieldBindSetter := (any -> any * option error).

Record entitySchema := mkEntitySchema {
  index : Z;
  fieldBindSetters : gmap string fieldBindSetter;
  fieldGetters : gmap string (structValue -> any);
  fieldSetters : gmap string (any -> structValue -> structValue);
  (* GetUniqueIndexes(): index name -> its columns *)
  uniqueIndexes : list (string * list string)
}.

(* The implementations of EntityFlush kept in the tracked-entities map. *)
Inductive EntityFlush :=
| editableFields (id : Z) (value : structValue) (newBind oldBind : Bind)
| editableEntity (value : structValue)
| insertableEntity (value : structValue)
| removableEntity (value : structValue).

(* ormImplementation.trackedEntities: schema index -> entity id -> entry;
   a nil map is the empty map. *)
Abbreviation trackedMap := (gmap Z (gmap Z EntityFlush)).

(* oldBind[column] == nil: the column is absent or bound to nil *)
Definition bindIsNil (bind : Bind) (column : string) : bool :=
  match bind !! column with
  | None | Some ANil => true
  | Some _ => false
  end.

(* The innermost loop of addUniqueIndexFieldsToBind. *)
Fixpoint addIndexColumns (schema : entitySchema) (elem : structValue)
         (indexColumns : list string) (oldBind newBind : Bind)
  : outcome (Bind * Bind) :=
  match indexColumns with
  | [] => Returned (oldBind, newBind)
  | indexColumnToAdd :: rest =>
    if bindIsNil oldBind indexColumnToAdd then
      match fieldBindSetters schema !! indexColumnToAdd,
            svFields elem !! indexColumnToAdd with
      | Some setter, Some current =>
        let val := fst (setter current) in
        addIndexColumns schema elem rest
                        (<[indexColumnToAdd := val]> oldBind)
                        (<[indexColumnToAdd := val]> newBind)
      | _, _ => Panicked runtimeNilError
      end
    else addIndexColumns schema elem rest oldBind newBind
  end.

Fixpoint addUniqueIndexFields (schema : entitySchema) (field : string)
         (elem : structValue) (indexes : list (string * list string))
         (oldBind newBind : Bind) : outcome (Bind * Bind) :=
  match indexes with
  | [] => Returned (oldBind, newBind)
  | (_, indexColumns) :: rest =>
    if bool_decide (field ∈ indexColumns) then
      match addIndexColumns schema elem indexColumns oldBind newBind with
      | Panicked p => Panicked p
      | Returned (oldBind1, newBind1) =>
        addUniqueIndexFields schema field elem rest oldBind1 newBind1
      end
    else addUniqueIndexFields schema field elem rest oldBind newBind
  end.

Definition addUniqueIndexFieldsToBind (schema : entitySchema)
           (field : string) (oldBind newBind : Bind) (elem : structValue)
  : outcome (Bind * Bind) :=
  addUniqueIndexFields schema field elem (uniqueIndexes schema)
                       oldBind newBind.

Definition markedToDeleteError (field : string) : error :=
  BindError field "setting field in entity marked to delete not allowed".

Definition trackedEntry (tracked : trackedMap) (schemaIndex id : Z)
  : option EntityFlush :=
  tracked !! schemaIndex ≫= (fun entities => entities !! id).

Definition setTrackedEntry (tracked : trackedMap) (schemaIndex id : Z)
           (entry : EntityFlush) : trackedMap :=
  <[schemaIndex := <[id := entry]> (default ∅ (tracked !! schemaIndex))]>
    tracked.

(* The closure editEntityField runs under the flush mutex: it records the
   pending change and yields asyncError. *)
Definition recordEdit (schema : entitySchema) (tracked : trackedMap)
           (entity : structValue) (field : string) (newValue oldValue : any)
  : trackedMap * outcome (option error) :=
  let id := svID entity in
  match trackedEntry tracked (index schema) id with
  | None =>
    match addUniqueIndexFieldsToBind schema field
            {[field := oldValue]} {[field := newValue]} entity with
    | Panicked p => (tracked, Panicked p)
    | Returned (oldBind, newBind) =>
      (setTrackedEntry tracked (index schema) id
                       (editableFields id entity newBind oldBind),
       Returned None)
    end
  | Some (editableFields id' value newBind oldBind) =>
    match addUniqueIndexFieldsToBind schema field
            (<[field := oldValue]> oldBind) (<[field := newValue]> newBind)
            entity with
    | Panicked p => (tracked, Panicked p)
    | Returned (oldBind1, newBind1) =>
      (setTrackedEntry tracked (index schema) id
                       (editableFields id' value newBind1 oldBind1),
       Returned None)
    end
  | Some (editableEntity value) =>
    match fieldSetters schema !! field with
    | None => (tracked, Panicked runtimeNilError)
    | Some fSetter =>
      (setTrackedEntry tracked (index schema) id
                       (editableEntity (fSetter newValue value)),
       Returned None)
    end
  | Some (insertableEntity value) =>
    match fieldSetters schema !! field with
    | None => (tracked, Panicked runtimeNilError)
    | Some fSetter =>
      (setTrackedEntry tracked (index schema) id
                       (insertableEntity (fSetter newValue value)),
       Returned None)
    end
  | Some (removableEntity _) =>
    (tracked, Returned (Some (markedToDeleteError field)))
  end.

Definition editEntityField (schema : entitySchema) (tracked : trackedMap)
           (entity : structValue) (field : string) (value : any)
  : trackedMap * outcome (option error) :=
  match fieldBindSetters schema !! field with
  | None => (tracked, Returned (Some (BindError field "unknown field")))
  | Some setter =>
    match setter value with
    | (_, Some err) => (tracked, Returned (Some err))
    | (newValue, None) =>
      match fieldGetters schema !! field with
      | None => (tracked, Panicked runtimeNilError)
      | Some getter =>
        let v := getter entity in
        let '(oldValue, err) := setter v in
        if bool_decide (err = None) && any_eqb oldValue newValue
        then (tracked, Returned None)
        else recordEdit schema tracked entity field newValue oldValue
      end
    end
  end.


(* The binds pending for an entity, empty when none are. *)
Definition pendingNewBind (entry : option EntityFlush) : Bind :=
  match entry with
  | Some (editableFields _ _ newBind _) => newBind
  | _ => ∅
  end.

Definition pendingOldBind (entry : option EntityFlush) : Bind :=
  match entry with
  | Some (editableFields _ _ _ oldBind) => oldBind
  | _ => ∅
  end.

(* The entity is untracked or tracked through field edits only. *)
Definition fieldEditsOnly (entry : option EntityFlush) : Prop :=
  match entry with
  | None | Some (editableFields _ _ _ _) => True
  | _ => False
  end.

Definition createStringFieldBindSetter (columnName : string) (length : Z)
           (required : bool) (v : any) : any * option error :=
  match v with
  | ANil =>
    if required
    then (ANil, Some (BindError columnName "empty string not allowed"))
    else (ANil, None)
  | AString asString =>
    if bool_decide (asString = "") then
      if required
      then (ANil, Some (BindError columnName "empty string not allowed"))
      else (ANil, None)
    else if (0 <? length) && (length <? Z.of_nat (String.length asString))
    then (ANil, Some (BindError columnName
                        ("text too long, max " +:+ FormatInt length
                         +:+ " allowed")))
    else (AString asString, None)
  | _ => (ANil, Some (BindError columnName "invalid value"))
  end.

(* createFieldGetter for a plain (non-nullable) field reached by name *)
Definition fieldByName (name : string) (elem : structValue) : any :=
  default ANil (svFields elem !! name).

(* createStringFieldSetter for a field reached by name *)
Definition setStringField (name : string) (v : any) (elem : structValue)
  : structValue :=
  mkStructValue (svID elem)
    (<[name := match v with ANil => AString "" | _ => v end]>
       (svFields elem)).

(* An account schema: Email and Tenant are strings of at most 20 bytes
   and form one unique index. *)
Definition accountSchema : entitySchema :=
  mkEntitySchema 3
    (<["Email" := createStringFieldBindSetter "Email" 20 true]>
       (<["Tenant" := createStringFieldBindSetter "Tenant" 20 true]> ∅))
    (<["Email" := fieldByName "Email"]>
       (<["Tenant" := fieldByName "Tenant"]> ∅))
    (<["Email" := setStringField "Email"]>
       (<["Tenant" := setStringField "Tenant"]> ∅))
    [("Email_Tenant", ["Email"; "Tenant"])].

Definition account (email tenant : string) : structValue :=
  mkStructValue 1 (<["Email" := AString email]>
                     (<["Tenant" := AString tenant]> ∅)).

(* --------------------------------------------------------------------- *)
(* The time package, for the layouts of the Date and DateTime columns     *)
(* --------------------------------------------------------------------- *)

(** Modelled from the spec: the layouts handed to the date setters; their
   call sites are outside the sources. A Date column is configured with
   2006-01-02 and a DateTime column with 2006-01-02 15:04:05, the layout
   the log handler of the sources writes added_at in. *)
Inductive timeLayout := LayoutDate | LayoutDateTime.

Definition layoutString (layout : timeLayout) : string :=
  match layout with
  | LayoutDate => "2006-01-02"
  | LayoutDateTime => "2006-01-02 15:04:05"
  end.

(* Time{}: January 1, year 1, 00:00:00 UTC *)
Definition zeroTime : Time := mkTime 1 1 1 0 0 0 0 UTC.

Definition digitChar (d : Z) : ascii := ascii_of_nat (48 + Z.to_nat d).

(* time.appendInt: x in decimal, zero-padded to width *)
Definition appendInt (x : Z) (width : Z) : string :=
  let u := Z.abs x in
  let sign := if x <? 0 then "-" else "" in
  if (width =? 2) && (u <? 100) then
    sign +:+ String (digitChar (u / 10)) (String (digitChar (u mod 10)) "")
  else if (width =? 4) && (u <? 10000) then
    sign +:+ String (digitChar (u / 1000))
               (String (digitChar (u / 100 mod 10))
                  (String (digitChar (u / 10 mod 10))
                     (String (digitChar (u mod 10)) "")))
  else
    let digits := pretty u in
    sign
    +:+ String.concat ""
          (replicate (Z.to_nat (width - Z.of_nat (String.length digits))) "0")
    +:+ digits.

(* t.Format(layout): the wall clock of t in its own location *)
Definition Format (layout : timeLayout) (t : Time) : string :=
  let date :=
    appendInt (tYear t) 4 +:+ "-" +:+ appendInt (tMonth t) 2 +:+ "-"
    +:+ appendInt (tDay t) 2 in
  match layout with
  | LayoutDate => date
  | LayoutDateTime =>
    date +:+ " " +:+ appendInt (tHour t) 2 +:+ ":"
    +:+ appendInt (tMinute t) 2 +:+ ":" +:+ appendInt (tSecond t) 2
  end.

(* time.leadingInt *)
Fixpoint leadingInt (s : string) (x : Z) : option (Z * string) :=
  match s with
  | EmptyString => Some (x, s)
  | String c rest =>
    if isDigit c then
      if two63 / 10 <? x then None
      else
        let x1 := x * 10 + digitValue c in
        if two63 <? x1 then None else leadingInt rest x1
    else Some (x, s)
  end.

(* time.atoi *)
Definition atoi (s : string) : option Z :=
  let '(neg, digits) :=
    match s with
    | String c rest =>
      if bool_decide (c = "-"%char) then (true, rest)
      else if bool_decide (c = "+"%char) then (false, rest)
      else (false, s)
    | EmptyString => (false, s)
    end in
  match leadingInt digits 0 with
  | Some (q, EmptyString) => Some (if neg then - q else q)
  | _ => None
  end.

(* time.getnum *)
Definition getnum (s : string) (fixed : bool) : option (Z * string) :=
  match s with
  | String c0 rest0 =>
    if isDigit c0 then
      match rest0 with
      | String c1 rest1 =>
        if isDigit c1
        then Some (digitValue c0 * 10 + digitValue c1, rest1)
        else if fixed then None else Some (digitValue c0, rest0)
      | EmptyString => if fixed then None else Some (digitValue c0, rest0)
      end
    else None
  | EmptyString => None
  end.

(* time.skip for a one-character literal of the layout *)
Definition skipChar (c : ascii) (value : string) : option string :=
  match value with
  | String c0 rest => if bool_decide (c0 = c) then Some rest else None
  | EmptyString => None
  end.

Fixpoint cutspace (s : string) : string :=
  match s with
  | String c rest => if bool_decide (c = " "%char) then cutspace rest else s
  | EmptyString => s
  end.

(* time.skip for the space of the layout: any run of spaces *)
Definition skipSpace (value : string) : option string :=
  match value with
  | String c _ =>
    if bool_decide (c = " "%char) then Some (cutspace value) else None
  | EmptyString => Some value
  end.

(* the stdLongYear chunk *)
Definition parseLongYear (value : string) : option (Z * string) :=
  match value with
  | String c0 (String c1 (String c2 (String c3 rest))) =>
    if isDigit c0 then
      match atoi (String c0 (String c1 (String c2 (String c3 ""))))
      with
      | Some year => Some (year, rest)
      | None => None
      end
    else None
  | _ => None
  end.

Fixpoint spanDigits (s : string) : string * string :=
  match s with
  | String c rest =>
    if isDigit c
    then let '(digits, tail) := spanDigits rest in (String c digits, tail)
    else ("", s)
  | EmptyString => ("", s)
  end.

Definition commaOrPeriod (c : ascii) : bool :=
  bool_decide (c = "."%char) || bool_decide (c = ","%char).

(* A fractional second the layout does not ask for: the digits after the
   comma or period, of which parseNanoseconds keeps nine. *)
Definition parseFraction (value : string) : option (Z * string) :=
  match value with
  | String c0 (String c1 rest) =>
    if commaOrPeriod c0 && isDigit c1 then
      let '(digits, tail) := spanDigits (String c1 rest) in
      let kept := String.substring 0 9 digits in
      match atoi kept with
      | Some ns =>
        Some (ns * 10 ^ (9 - Z.of_nat (String.length kept)), tail)
      | None => None
      end
    else Some (0, value)
  | _ => Some (0, value)
  end.

Definition isLeap (year : Z) : bool :=
  (year mod 4 =? 0) && (negb (year mod 100 =? 0) || (year mod 400 =? 0)).

Definition daysIn (month year : Z) : Z :=
  if (month =? 2) && isLeap year then 29
  else if month =? 2 then 28
  else if (month =? 4) || (month =? 6) || (month =? 9) || (month =? 11)
  then 30 else 31.

Definition inRange (lo x hi : Z) : bool := (lo <=? x) && (x <=? hi).

(* The time of day of the DateTime layout: " 15:04:05". *)
Definition parseClock (value : string) : option (Z * Z * Z * Z * string) :=
  value ← skipSpace value;
  '(hour, value) ← getnum value false;
  if negb (inRange 0 hour 23) then None else
  value ← skipChar ":"%char value;
  '(minute, value) ← getnum value true;
  if negb (inRange 0 minute 59) then None else
  value ← skipChar ":"%char value;
  '(second, value) ← getnum value true;
  if negb (inRange 0 second 59) then None else
  '(nsec, value) ← parseFraction value;
  Some (hour, minute, second, nsec, value).

(* time.ParseInLocation(layout, value, time.UTC); None is a parse error *)
Definition parseInUTC (layout : timeLayout) (value : string) : option Time :=
  '(year, value) ← parseLongYear value;
  value ← skipChar "-"%char value;
  '(month, value) ← getnum value true;
  if negb (inRange 1 month 12) then None else
  value ← skipChar "-"%char value;
  '(day, value) ← getnum value true;
  '(hour, minute, second, nsec, value) ←
    match layout with
    | LayoutDate => Some (0, 0, 0, 0, value)
    | LayoutDateTime => parseClock value
    end;
  if negb (bool_decide (value = "")) then None else
  if negb (inRange 1 day (daysIn month year)) then None else
  Some (mkTime year month day hour minute second nsec UTC).

Definition parseError (layout : timeLayout) (value : string) : error :=
  ErrorString ("parsing time " +:+ value +:+ " as " +:+ layoutString layout).

Definition ParseInLocation (layout : timeLayout) (value : string)
  : Time * option error :=
  match parseInUTC layout value with
  | Some t => (t, None)
  | None => (zeroTime, Some (parseError layout value))
  end.

(* ===================================================================== *)
(* Part VII. The date bind setter and the time field setter               *)
(* ===================================================================== *)

Definition utcOnlyError (columnName : string) : error :=
  BindError columnName "time must be in UTC location".

(* t.Location().String() != time.UTC.String() *)
Definition notNamedUTC (t : Time) : bool :=
  negb (bool_decide (locName (tLocation t) = locName UTC)).

Definition createDateFieldBindSetter (columnName : string)
           (layout : timeLayout) (nullable : bool) (v : any)
  : outcome (any * option error) :=
  match v with
  | ANil =>
    if negb nullable
    then Returned (ANil, Some (BindError columnName "nil is not allowed"))
    else Returned (ANil, None)
  | ATime t =>
    if notNamedUTC t then Returned (ANil, Some (utcOnlyError columnName))
    else Returned (AString (Format layout t), None)
  | ATimePtr None => Panicked runtimeNilError
  | ATimePtr (Some p) =>
    let t := deref p in
    if notNamedUTC t then Returned (ANil, Some (utcOnlyError columnName))
    else Returned (AString (Format layout t), None)
  | AString s =>
    match ParseInLocation layout s with
    | (_, Some _) =>
      Returned (ANil, Some (BindError columnName ("invalid time " +:+ s)))
    | (t, None) => Returned (AString (Format layout t), None)
    end
  | _ => Returned (ANil, Some (BindError columnName "invalid value"))
  end.

(* createTimeFieldSetter; the field getSetterField resolves is named
   here instead of being reached through its reflection path. *)
Definition createTimeFieldSetter (fieldName : string) (layout : timeLayout)
           (v : any) (elem : structValue) : outcome structValue :=
  match v with
  | AString s =>
    let t := fst (ParseInLocation layout s) in
    Returned (mkStructValue (svID elem)
                            (<[fieldName := ATime t]> (svFields elem)))
  | _ => Panicked (PanicError TypeAssertionError)
  end.

(* The time a setter input stands for, when the bind setter accepts it. *)
Definition acceptedTime (layout : timeLayout) (v : any) : option Time :=
  match v with
  | ATime t => if notNamedUTC t then None else Some t
  | ATimePtr (Some p) => if notNamedUTC (deref p) then None else Some (deref p)
  | AString s => parseInUTC layout s
  | _ => None
  end.

(* A time that fits the layouts: a calendar date of the years 0..9999
   and a time of day. *)
Definition validTime (t : Time) : Prop :=
  0 <= tYear t <= 9999 /\ 1 <= tMonth t <= 12
  /\ 1 <= tDay t <= daysIn (tMonth t) (tYear t)
  /\ 0 <= tHour t <= 23 /\ 0 <= tMinute t <= 59 /\ 0 <= tSecond t <= 59.

(* t cut down to what the layout holds, read as a UTC time *)
Definition truncateTo (layout : timeLayout) (t : Time) : Time :=
  match layout with
  | LayoutDate => mkTime (tYear t) (tMonth t) (tDay t) 0 0 0 0 UTC
  | LayoutDateTime =>
    mkTime (tYear t) (tMonth t) (tDay t) (tHour t) (tMinute t) (tSecond t)
           0 UTC
  end.

(* What createTimeFieldSetter leaves in the struct. *)
Definition withTimeField (fieldName : string) (t : Time) (elem : structValue)
  : structValue :=
  mkStructValue (svID elem) (<[fieldName := ATime t]> (svFields elem)).

(* time.FixedZone("UTC", 3600): a location one hour east of UTC that
   carries the name of UTC. *)
Definition misnamedZone : Location := mkLocation "UTC" 3600.

Definition elevenInMisnamedZone : Time :=
  mkTime 2021 3 7 11 0 0 0 misnamedZone.

(* ===================================================================== *)
(* Part VIII. More of the bind pipeline                                   *)
(* ===================================================================== *)

Definition typeAssertionPanic : panicValue := PanicError TypeAssertionError.

(* createUint64AttrToStringSetter: the cache-key string of an attribute,
   from a bind value (fromBind) or from a raw value through the setter.
   The assertions v.(uint64) panic on any other dynamic type. *)
Definition createUint64AttrToStringSetter (setter : fieldBindSetter)
           (v : any) (fromBind : bool) : outcome (string * option error) :=
  if fromBind then
    match v with
    | AInt Uint64 n => Returned (FormatUint n, None)
    | _ => Panicked typeAssertionPanic
    end
  else
    match setter v with
    | (_, Some err) => Returned ("", Some err)
    | (v2, None) =>
      match v2 with
      | AInt Uint64 n => Returned (FormatUint n, None)
      | _ => Panicked typeAssertionPanic
      end
    end.

(* createInt64AttrToStringSetter *)
Definition createInt64AttrToStringSetter (setter : fieldBindSetter)
           (v : any) (fromBind : bool) : outcome (string * option error) :=
  if fromBind then
    match v with
    | AInt Int64 n => Returned (FormatInt n, None)
    | _ => Panicked typeAssertionPanic
    end
  else
    match setter v with
    | (_, Some err) => Returned ("", Some err)
    | (v2, None) =>
      match v2 with
      | AInt Int64 n => Returned (FormatInt n, None)
      | _ => Panicked typeAssertionPanic
      end
    end.

(* createNullableFieldBindSetter *)
Definition createNullableFieldBindSetter (setter : fieldBindSetter) (v : any)
  : any * option error :=
  match v with
  | ANil => (ANil, None)
  | _ => setter v
  end.

(* createBytesFieldBindSetter. In the []byte case the test v == ""
   compares the slice behind the interface with a string and is false. *)
Definition createBytesFieldBindSetter (columnName : string) (v : any)
  : any * option error :=
  match v with
  | ANil => (ANil, None)
  | AString asString =>
    if bool_decide (asString = "") then (ANil, None)
    else (AString asString, None)
  | ABytes asString => (AString asString, None)
  | _ => (ANil, Some (BindError columnName "invalid value"))
  end.

(* An input of the number setter whose integer fits its Go type. *)
Definition wellTyped (v : any) : Prop :=
  match v with
  | AInt k n => fitsKind k n
  | AIntPtr k (Some i) => fitsKind k (deref i)
  | _ => True
  end.

(* A schema without unique index: notes with a title of at most 50
   bytes. *)
Definition noteSchema : entitySchema :=
  mkEntitySchema 4
    (<["Title" := createStringFieldBindSetter "Title" 50 true]> ∅)
    (<["Title" := fieldByName "Title"]> ∅)
    (<["Title" := setStringField "Title"]> ∅)
    [].

Definition note (title : string) : structValue :=
  mkStructValue 9 (<["Title" := AString title]> ∅).

(* A schema whose unique column may be null: the code of a voucher. *)
Definition voucherSchema : entitySchema :=
  mkEntitySchema 5
    (<["Code" := createStringFieldBindSetter "Code" 10 false]> ∅)
    (<["Code" := fieldByName "Code"]> ∅)
    (<["Code" := setStringField "Code"]> ∅)
    [("Code", ["Code"])].

Definition voucher (code : string) : structValue :=
  mkStructValue 2 (<["Code" := AString code]> ∅).

(* ===================================================================== *)
(* Part IX. More of the flusher: events, rows and the lazy map            *)
(* ===================================================================== *)

(* The fields of tableSchema the event helpers read. dirtyFields is a Go
   map from stream to columns, kept as a list of its entries. *)
Record tableEvents := mkTableEvents {
  typeName : string;                           (* schema.t.String() *)
  dirtyFields : list (string * list string);
  hasLog : bool;
  skipLogs : list string;
  logTableNameOf : string;
  logPoolNameOf : string
}.

(* The inner loop of addDirtyQueues: is one of the columns "ORM" or bound?
   It stops at the first such column. *)
Fixpoint hasDirtyColumn (bind : Bind) (columns : list string) : bool :=
  match columns with
  | [] => false
  | column :: rest =>
    if bool_decide (column = "ORM") || bool_decide (is_Some (bind !! column))
    then true
    else hasDirtyColumn bind rest
  end.

(* The outer loop: the streams published to (not lazy) or collected in
   allStreams (lazy), and whether key was set. *)
Fixpoint dirtyStreams (bind : Bind) (fields : list (string * list string))
  : list string :=
  match fields with
  | [] => []
  | (stream, columns) :: rest =>
    if hasDirtyColumn bind columns
    then stream :: dirtyStreams bind rest
    else dirtyStreams bind rest
  end.

(* addDirtyQueues: the events published to the remote streams and the
   value returned (nil is None). *)
Definition addDirtyQueues (bind : Bind) (schema : tableEvents) (id : Z)
           (action : string) (lazy : bool)
  : list (string * dirtyEvent) * option lazyDirtyRow :=
  let key := mkDirtyEvent (typeName schema) id action in
  let streams := dirtyStreams bind (dirtyFields schema) in
  if negb lazy then (map (fun stream => (stream, key)) streams, None)
  else
    match streams with
    | [] => ([], None)
    | _ => ([], Some (mkLazyDirtyRow key streams))
    end.

(* addToLogQueue: the value published to the log channel (not lazy) and
   the value returned. Updated, the wall clock, is left out. Nil maps are
   None. *)
Definition addToLogQueue (schema : tableEvents) (logMetaData : option Bind)
           (id : Z) (before changes entityMeta : option Bind) (lazy : bool)
  : list LogQueueValue * option LogQueueValue :=
  if negb (hasLog schema) then ([], None)
  else
    let allSkipped :=
      match changes with
      | Some changed =>
        if (0 <? length (skipLogs schema))%nat then
          let skipped :=
            length (filter (fun skip => is_Some (changed !! skip))
                           (skipLogs schema)) in
          bool_decide (skipped = size changed)
        else false
      | None => false
      end in
    if allSkipped then ([], None)
    else
      let meta :=
        match entityMeta with
        | None => logMetaData
        | Some entity => Some (default ∅ logMetaData ∪ entity)
        end in
      let val :=
        mkLogQueueValue (logPoolNameOf schema) (logTableNameOf schema) id
                        meta before changes in
      (if negb lazy then [val] else [], Some val).

(* convertDBDataToMap: the row as a map of the columns after the ID. *)
Fixpoint rowToMap (mapping : gmap string nat) (names : list string)
         (data : list any) (m : Bind) : outcome Bind :=
  match names with
  | [] => Returned m
  | name :: rest =>
    match data !! mappingIndex mapping name with
    | Some value => rowToMap mapping rest data (<[name := value]> m)
    | None => Panicked runtimeIndexError
    end
  end.

Definition convertDBDataToMap (schema : tableSchema) (data : list any)
  : outcome Bind :=
  match columnNames schema with
  | [] => Panicked sliceBoundsError
  | _ :: names => rowToMap (columnMapping schema) names data ∅
  end.

(* The lazy map of the flusher before it is serialized. *)
Record lazyMap := mkLazyMap {
  lazyQ : option (list lazyQuery);
  lazyL : option (list LogQueueValue);
  lazyD : option (list lazyDirtyRow)
}.

Definition emptyLazyMap : lazyMap := mkLazyMap None None None.

Definition fillLazyQuery (m : lazyMap) (dbCode sql : string)
           (values : option (list any)) (logEvent : list LogQueueValue)
           (dirtyData : list lazyDirtyRow) : lazyMap :=
  mkLazyMap
    (Some (default [] (lazyQ m) ++ [mkLazyQuery dbCode sql values]))
    (if (0 <? length logEvent)%nat then Some logEvent else lazyL m)
    (if (0 <? length dirtyData)%nat then Some dirtyData else lazyD m).

(* One statement of a lazy flush with its events. *)
Record lazyStatement := mkLazyStatement {
  stCode : string;
  stSQL : string;
  stValues : option (list any);
  stLogs : list LogQueueValue;
  stDirty : list lazyDirtyRow
}.

Definition fillLazyQueries (m : lazyMap) (statements : list lazyStatement)
  : lazyMap :=
  foldl (fun m st => fillLazyQuery m (stCode st) (stSQL st) (stValues st)
                                   (stLogs st) (stDirty st))
        m statements.

(* The entry fillLazyQuery appends for a statement, and len(x) > 0. *)
Definition queryOf (st : lazyStatement) : lazyQuery :=
  mkLazyQuery (stCode st) (stSQL st) (stValues st).

Definition nonEmpty {A : Type} (l : list A) : bool := (0 <? length l)%nat.

(* addLocalCacheDeletes and addLocalCacheSet on the buffers *)
Definition addLocalCacheDeletes (b : flushBuffers) (cacheCode : string)
           (keys : list string) : flushBuffers :=
  match keys with
  | [] => b
  | _ =>
    mkFlushBuffers (updateSQLs b) (deleteBinds b)
      (<[cacheCode := default [] (localCacheDeletes b !! cacheCode) ++ keys]>
         (localCacheDeletes b))
      (localCacheSets b)
  end.

Definition addLocalCacheSet (b : flushBuffers) (cacheCode : string)
           (keys : list any) : flushBuffers :=
  mkFlushBuffers (updateSQLs b) (deleteBinds b) (localCacheDeletes b)
    (<[cacheCode := default [] (localCacheSets b !! cacheCode) ++ keys]>
       (localCacheSets b)).

(* ===================================================================== *)
(* Part X. The background consumer: handleCache                           *)
(* ===================================================================== *)

(* strings.Join(elems, sep) *)
Fixpoint Join (elems : list string) (sep : string) : string :=
  match elems with
  | [] => ""
  | e :: rest =>
    match rest with
    | [] => e
    | _ => e +:+ sep +:+ Join rest sep
    end
  end.

(* The body of the inner loop over the keys of one cache: the key as it
   is deleted and the next idKey. ids[idKey] past the end of ids (nil
   included) panics. *)
Definition rewriteCacheKey (v : string) (ids : list Z) (idKey : nat)
  : outcome (string * nat) :=
  let parts := Split v ":"%char in
  let l := length parts in
  if (1 <? l)%nat then
    if bool_decide (parts !! (l - 1)%nat = Some "0") then
      match ids !! idKey with
      | Some id =>
        Returned (Join (<[(l - 1)%nat := FormatUint id]> parts) ":", S idKey)
      | None => Panicked runtimeIndexError
      end
    else Returned (Join parts ":", S idKey)
  else Returned (Join parts ":", idKey).

Fixpoint rewriteCacheKeys (allKeys : list string) (ids : list Z)
         (idKey : nat) : outcome (list string * nat) :=
  match allKeys with
  | [] => Returned ([], idKey)
  | v :: rest =>
    match rewriteCacheKey v ids idKey with
    | Panicked p => Panicked p
    | Returned (key, idKey1) =>
      match rewriteCacheKeys rest ids idKey1 with
      | Panicked p => Panicked p
      | Returned (keys, idKey2) => Returned (key :: keys, idKey2)
      end
    end
  end.

(* The loop over validMap["cr"], a Go map kept as the list of its entries
   in the order the range statement visits them: the Del calls made, cache
   by cache, and the panic that stopped the loop, if any. *)
Fixpoint deleteRemoteKeys (validKeys : list (string * list string))
         (ids : list Z) (idKey : nat)
  : list (string * list string) * option panicValue :=
  match validKeys with
  | [] => ([], None)
  | (cacheCode, allKeys) :: rest =>
    match rewriteCacheKeys allKeys ids idKey with
    | Panicked p => ([], Some p)
    | Returned (stringKeys, idKey1) =>
      let '(calls, r) := deleteRemoteKeys rest ids idKey1 in
      ((cacheCode, stringKeys) :: calls, r)
    end
  end.

(* The envelope keys handleCache reads; None is an absent key. *)
Record cacheEnvelope := mkCacheEnvelope {
  envCR : option (list (string * list string));
  envCL : option (list (string * list string))
}.

(* handleCache: the Del calls on the remote caches, the Remove calls on
   the local caches, and the panic, if any. *)
Definition handleCache (validMap : cacheEnvelope) (ids : list Z)
  : list (string * list string) * list (string * list string)
    * option panicValue :=
  let '(deleted, r) :=
    match envCR validMap with
    | Some validKeys => deleteRemoteKeys validKeys ids 0
    | None => ([], None)
    end in
  match r with
  | Some p => (deleted, [], Some p)
  | None => (deleted, default [] (envCL validMap), None)
  end.

(* A store that keeps what Set wrote, as a map from key to value. *)
Definition keyValueStore : searchOps (gmap string string) := {|
  lastIDKeyPrefix := "_orm_force_index";
  redisGet := fun key r => r !! key;
  redisSet := fun key value _ r => <[key := value]> r;
  redisDel := fun key r => delete key r;
  pusherCommands := fun _ => 0;
  pusherFlush := fun r => r;
  ListIndices := fun _ => [];
  dropIndex := fun _ r => r
|}.

(* An indexer that works through the ids in steps of 100 up to 300. *)
Definition steppingIndex : RedisSearchIndex (gmap string string) :=
  mkRedisSearchIndex "users"
    (Some (fun id r => (r, (Z.min (id + 100) 300, id + 100 <? 300)))).

(* ===================================================================== *)
(* Part T. Theorems                                                       *)
(* ===================================================================== *)

Section FlusherFacts.
Context {W : Type} `{engineOps W}.

Lemma wrapInt_small (z : Z) : - two63 <= z < two63 -> wrapInt z = z.
Proof.
  intros Hz. unfold wrapInt, two64, two63 in *.
  rewrite Z.mod_small; lia.
Qed.

Lemma Track_below_limit (entity : list entityRef) (f : flusher) (w : W) :
  0 <= trackedEntitiesCounter f ->
  trackedEntitiesCounter f + Z.of_nat (length entity) <= 10000 ->
  exists w',
    Track entity f w =
    (mkFlusher (trackedEntities f ++ entity)
               (trackedEntitiesCounter f + Z.of_nat (length entity))
               (buffers f), w', None).
Proof.
  revert f w. induction entity as [|e rest IH]; intros f w H0 Hle.
  - exists w. simpl. destruct f; simpl. rewrite app_nil_r, Z.add_0_r. done.
  - cbn [Track]. cbn [trackedEntitiesCounter].
    cbn [length] in Hle. rewrite Nat2Z.inj_succ in Hle.
    rewrite wrapInt_small by (unfold two63; lia).
    destruct (Z.eqb_spec (trackedEntitiesCounter f + 1) 10001) as [E|_]; [lia|].
    edestruct (IH (mkFlusher (trackedEntities f ++ [e])
                             (trackedEntitiesCounter f + 1) (buffers f))
                  (initIfNeeded e w)) as [w' Hw'].
    + simpl; lia.
    + simpl; lia.
    + exists w'. rewrite Hw'. cbn [trackedEntities trackedEntitiesCounter buffers].
      rewrite <- app_assoc. cbn [app length]. rewrite Nat2Z.inj_succ.
      replace (trackedEntitiesCounter f + 1 + Z.of_nat (length rest))
        with (trackedEntitiesCounter f + Z.succ (Z.of_nat (length rest)))
        by lia.
      reflexivity.
Qed.

Lemma Track_over_limit (entity : list entityRef) (f : flusher) (w : W) :
  0 <= trackedEntitiesCounter f <= 10000 ->
  10001 <= trackedEntitiesCounter f + Z.of_nat (length entity) ->
  exists f' w',
    Track entity f w = (f', w', Some trackLimitError)
    /\ trackedEntitiesCounter f' = 10001.
Proof.
  revert f w. induction entity as [|e rest IH]; intros f w H0 Hge.
  - simpl in Hge. lia.
  - cbn [Track]. cbn [trackedEntitiesCounter].
    cbn [length] in Hge. rewrite Nat2Z.inj_succ in Hge.
    rewrite wrapInt_small by (unfold two63; lia).
    destruct (Z.eqb_spec (trackedEntitiesCounter f + 1) 10001) as [E|NE].
    + eexists _, _. split; [reflexivity|]. simpl. exact E.
    + apply IH; simpl; lia.
Qed.

Lemma runCall_below_limit (c : trackCall) (f : flusher) (w : W) :
  0 <= trackedEntitiesCounter f ->
  trackedEntitiesCounter f + Z.of_nat (length (callEntities c)) <= 10000 ->
  exists w',
    runCall c f w =
    (mkFlusher (trackedEntities f ++ callEntities c)
               (trackedEntitiesCounter f + Z.of_nat (length (callEntities c)))
               (buffers f), w', None).
Proof.
  intros H0 Hle. destruct c as [es|es|es]; simpl in *;
    unfold Delete, ForceDelete; by apply Track_below_limit.
Qed.

Lemma runCall_over_limit (c : trackCall) (f : flusher) (w : W) :
  0 <= trackedEntitiesCounter f <= 10000 ->
  10001 <= trackedEntitiesCounter f + Z.of_nat (length (callEntities c)) ->
  exists f' w',
    runCall c f w = (f', w', Some trackLimitError)
    /\ trackedEntitiesCounter f' = 10001.
Proof.
  intros H0 Hge. destruct c as [es|es|es]; simpl in *;
    unfold Delete, ForceDelete; by apply Track_over_limit.
Qed.

Lemma trackedBy_cons (c : trackCall) (calls : list trackCall) :
  trackedBy (c :: calls)
  = Z.of_nat (length (callEntities c)) + trackedBy calls.
Proof.
  unfold trackedBy. cbn [map concat]. rewrite length_app. lia.
Qed.

Lemma trackedBy_app (xs ys : list trackCall) :
  trackedBy (xs ++ ys) = trackedBy xs + trackedBy ys.
Proof.
  induction xs as [|x xs IH]; [unfold trackedBy; simpl; lia|].
  cbn [app]. rewrite !trackedBy_cons, IH. lia.
Qed.

Lemma trackedBy_nonneg (calls : list trackCall) : 0 <= trackedBy calls.
Proof. unfold trackedBy. lia. Qed.

Lemma runCalls_below_limit (calls : list trackCall) (n : nat)
      (f : flusher) (w : W) :
  0 <= trackedEntitiesCounter f ->
  trackedEntitiesCounter f + trackedBy calls <= 10000 ->
  exists w',
    runCalls n calls f w =
    (mkFlusher (trackedEntities f ++ concat (map callEntities calls))
               (trackedEntitiesCounter f + trackedBy calls)
               (buffers f), w', None).
Proof.
  revert n f w. induction calls as [|c rest IH]; intros n f w H0 Hle.
  - exists w. simpl. destruct f; simpl.
    unfold trackedBy; simpl. rewrite app_nil_r, Z.add_0_r. done.
  - rewrite trackedBy_cons in Hle. pose proof (trackedBy_nonneg rest).
    destruct (runCall_below_limit c f w) as [w1 Hc]; [lia|lia|].
    cbn [runCalls]. rewrite Hc.
    edestruct (IH (S n)
                  (mkFlusher (trackedEntities f ++ callEntities c)
                     (trackedEntitiesCounter f
                      + Z.of_nat (length (callEntities c)))
                     (buffers f)) w1) as [w' Hw']; [| |exists w'; rewrite Hw'].
    + simpl; lia.
    + simpl; lia.
    + cbn [trackedEntities trackedEntitiesCounter buffers].
      rewrite trackedBy_cons. cbn [map concat].
      rewrite <- app_assoc, <- Z.add_assoc. reflexivity.
Qed.

End FlusherFacts.

Section FlusherTheorems.
Context {W : Type} `{engineOps W}.

Lemma runCalls_over_limit (before : list trackCall) (c : trackCall)
      (after : list trackCall) (n : nat) (f : flusher) (w : W) :
  0 <= trackedEntitiesCounter f ->
  trackedEntitiesCounter f + trackedBy before <= 10000 ->
  10001 <= trackedEntitiesCounter f + trackedBy (before ++ [c]) ->
  exists f' w',
    runCalls n (before ++ c :: after) f w
    = (f', w', Some ((n + length before)%nat, trackLimitError))
    /\ trackedEntitiesCounter f' = 10001.
Proof.
  revert n f w. induction before as [|b rest IH]; intros n f w H0 Hle Hge.
  - cbn [app] in *. rewrite trackedBy_cons in Hge.
    unfold trackedBy in Hle, Hge; simpl in Hle, Hge.
    destruct (runCall_over_limit c f w) as (f' & w' & Hc & Hcnt); [lia|lia|].
    exists f', w'. cbn [runCalls]. rewrite Hc. split; [|done].
    cbn [length]. by rewrite Nat.add_0_r.
  - cbn [app] in *. rewrite trackedBy_cons in Hle, Hge.
    pose proof (trackedBy_nonneg rest).
    pose proof (trackedBy_nonneg (rest ++ [c])).
    destruct (runCall_below_limit b f w) as [w1 Hb]; [lia|lia|].
    cbn [runCalls]. rewrite Hb.
    edestruct (IH (S n)
                  (mkFlusher (trackedEntities f ++ callEntities b)
                     (trackedEntitiesCounter f
                      + Z.of_nat (length (callEntities b)))
                     (buffers f)) w1) as (f' & w' & Hr & Hcnt).
    + simpl; lia.
    + simpl; lia.
    + simpl; lia.
    + exists f', w'. rewrite Hr. split; [|done].
      cbn [length]. by rewrite Nat.add_succ_r.
Qed.

(** C9: Track accepts at most 10,000 tracked entities. For every sequence
    of Track/Delete/ForceDelete calls on a flusher whose counter lies in
    0..10000: no call panics while the cumulative counter stays at most
    10,000 (every entity is appended and counted), and the call that makes
    the counter reach 10,001 panics with the track-limit error. *)
Theorem Track_limit_10000 (calls : list trackCall) (f : flusher) (w : W) :
  0 <= trackedEntitiesCounter f <= 10000 ->
  (trackedEntitiesCounter f + trackedBy calls <= 10000 ->
   exists f' w',
     runCalls 0 calls f w = (f', w', None)
     /\ trackedEntitiesCounter f' = trackedEntitiesCounter f + trackedBy calls
     /\ trackedEntities f'
        = trackedEntities f ++ concat (map callEntities calls))
  /\ (forall before c after,
       calls = before ++ c :: after ->
       trackedEntitiesCounter f + trackedBy before <= 10000 ->
       10001 <= trackedEntitiesCounter f + trackedBy (before ++ [c]) ->
       exists f' w',
         runCalls 0 calls f w
         = (f', w', Some (length before, trackLimitError))
         /\ trackedEntitiesCounter f' = 10001).
Proof.
  intros [H0 H1]. split.
  - intros Hle. destruct (runCalls_below_limit calls 0 f w H0 Hle) as [w' Hw'].
    eexists _, w'. split; [exact Hw'|]. done.
  - intros before c after -> Hle Hge.
    destruct (runCalls_over_limit before c after 0 f w H0 Hle Hge)
      as (f' & w' & Hr & Hcnt).
    exists f', w'. by split.
Qed.

Lemma flushTrackedEntities_fault (f : flusher) (w : W) (b : flushBuffers)
      (w1 : W) (r : panicValue) :
  trackedEntitiesCounter f <> 0 ->
  flush true false false (trackedEntities f) (buffers f) w = (b, w1, Some r) ->
  flushTrackedEntities false false f w = (withBuffers f b, w1, Some r).
Proof.
  intros Hc Hf. unfold flushTrackedEntities.
  destruct (Z.eqb_spec (trackedEntitiesCounter f) 0) as [E|_]; [done|].
  rewrite Hf. reflexivity.
Qed.

Lemma flushTrackedEntities_success (f : flusher) (w : W) (b : flushBuffers)
      (w1 : W) :
  trackedEntitiesCounter f <> 0 ->
  flush true false false (trackedEntities f) (buffers f) w = (b, w1, None) ->
  flushTrackedEntities false false f w
  = (mkFlusher (trackedEntities f) (trackedEntitiesCounter f) emptyBuffers,
     w1, None).
Proof.
  intros Hc Hf. unfold flushTrackedEntities.
  destruct (Z.eqb_spec (trackedEntitiesCounter f) 0) as [E|_]; [done|].
  rewrite Hf. reflexivity.
Qed.

(** C3 (amended): when a flush attempt fails with fault r, Flush lets the
    fault propagate, and both checked flushers first clear the tracked
    state. If r is an error value, FlushWithCheck returns it when it is a
    *ForeignKeyError or a *DuplicatedKeyError and panics again with it
    otherwise, and FlushWithFullCheck returns it whatever error it is. If
    r is not an error value, neither of them returns it: the assertion
    r.(error) fails and the call panics with a type-assertion error. *)
Theorem checked_flush_fault_handling (f : flusher) (w : W)
        (b : flushBuffers) (w1 : W) (r : panicValue) :
  trackedEntitiesCounter f <> 0 ->
  flush true false false (trackedEntities f) (buffers f) w
  = (b, w1, Some r) ->
  Flush f w = (withBuffers f b, w1, Some r)
  /\ FlushWithCheck f w
     = (mkFlusher [] 0 emptyBuffers, w1,
        match r with
        | PanicError e =>
          match e with
          | ForeignKeyError _ _ | DuplicatedKeyError _ _ => Returned (Some e)
          | _ => Panicked (PanicError e)
          end
        | PanicOther _ => Panicked (PanicError TypeAssertionError)
        end)
  /\ FlushWithFullCheck f w
     = (mkFlusher [] 0 emptyBuffers, w1,
        match r with
        | PanicError e => Returned (Some e)
        | PanicOther _ => Panicked (PanicError TypeAssertionError)
        end).
Proof.
  intros Hc Hf.
  pose proof (flushTrackedEntities_fault f w b w1 _ Hc Hf) as Hft.
  unfold Flush, FlushWithCheck, flushWithCheck, FlushWithFullCheck.
  rewrite Hft. destruct r as [e|v]; [|done]. repeat split; by destruct e.
Qed.

End FlusherTheorems.

Lemma Track_limit_10000_witness :
  exists f' w',
    runCalls (H := countingEngine) 0
      [CallTrack (seq 0 (Z.to_nat 10000)); CallDelete [7%nat]] newFlusher 0%nat
    = (f', w', Some (1%nat, trackLimitError))
    /\ trackedEntitiesCounter f' = 10001.
Proof.
  destruct (Track_limit_10000 (H := countingEngine)
              [CallTrack (seq 0 (Z.to_nat 10000)); CallDelete [7%nat]] newFlusher 0%nat)
    as [_ Hpanic].
  - simpl. lia.
  - apply (Hpanic [CallTrack (seq 0 (Z.to_nat 10000))] (CallDelete [7%nat]) []).
    + reflexivity.
    + vm_compute. discriminate.
    + vm_compute. discriminate.
Defined.

Lemma checked_flush_fault_handling_witness :
  FlushWithCheck (H := failingEngine
                    (PanicError (DuplicatedKeyError "Duplicate entry" "Email")))
                 (mkFlusher [1%nat] 1 emptyBuffers) 0%nat
  = (mkFlusher [] 0 emptyBuffers, 1%nat,
     Returned (Some (DuplicatedKeyError "Duplicate entry" "Email"))).
Proof.
  apply (checked_flush_fault_handling
           (H := failingEngine
                   (PanicError (DuplicatedKeyError "Duplicate entry" "Email")))
           (mkFlusher [1%nat] 1 emptyBuffers) 0%nat emptyBuffers 1%nat
           (PanicError (DuplicatedKeyError "Duplicate entry" "Email"))).
  - simpl. lia.
  - reflexivity.
Defined.

Lemma checked_flush_fault_handling_counterexample :
  FlushWithFullCheck (H := failingEngine (PanicOther (AString "boom")))
                     (mkFlusher [1%nat] 1 emptyBuffers) 0%nat
  = (mkFlusher [] 0 emptyBuffers, 1%nat,
     Panicked (PanicError TypeAssertionError))
  /\ FlushWithCheck (H := failingEngine (PanicOther (AString "boom")))
                    (mkFlusher [1%nat] 1 emptyBuffers) 0%nat
     = (mkFlusher [] 0 emptyBuffers, 1%nat,
        Panicked (PanicError TypeAssertionError))
  /\ Flush (H := failingEngine (PanicOther (AString "boom")))
           (mkFlusher [1%nat] 1 emptyBuffers) 0%nat
     = (mkFlusher [1%nat] 1 emptyBuffers, 1%nat,
        Some (PanicOther (AString "boom"))).
Proof. repeat split. Qed.

(** C4 (as the code behaves): a successful Flush leaves the tracked list
    and its counter as they were, so a second Flush on the same flusher
    runs the batch again instead of finding an empty tracked set. *)
Theorem Flush_keeps_tracked_entities :
  Flush (H := countingEngine) (mkFlusher [7%nat] 1 emptyBuffers) 0%nat
  = (mkFlusher [7%nat] 1 emptyBuffers, 1%nat, None)
  /\ Flush (H := countingEngine) (mkFlusher [7%nat] 1 emptyBuffers) 1%nat
     = (mkFlusher [7%nat] 1 emptyBuffers, 2%nat, None).
Proof. split; reflexivity. Qed.

(* --------------------------------------------------------------------- *)
(* Ids of a batched insert                                                *)
(* --------------------------------------------------------------------- *)




Lemma withoutID_nonneg (heap : gmap entityRef Entity)
      (batch : list (entityRef * Bind)) : 0 <= withoutID heap batch.
Proof.
  induction batch as [|[r b] rest IH]; cbn [withoutID]; [lia|].
  destruct (heap !! r) as [e|]; [destruct (GetID e =? 0)|]; lia.
Qed.

Lemma wrap64_step (id a j : Z) :
  wrap64 (wrap64 (id + a) + j * a) = wrap64 (id + (1 + j) * a).
Proof.
  unfold wrap64. rewrite Z.add_mod_idemp_l by (unfold two64; lia).
  f_equal. lia.
Qed.

Lemma wrap64_wrap64 (z : Z) : wrap64 (wrap64 z) = wrap64 z.
Proof. unfold wrap64. apply Z.mod_mod. unfold two64. lia. Qed.











(* What the amended claim leaves out. In a batch whose first entity has
   no id while a later one carries 77, the statement has no ID column:
   the 77 is not among the arguments, the database numbers the three rows
   itself, and the ids the loop stamps are 10, 77 and 11. *)
Lemma mixed_batch_id_not_sent :
  insertKeysOf usersBatch.*2 = ["Name"]
  /\ insertArgumentsOf (insertKeysOf usersBatch.*2) usersBatch.*2
     = [AString "a"; AString "b"; AString "c"]
  /\ exists id' heap' updates',
       assignInsertedIDs 1 usersBatch 10 usersHeap []
       = Returned (id', heap', updates')
       /\ idElem <$> heap' !! 0%nat = Some 10
       /\ idElem <$> heap' !! 1%nat = Some 77
       /\ idElem <$> heap' !! 2%nat = Some 11.
Proof.
  split; [vm_compute; reflexivity|]. split; [vm_compute; reflexivity|].
  eexists _, _, _. split; [vm_compute; reflexivity|].
  repeat split; vm_compute; reflexivity.
Qed.

(* In a batch that holds an entity twice the second visit finds the id
   the first one wrote and takes no new one: the third entry gets 11. *)
Lemma batch_with_entity_twice :
  exists id' heap' updates',
    assignInsertedIDs 1 twiceBatch 10 newUsersHeap []
    = Returned (id', heap', updates')
    /\ id' = 12
    /\ idElem <$> heap' !! 0%nat = Some 10
    /\ idElem <$> heap' !! 1%nat = Some 11.
Proof.
  eexists _, _, _. split; [vm_compute; reflexivity|].
  repeat split; vm_compute; reflexivity.
Qed.

(* --------------------------------------------------------------------- *)
(* Replay of a lazy envelope                                              *)
(* --------------------------------------------------------------------- *)

Lemma renumberLogRows_ids (autoincrement : Z) (rows : list lazyLogRow) :
  forall id, wrap64 id = id ->
  snd (renumberLogRows autoincrement rows id)
  = wrap64 (id + Z.of_nat (length rows) * autoincrement)
  /\ forall k row,
       fst (renumberLogRows autoincrement rows id) !! k = Some row ->
       lID row = wrap64 (id + Z.of_nat k * autoincrement).
Proof.
  induction rows as [|r rest IH]; intros id Hid.
  - split; [simpl; by rewrite Z.mul_0_l, Z.add_0_r|]. intros k row Hk.
    by destruct k.
  - cbn [renumberLogRows].
    destruct (IH (wrap64 (id + autoincrement)) (wrap64_wrap64 _))
      as [Hsnd Hfst].
    destruct (renumberLogRows autoincrement rest
                (wrap64 (id + autoincrement))) as [rest' id'].
    cbn [fst snd] in *. split.
    + rewrite Hsnd. cbn [length]. rewrite Nat2Z.inj_succ, wrap64_step.
      f_equal. lia.
    + intros [|k] row Hk.
      * cbn in Hk. injection Hk as <-. simpl. by rewrite Z.add_0_r.
      * cbn in Hk. rewrite (Hfst k row Hk), Nat2Z.inj_succ, wrap64_step.
        f_equal. lia.
Qed.

Lemma renumberDirtyRows_ids (autoincrement : Z) (rows : list lazyDirtyRow) :
  forall id, wrap64 id = id ->
  snd (renumberDirtyRows autoincrement rows id)
  = wrap64 (id + Z.of_nat (length rows) * autoincrement)
  /\ forall k row,
       fst (renumberDirtyRows autoincrement rows id) !! k = Some row ->
       evI (dEvent row) = wrap64 (id + Z.of_nat k * autoincrement).
Proof.
  induction rows as [|r rest IH]; intros id Hid.
  - split; [simpl; by rewrite Z.mul_0_l, Z.add_0_r|]. intros k row Hk.
    by destruct k.
  - cbn [renumberDirtyRows].
    destruct (IH (wrap64 (id + autoincrement)) (wrap64_wrap64 _))
      as [Hsnd Hfst].
    destruct (renumberDirtyRows autoincrement rest
                (wrap64 (id + autoincrement))) as [rest' id'].
    cbn [fst snd] in *. split.
    + rewrite Hsnd. cbn [length]. rewrite Nat2Z.inj_succ, wrap64_step.
      f_equal. lia.
    + intros [|k] row Hk.
      * cbn in Hk. injection Hk as <-. simpl. by rewrite Z.add_0_r.
      * cbn in Hk. rewrite (Hfst k row Hk), Nat2Z.inj_succ, wrap64_step.
        f_equal. lia.
Qed.

(* What the INSERT branch writes: the "l" list is numbered from L, the
   "d" list from where the "l" list stopped. *)
Lemma stampInsertedIDs_numbering (autoincrement L : Z)
      (q : option (list lazyQuery)) (logRows : list lazyLogRow)
      (dirtyRows : list lazyDirtyRow) :
  0 <= L < two64 ->
  exists logRows' dirtyRows',
    stampInsertedIDs autoincrement L
      (mkLazyEnvelope q (Some logRows) (Some dirtyRows))
    = mkLazyEnvelope q (Some logRows') (Some dirtyRows')
    /\ (forall k row, logRows' !! k = Some row ->
          lID row = wrap64 (L + Z.of_nat k * autoincrement))
    /\ (forall k row, dirtyRows' !! k = Some row ->
          evI (dEvent row)
          = wrap64 (L + (Z.of_nat (length logRows) + Z.of_nat k)
                        * autoincrement)).
Proof.
  intros HL.
  assert (wrap64 L = L) as HwL by (unfold wrap64; by apply Z.mod_small).
  unfold stampInsertedIDs. cbn [envL envD envQ].
  destruct (renumberLogRows_ids autoincrement logRows L HwL) as [Hls Hlf].
  destruct (renumberLogRows autoincrement logRows L) as [l' id1].
  cbn [fst snd] in *.
  assert (wrap64 id1 = id1) as Hid1 by (rewrite Hls; apply wrap64_wrap64).
  destruct (renumberDirtyRows_ids autoincrement dirtyRows id1 Hid1)
    as [Hds Hdf].
  destruct (renumberDirtyRows autoincrement dirtyRows id1) as [d' id2].
  cbn [fst snd] in *.
  exists l', d'. split; [done|]. split; [done|].
  intros k row Hk. rewrite (Hdf k row Hk), Hls.
  unfold wrap64. rewrite Z.add_mod_idemp_l by (unfold two64; lia).
  f_equal. lia.
Qed.

(** C2 (as the code behaves): replaying the envelope of one lazily
    inserted row with LastInsertId 10 and autoincrement 1 writes id 10
    into the record of the "l" list but id 11 into the record of the "d"
    list: the running id is not taken back to LastInsertId between the
    two lists. *)
Theorem handleQueries_dirty_ids_continue :
  exists env' db' logged,
    handleQueries (H := tenDB) oneInsertEnvelope 0%nat
    = Returned (Some [10], env', db', logged,
                [("user_changed", mkDirtyEvent "orm.User" 11 "i")])
    /\ map lID <$> envL env' = Some [10]
    /\ map (fun row => evI (dEvent row)) <$> envD env' = Some [11].
Proof.
  eexists _, _, _. split; [vm_compute; reflexivity|].
  split; vm_compute; reflexivity.
Qed.

(* --------------------------------------------------------------------- *)
(* The search indexer loop                                                *)
(* --------------------------------------------------------------------- *)

Section IndexerFacts.
Context {R : Type} `{searchOps R}.
Variable indexDefinition : RedisSearchIndex R.
Variables redisPool idRedisKey : string.
Variable indexID : Z.

Lemma indexerTurn_Continue (id : Z) (r : R) (nextID : Z) (r' : R) :
  indexerTurn indexDefinition redisPool idRedisKey indexID id r
  = Continue nextID r' ->
  id < nextID
  /\ exists indexer r1,
       Indexer indexDefinition = Some indexer
       /\ indexer id r = (r1, (nextID, true)).
Proof.
  unfold indexerTurn.
  destruct (Indexer indexDefinition) as [indexer|]; [|done].
  destruct (indexer id r) as [r1 [newID hasNext]] eqn:Hix.
  destruct hasNext; cbn [negb]; [|done].
  destruct (Z.leb_spec newID id); [done|].
  intros [= <- <-]. split; [done|]. by exists indexer, r1.
Qed.

Lemma indexerTurn_loop_detected (id : Z) (r : R)
      (indexer : Z -> R -> R * (Z * bool)) (r1 : R) (nextID : Z) :
  Indexer indexDefinition = Some indexer ->
  indexer id r = (r1, (nextID, true)) ->
  nextID <= id ->
  exists r2,
    indexerTurn indexDefinition redisPool idRedisKey indexID id r
    = Panic r2 (loopDetected (Name indexDefinition) redisPool).
Proof.
  intros Hsome Hix Hle. unfold indexerTurn. rewrite Hsome, Hix.
  cbn [negb]. destruct (Z.leb_spec nextID id); [|lia]. by eexists.
Qed.

Lemma indexerTurn_no_more (id : Z) (r : R)
      (indexer : Z -> R -> R * (Z * bool)) (r1 : R) (nextID : Z) :
  Indexer indexDefinition = Some indexer ->
  indexer id r = (r1, (nextID, false)) ->
  exists r2,
    indexerTurn indexDefinition redisPool idRedisKey indexID id r = Break r2.
Proof.
  intros Hsome Hix. unfold indexerTurn. rewrite Hsome, Hix.
  cbn [negb]. by eexists.
Qed.

Lemma indexerLoop_fuel_enough (m : nat) :
  indexerInRange indexDefinition ->
  forall (id : Z) (r : R),
    0 <= id < two64 ->
    (Z.to_nat (two64 - id) <= m)%nat ->
    indexerLoop (S m) indexDefinition redisPool idRedisKey indexID id r
    <> OutOfFuel.
Proof.
  intros Hrange. induction m as [|m IH]; intros id r Hid Hm.
  - lia.
  - cbn [indexerLoop].
    destruct (indexerTurn indexDefinition redisPool idRedisKey indexID id r)
      as [nextID r1|r1|r1 p] eqn:Hturn; [|done|done].
    apply indexerTurn_Continue in Hturn as (Hlt & indexer & r0 & Hsome & Hix).
    pose proof (Hrange indexer id r Hsome Hid) as Hnext.
    rewrite Hix in Hnext. cbn [fst snd] in Hnext.
    apply IH; lia.
Qed.

(** C8 (amended): whenever the indexer reports more work and returns a
    next cursor nextID <= id, the consumer panics with the loop-detected
    error; when it reports no more work the loop ends normally whatever
    cursor it returned. On every turn that continues the loop the cursor
    strictly increases, so for every indexer whose cursors are uint64
    values the loop ends (it finishes or panics) after finitely many
    turns. *)
Theorem indexer_loop_detected (id : Z) (r : R) :
  indexerInRange indexDefinition ->
  0 <= id < two64 ->
  (forall indexer r1 nextID,
     Indexer indexDefinition = Some indexer ->
     indexer id r = (r1, (nextID, true)) ->
     nextID <= id ->
     exists r2, forall fuel,
       indexerLoop (S fuel) indexDefinition redisPool idRedisKey indexID id r
       = Failed r2 (loopDetected (Name indexDefinition) redisPool))
  /\ (forall indexer r1 nextID,
        Indexer indexDefinition = Some indexer ->
        indexer id r = (r1, (nextID, false)) ->
        exists r2, forall fuel,
          indexerLoop (S fuel) indexDefinition redisPool idRedisKey indexID
                      id r
          = Finished r2)
  /\ (forall nextID r',
        indexerTurn indexDefinition redisPool idRedisKey indexID id r
        = Continue nextID r' ->
        id < nextID)
  /\ exists fuel,
       indexerLoop fuel indexDefinition redisPool idRedisKey indexID id r
       <> OutOfFuel.
Proof.
  intros Hrange Hid. repeat split.
  - intros indexer r1 nextID Hsome Hix Hle.
    destruct (indexerTurn_loop_detected id r indexer r1 nextID Hsome Hix Hle)
      as [r2 Hturn].
    exists r2. intros fuel. cbn [indexerLoop]. by rewrite Hturn.
  - intros indexer r1 nextID Hsome Hix.
    destruct (indexerTurn_no_more id r indexer r1 nextID Hsome Hix)
      as [r2 Hturn].
    exists r2. intros fuel. cbn [indexerLoop]. by rewrite Hturn.
  - intros nextID r' Hturn. by apply indexerTurn_Continue in Hturn as [? _].
  - exists (S (Z.to_nat (two64 - id))).
    by apply indexerLoop_fuel_enough.
Qed.

End IndexerFacts.

Lemma stuckIndex_in_range : indexerInRange stuckIndex.
Proof.
  intros indexer id r [= <-] Hid. exact Hid.
Qed.

Lemma indexer_loop_detected_witness :
  exists r2, forall fuel,
    indexerLoop (H := recordingStore) (S fuel) stuckIndex "default"
                "_orm_force_indexusers2" 2 7 []
    = Failed r2 (loopDetected "users" "default").
Proof.
  destruct (indexer_loop_detected (H := recordingStore) stuckIndex "default"
              "_orm_force_indexusers2" 2 7 [] stuckIndex_in_range)
    as (Hpanic & _).
  - unfold two64. lia.
  - apply (Hpanic (fun id r => (r, (id, true))) [] 7).
    + reflexivity.
    + reflexivity.
    + lia.
Defined.

Lemma indexer_loop_detected_counterexample :
  (exists indexer,
     Indexer idleIndex = Some indexer /\ indexer 0 [] = ([], (0, false)))
  /\ 0 <= 0
  /\ handleRedisIndexerEvent (H := recordingStore) 1 idleIndex "default"
                             (mkRedisIndexerEvent "users" 2) []
     = Finished ["DEL _orm_force_indexusers2"].
Proof.
  split; [by eexists|]. split; [lia|]. vm_compute. reflexivity.
Qed.

(* --------------------------------------------------------------------- *)
(* The number bind setter                                                 *)
(* --------------------------------------------------------------------- *)

Lemma ParseUint_minus (rest : string) :
  ParseUint (String "-"%char rest) = (0, Some ErrSyntax).
Proof. reflexivity. Qed.

Lemma string_app_assoc (a b c : string) : (a +:+ b) +:+ c = a +:+ b +:+ c.
Proof.
  induction a as [|x a IH]; [done|].
  change (String x ((a +:+ b) +:+ c) = String x (a +:+ b +:+ c)).
  by rewrite IH.
Qed.

Lemma kindMax_lt_two64 (k : intKind) : kindMax k < two64.
Proof. destruct k; vm_compute; reflexivity. Qed.

Lemma int64OfFloat_range (f : spec_float) :
  minInt64 <= int64OfFloat f <= maxInt64.
Proof.
  assert (minInt64 <= minInt64 <= maxInt64) as Hmin
    by (vm_compute; split; discriminate).
  assert (minInt64 <= 0 <= maxInt64) as Hzero
    by (vm_compute; split; discriminate).
  unfold int64OfFloat. destruct f as [| | |s m e]; try done.
  set (v := if s then _ else _).
  destruct ((minInt64 <=? v) && (v <=? maxInt64)) eqn:Hb; [|done].
  apply andb_true_iff in Hb as [H1 H2].
  apply Z.leb_le in H1. apply Z.leb_le in H2. lia.
Qed.

(* A negative float of magnitude 1 or more truncates to a negative
   int64. *)
Lemma int64OfFloat_negative (m : positive) (e : Z) :
  0 <= e \/ 2 ^ (- e) <= Z.pos m ->
  int64OfFloat (S754_finite true m e) < 0.
Proof.
  intros Hmag. unfold int64OfFloat.
  set (magnitude := if 0 <=? e then _ else _).
  assert (1 <= magnitude) as H1.
  { unfold magnitude. destruct (Z.leb_spec 0 e) as [He|He].
    - pose proof (Z.pow_pos_nonneg 2 e ltac:(lia) He). nia.
    - destruct Hmag as [?|Hm]; [lia|].
      assert (0 < 2 ^ (- e)) as Hp by (apply Z.pow_pos_nonneg; lia).
      apply Z.div_le_lower_bound; lia. }
  destruct ((minInt64 <=? - magnitude) && (- magnitude <=? maxInt64));
    [lia|]. vm_compute. reflexivity.
Qed.

Section NumberSetterFacts.
Variable formatFloatV : floatKind -> spec_float -> string.
Variable columnName : string.
Variables min max : Z.

Lemma unsigned_setter_negative (nullable : bool) (k : intKind) (n : Z) :
  isUnsignedKind k = false ->
  n < 0 ->
  createNumberFieldBindSetter formatFloatV columnName true nullable min max
                              (AInt k n)
  = (ANil, Some (BindError columnName
                   ("negative number " +:+ FormatInt n +:+ " not allowed"))).
Proof.
  intros Hk Hn. unfold createNumberFieldBindSetter, numberSwitch.
  rewrite Hk. cbn [negb]. destruct (Z.ltb_spec n 0); [done|lia].
Qed.

Lemma unsigned_setter_bad_string (nullable : bool) (s : string) :
  snd (ParseUint s) <> None ->
  createNumberFieldBindSetter formatFloatV columnName true nullable min max
                              (AString s)
  = (ANil, Some (BindError columnName ("invalid number " +:+ s))).
Proof.
  intros Herr. unfold createNumberFieldBindSetter, numberSwitch.
  destruct (ParseUint s) as [n [e|]]; [done|]. by simpl in Herr.
Qed.

Lemma unsigned_setter_above_max (nullable : bool) (v : any)
      (k : intKind) (n : Z) :
  integerOperand v = Some (k, n) ->
  fitsKind k n ->
  0 <= max ->
  max < n ->
  createNumberFieldBindSetter formatFloatV columnName true nullable min max v
  = (ANil, Some (BindError columnName
                   ("value " +:+ sprintD formatFloatV v
                    +:+ " exceeded max allowed value"))).
Proof.
  intros Hv [Hlo Hhi] Hmax Hn.
  pose proof (kindMax_lt_two64 k) as Hk64.
  assert (uint64_of_int64 n = n) as Hu
    by (unfold uint64_of_int64; apply Z.mod_small; lia).
  destruct v as [| | | | |k' n'|k' [i|]| | | | |]; try done;
    simpl in Hv; injection Hv as <- <-;
    unfold createNumberFieldBindSetter, numberSwitch;
    destruct (isUnsignedKind k'); cbn [negb].
  all: repeat match goal with
         | |- context [?a <? ?b] => destruct (Z.ltb_spec a b); try lia
         end; try done.
  all: rewrite ?Hu in *; try lia.
Qed.

Lemma unsigned_setter_string_above_max (nullable : bool) (s : string)
      (n : Z) :
  ParseUint s = (n, None) ->
  max < n ->
  createNumberFieldBindSetter formatFloatV columnName true nullable min max
                              (AString s)
  = (ANil, Some (BindError columnName
                   ("value %!d(string=" +:+ s
                    +:+ ") exceeded max allowed value"))).
Proof.
  intros Hp Hn. unfold createNumberFieldBindSetter, numberSwitch.
  rewrite Hp. cbn [negb Z.ltb Z.compare].
  destruct (Z.ltb_spec max n); [|lia].
  cbn [sprintD]. by rewrite !string_app_assoc.
Qed.

Lemma unsigned_setter_negative_pointer (nullable : bool) (k : intKind)
      (p : ptr Z) :
  isUnsignedKind k = false ->
  deref p < 0 ->
  createNumberFieldBindSetter formatFloatV columnName true nullable min max
                              (AIntPtr k (Some p))
  = (ANil, Some (BindError columnName
                   ("negative number " +:+ FormatUint (addr p)
                    +:+ " not allowed"))).
Proof.
  intros Hk Hn. unfold createNumberFieldBindSetter, numberSwitch.
  rewrite Hk. cbn [negb]. destruct (Z.ltb_spec (deref p) 0); [done|lia].
Qed.

Lemma unsigned_setter_negative_float (nullable : bool) (v : any)
      (k : floatKind) (f : spec_float) :
  floatOperand v = Some (k, f) ->
  int64OfFloat f < 0 ->
  createNumberFieldBindSetter formatFloatV columnName true nullable min max v
  = (ANil, Some (BindError columnName
                   ("negative number " +:+ sprintD formatFloatV v
                    +:+ " not allowed"))).
Proof.
  intros Hv Hn.
  destruct v as [| | | | | | |k' f'|k' [i|]| | |]; try done;
    simpl in Hv; injection Hv as <- <-;
    unfold createNumberFieldBindSetter, numberSwitch; cbn [negb].
  all: repeat match goal with
         | |- context [?a <? ?b] => destruct (Z.ltb_spec a b); try lia
         end; done.
Qed.

Lemma unsigned_setter_float_above_max (nullable : bool) (v : any)
      (k : floatKind) (f : spec_float) :
  floatOperand v = Some (k, f) ->
  0 <= max ->
  max < int64OfFloat f ->
  createNumberFieldBindSetter formatFloatV columnName true nullable min max v
  = (ANil, Some (BindError columnName
                   ("value " +:+ sprintD formatFloatV v
                    +:+ " exceeded max allowed value"))).
Proof.
  intros Hv Hmax Hn.
  pose proof (int64OfFloat_range f) as Hr.
  assert (uint64_of_int64 (int64OfFloat f) = int64OfFloat f) as Hu.
  { unfold uint64_of_int64. apply Z.mod_small.
    unfold maxInt64, two63, two64 in *. lia. }
  destruct v as [| | | | | | |k' f'|k' [i|]| | |]; try done;
    simpl in Hv; injection Hv as <- <-;
    unfold createNumberFieldBindSetter, numberSwitch; cbn [negb].
  all: repeat match goal with
         | |- context [?a <? ?b] => destruct (Z.ltb_spec a b); try lia
         end; try done.
  all: rewrite ?Hu in *; try lia.
Qed.

(** C6 (amended): for every unsigned numeric column bind setter: a
    negative integer passed by value fails with the BindError `negative
    number N not allowed`, N being the input; a negative integer behind a
    non-nil pointer and a float at or below -1, by value or behind a
    non-nil pointer, fail with the same BindError with the %d rendering of
    the input in the place of N (the address for a pointer, the bad-verb
    report for a float); a string that is not an unsigned decimal (every
    string with a leading minus sign) fails with `invalid number S`;
    every integer input above the column's max, by value or behind a
    non-nil pointer, every decimal string above it and every float whose
    integer part is above it fail with a BindError `value ... exceeded
    max allowed value`; and nil or a nil typed pointer, when nullable is
    false, fails with `nil is not allowed`. *)
Theorem unsigned_number_setter_rejects :
  (forall nullable k n,
     isUnsignedKind k = false -> n < 0 ->
     createNumberFieldBindSetter formatFloatV columnName true nullable
                                 min max (AInt k n)
     = (ANil, Some (BindError columnName
                      ("negative number " +:+ FormatInt n
                       +:+ " not allowed"))))
  /\ (forall nullable k p,
        isUnsignedKind k = false -> deref p < 0 ->
        createNumberFieldBindSetter formatFloatV columnName true nullable
                                    min max (AIntPtr k (Some p))
        = (ANil, Some (BindError columnName
                         ("negative number " +:+ FormatUint (addr p)
                          +:+ " not allowed"))))
  /\ (forall nullable v k f,
        floatOperand v = Some (k, f) -> int64OfFloat f < 0 ->
        createNumberFieldBindSetter formatFloatV columnName true nullable
                                    min max v
        = (ANil, Some (BindError columnName
                         ("negative number " +:+ sprintD formatFloatV v
                          +:+ " not allowed"))))
  /\ (forall m e,
        0 <= e \/ 2 ^ (- e) <= Z.pos m ->
        int64OfFloat (S754_finite true m e) < 0)
  /\ (forall nullable s,
        snd (ParseUint s) <> None ->
        createNumberFieldBindSetter formatFloatV columnName true nullable
                                    min max (AString s)
        = (ANil, Some (BindError columnName ("invalid number " +:+ s))))
  /\ (forall nullable rest,
        createNumberFieldBindSetter formatFloatV columnName true nullable
                                    min max (AString (String "-"%char rest))
        = (ANil, Some (BindError columnName
                         ("invalid number " +:+ String "-"%char rest))))
  /\ (forall nullable v k n,
        integerOperand v = Some (k, n) -> fitsKind k n ->
        0 <= max -> max < n ->
        createNumberFieldBindSetter formatFloatV columnName true nullable
                                    min max v
        = (ANil, Some (BindError columnName
                         ("value " +:+ sprintD formatFloatV v
                          +:+ " exceeded max allowed value"))))
  /\ (forall nullable s n,
        ParseUint s = (n, None) -> max < n ->
        createNumberFieldBindSetter formatFloatV columnName true nullable
                                    min max (AString s)
        = (ANil, Some (BindError columnName
                         ("value %!d(string=" +:+ s
                          +:+ ") exceeded max allowed value"))))
  /\ (forall nullable v k f,
        floatOperand v = Some (k, f) -> 0 <= max -> max < int64OfFloat f ->
        createNumberFieldBindSetter formatFloatV columnName true nullable
                                    min max v
        = (ANil, Some (BindError columnName
                         ("value " +:+ sprintD formatFloatV v
                          +:+ " exceeded max allowed value"))))
  /\ (forall v,
        v = ANil \/ (exists k, v = AIntPtr k None)
        \/ (exists k, v = AFloatPtr k None) ->
        createNumberFieldBindSetter formatFloatV columnName true false
                                    min max v
        = (ANil, Some (BindError columnName "nil is not allowed"))).
Proof.
  split; [intros; by apply unsigned_setter_negative|].
  split; [intros; by apply unsigned_setter_negative_pointer|].
  split; [intros; by eapply unsigned_setter_negative_float|].
  split; [apply int64OfFloat_negative|].
  split; [intros; by apply unsigned_setter_bad_string|].
  split; [intros; by apply unsigned_setter_bad_string|].
  split; [intros; by eapply unsigned_setter_above_max|].
  split; [intros; by eapply unsigned_setter_string_above_max|].
  split; [intros; by eapply unsigned_setter_float_above_max|].
  intros v [->|[[k ->]|[k ->]]]; reflexivity.
Qed.

End NumberSetterFacts.

Lemma unsigned_number_setter_rejects_witness :
  createNumberFieldBindSetter sampleFloatV "Age" true false 0 255
                              (AInt Int8 (-5))
  = (ANil, Some (BindError "Age" "negative number -5 not allowed"))
  /\ createNumberFieldBindSetter sampleFloatV "Age" true false 0 255
                                 (AIntPtr Int8 (Some (mkPtr 4096 (-5))))
     = (ANil, Some (BindError "Age" "negative number 4096 not allowed"))
  /\ createNumberFieldBindSetter sampleFloatV "Age" true false 0 255
                                 (AFloat Float64 (S754_finite true 3 (-1)))
     = (ANil, Some (BindError "Age"
                      "negative number %!d(float64=-1.5) not allowed"))
  /\ createNumberFieldBindSetter sampleFloatV "Age" true false 0 255
                                 (AInt Uint16 300)
     = (ANil, Some (BindError "Age" "value 300 exceeded max allowed value"))
  /\ createNumberFieldBindSetter sampleFloatV "Age" true false 0 255
                                 (AFloat Float64 (S754_finite false 75 2))
     = (ANil, Some (BindError "Age"
                      "value %!d(float64=300) exceeded max allowed value")).
Proof.
  destruct (unsigned_number_setter_rejects sampleFloatV "Age" 0 255)
    as (Hneg & Hptr & Hfloat & Hmag & _ & _ & Hmax & _ & Hfmax & _).
  split; [|split; [|split; [|split]]].
  - apply (Hneg false Int8 (-5)); [reflexivity|lia].
  - apply (Hptr false Int8 (mkPtr 4096 (-5))); [reflexivity|simpl; lia].
  - apply (Hfloat false (AFloat Float64 (S754_finite true 3 (-1))) Float64
                  (S754_finite true 3 (-1))); [reflexivity|].
    apply Hmag. right. simpl. lia.
  - apply (Hmax false (AInt Uint16 300) Uint16 300);
      [reflexivity|unfold fitsKind; simpl; lia|lia|lia].
  - apply (Hfmax false (AFloat Float64 (S754_finite false 75 2)) Float64
                 (S754_finite false 75 2)); [reflexivity|lia|].
    vm_compute. reflexivity.
Defined.

Lemma unsigned_number_setter_counterexample :
  createNumberFieldBindSetter (fun _ _ => "") "Age" true false 0 255
                              (AString "-5")
  = (ANil, Some (BindError "Age" "invalid number -5"))
  /\ "invalid number -5" <> "negative number -5 not allowed"
  /\ createNumberFieldBindSetter (fun _ _ => "") "Age" true false 0 255
                                 (AFloat Float64 (S754_finite true 1 (-1)))
     = (AInt Uint64 0, None).
Proof. repeat split; try reflexivity. discriminate. Qed.

(* --------------------------------------------------------------------- *)
(* EditEntityField                                                        *)
(* --------------------------------------------------------------------- *)

Lemma trackedEntry_set (tracked : trackedMap) (i id : Z) (e : EntityFlush) :
  trackedEntry (setTrackedEntry tracked i id e) i id = Some e.
Proof.
  unfold trackedEntry, setTrackedEntry.
  rewrite lookup_insert_eq. simpl. by rewrite lookup_insert_eq.
Qed.

Lemma bindIsNil_insert_ne (bind : Bind) (c c' : string) (v : any) :
  c' <> c -> bindIsNil (<[c' := v]> bind) c = bindIsNil bind c.
Proof. intros Hne. unfold bindIsNil. by rewrite lookup_insert_ne. Qed.












(* --------------------------------------------------------------------- *)
(* Formatting a time and parsing it back                                  *)
(* --------------------------------------------------------------------- *)

Lemma digitChar_spec (d : Z) :
  0 <= d <= 9 ->
  isDigit (digitChar d) = true /\ digitValue (digitChar d) = d
  /\ digitChar d <> "-"%char /\ digitChar d <> "+"%char
  /\ digitChar d <> " "%char.
Proof.
  intros Hd.
  assert (d = 0 \/ d = 1 \/ d = 2 \/ d = 3 \/ d = 4 \/ d = 5 \/ d = 6
          \/ d = 7 \/ d = 8 \/ d = 9) as Hcases by lia.
  repeat destruct Hcases as [->|Hcases]; try subst d;
    repeat split; try reflexivity; discriminate.
Qed.

Lemma append_String (c : ascii) (s r : string) :
  String c s +:+ r = String c (s +:+ r).
Proof. reflexivity. Qed.

Lemma append_empty (r : string) : "" +:+ r = r.
Proof. reflexivity. Qed.

Lemma appendInt_2 (n : Z) :
  0 <= n <= 99 ->
  appendInt n 2
  = String (digitChar (n / 10)) (String (digitChar (n mod 10)) "").
Proof.
  intros Hn. unfold appendInt. rewrite Z.abs_eq by lia.
  destruct (Z.ltb_spec n 0); [lia|].
  destruct (Z.ltb_spec n 100); [|lia]. reflexivity.
Qed.

Lemma appendInt_4 (n : Z) :
  0 <= n <= 9999 ->
  appendInt n 4
  = String (digitChar (n / 1000))
      (String (digitChar (n / 100 mod 10))
         (String (digitChar (n / 10 mod 10))
            (String (digitChar (n mod 10)) ""))).
Proof.
  intros Hn. unfold appendInt. rewrite Z.abs_eq by lia.
  destruct (Z.ltb_spec n 0); [lia|].
  destruct (Z.ltb_spec n 10000); [|lia]. reflexivity.
Qed.

Lemma getnum_digits (a b : Z) (rest : string) (fixed : bool) :
  0 <= a <= 9 -> 0 <= b <= 9 ->
  getnum (String (digitChar a) (String (digitChar b) rest)) fixed
  = Some (a * 10 + b, rest).
Proof.
  intros Ha Hb.
  destruct (digitChar_spec a Ha) as (Ha1 & Ha2 & _).
  destruct (digitChar_spec b Hb) as (Hb1 & Hb2 & _).
  unfold getnum. by rewrite Ha1, Hb1, Ha2, Hb2.
Qed.

Lemma getnum_appendInt (n : Z) (rest : string) (fixed : bool) :
  0 <= n <= 99 ->
  getnum (appendInt n 2 +:+ rest) fixed = Some (n, rest).
Proof.
  intros Hn. rewrite appendInt_2, !append_String, append_empty by done.
  rewrite getnum_digits.
  - do 2 f_equal. pose proof (Z.div_mod n 10). lia.
  - split; [apply Z.div_pos; lia|]. apply Z.lt_succ_r, Z.div_lt_upper_bound; lia.
  - pose proof (Z.mod_pos_bound n 10). lia.
Qed.

Lemma leadingInt_digit (d x : Z) (rest : string) :
  0 <= d <= 9 -> 0 <= x <= 1000 ->
  leadingInt (String (digitChar d) rest) x = leadingInt rest (x * 10 + d).
Proof.
  intros Hd Hx. destruct (digitChar_spec d Hd) as (H1 & H2 & _).
  cbn [leadingInt]. rewrite H1, H2.
  destruct (Z.ltb_spec (two63 / 10) x) as [Hbig|_].
  { exfalso. assert (two63 / 10 = 922337203685477580) as E by reflexivity.
    lia. }
  destruct (Z.ltb_spec two63 (x * 10 + d)) as [Hbig|_]; [|done].
  exfalso. unfold two63 in Hbig. lia.
Qed.

Lemma parseLongYear_appendInt (y : Z) (rest : string) :
  0 <= y <= 9999 ->
  parseLongYear (appendInt y 4 +:+ rest) = Some (y, rest).
Proof.
  intros Hy. rewrite appendInt_4, !append_String, append_empty by done.
  assert (0 <= y / 1000 <= 9) as H3
    by (split; [apply Z.div_pos; lia|];
        apply Z.lt_succ_r, Z.div_lt_upper_bound; lia).
  assert (0 <= y / 100 mod 10 <= 9) as H2
    by (pose proof (Z.mod_pos_bound (y / 100) 10); lia).
  assert (0 <= y / 10 mod 10 <= 9) as H1
    by (pose proof (Z.mod_pos_bound (y / 10) 10); lia).
  assert (0 <= y mod 10 <= 9) as H0
    by (pose proof (Z.mod_pos_bound y 10); lia).
  destruct (digitChar_spec _ H3) as (Hd & _ & Hm & Hp & _).
  unfold parseLongYear. rewrite Hd. unfold atoi.
  rewrite (bool_decide_eq_false_2 _ Hm), (bool_decide_eq_false_2 _ Hp).
  rewrite !leadingInt_digit by lia. cbn [leadingInt].
  do 2 f_equal.
  pose proof (Z.div_mod y 10). pose proof (Z.div_mod (y / 10) 10).
  pose proof (Z.div_mod (y / 100) 10).
  rewrite (Z.div_div y 10 10) in * by lia.
  rewrite (Z.div_div y 100 10) in * by lia.
  change (10 * 10) with 100 in *. change (100 * 10) with 1000 in *.
  assert (y / 1000 mod 10 = y / 1000) as E by (apply Z.mod_small; lia).
  lia.
Qed.

Lemma append_empty_r (s : string) : s +:+ "" = s.
Proof.
  induction s as [|c s IH]; [done|]. rewrite append_String. by rewrite IH.
Qed.

Lemma skipChar_literal (c : ascii) (rest : string) :
  skipChar c (String c "" +:+ rest) = Some rest.
Proof.
  rewrite append_String, append_empty. unfold skipChar.
  by rewrite bool_decide_eq_true_2.
Qed.

Lemma skipSpace_before_number (n : Z) (rest : string) :
  0 <= n <= 99 ->
  skipSpace (" " +:+ appendInt n 2 +:+ rest) = Some (appendInt n 2 +:+ rest).
Proof.
  intros Hn. rewrite append_String, append_empty.
  rewrite appendInt_2, !append_String, append_empty by done.
  assert (0 <= n / 10 <= 9) as Hd
    by (split; [apply Z.div_pos; lia|];
        apply Z.lt_succ_r, Z.div_lt_upper_bound; lia).
  destruct (digitChar_spec _ Hd) as (_ & _ & _ & _ & Hsp).
  cbn [skipSpace cutspace]. rewrite bool_decide_eq_true_2 by done.
  by rewrite (bool_decide_eq_false_2 _ Hsp).
Qed.

Lemma inRange_true (lo x hi : Z) : lo <= x <= hi -> inRange lo x hi = true.
Proof.
  intros [H1 H2]. unfold inRange.
  destruct (Z.leb_spec lo x); [|lia]. destruct (Z.leb_spec x hi); [done|lia].
Qed.

Lemma daysIn_le_31 (month year : Z) : daysIn month year <= 31.
Proof.
  unfold daysIn.
  repeat match goal with |- context [if ?b then _ else _] => destruct b end;
    lia.
Qed.

Lemma parseClock_Format (h m s : Z) :
  0 <= h <= 23 -> 0 <= m <= 59 -> 0 <= s <= 59 ->
  parseClock (" " +:+ appendInt h 2 +:+ ":" +:+ appendInt m 2 +:+ ":"
              +:+ appendInt s 2)
  = Some (h, m, s, 0, "").
Proof.
  intros Hh Hm Hs. unfold parseClock.
  rewrite skipSpace_before_number by lia. cbn [mbind option_bind].
  rewrite getnum_appendInt by lia. cbn [mbind option_bind].
  rewrite inRange_true by lia. cbn [negb]. rewrite skipChar_literal.
  cbn [mbind option_bind].
  rewrite getnum_appendInt by lia. cbn [mbind option_bind].
  rewrite inRange_true by lia. cbn [negb]. rewrite skipChar_literal.
  cbn [mbind option_bind].
  rewrite <- (append_empty_r (appendInt s 2)).
  rewrite getnum_appendInt by lia. cbn [mbind option_bind].
  rewrite inRange_true by lia. reflexivity.
Qed.

(* Formatting a time that fits the layout and parsing the string back
   yields the time cut down to the layout. *)
Lemma parseInUTC_Format (layout : timeLayout) (t : Time) :
  validTime t ->
  parseInUTC layout (Format layout t) = Some (truncateTo layout t).
Proof.
  destruct t as [y mo d h mi s ns loc].
  unfold validTime. cbn [tYear tMonth tDay tHour tMinute tSecond].
  intros (Hy & Hmo & Hd & Hh & Hmi & Hs).
  pose proof (daysIn_le_31 mo y) as H31.
  unfold parseInUTC, Format.
  cbn [tYear tMonth tDay tHour tMinute tSecond truncateTo].
  destruct layout.
  - rewrite parseLongYear_appendInt by lia. cbn [mbind option_bind].
    rewrite skipChar_literal. cbn [mbind option_bind].
    rewrite getnum_appendInt by lia. cbn [mbind option_bind].
    rewrite inRange_true by lia. cbn [negb]. rewrite skipChar_literal.
    cbn [mbind option_bind].
    rewrite <- (append_empty_r (appendInt d 2)).
    rewrite getnum_appendInt by lia. cbn [mbind option_bind].
    rewrite bool_decide_eq_true_2 by done. cbn [negb].
    by rewrite inRange_true by lia.
  - rewrite !string_app_assoc.
    rewrite parseLongYear_appendInt by lia. cbn [mbind option_bind].
    rewrite skipChar_literal. cbn [mbind option_bind].
    rewrite getnum_appendInt by lia. cbn [mbind option_bind].
    rewrite inRange_true by lia. cbn [negb]. rewrite skipChar_literal.
    cbn [mbind option_bind].
    rewrite getnum_appendInt by lia. cbn [mbind option_bind].
    rewrite parseClock_Format by lia. cbn [mbind option_bind].
    rewrite bool_decide_eq_true_2 by done. cbn [negb].
    by rewrite inRange_true by lia.
Qed.

Lemma isDigit_value (c : ascii) :
  isDigit c = true ->
  0 <= digitValue c <= 9 /\ c <> "-"%char /\ c <> "+"%char.
Proof.
  intros Hc. split.
  - unfold isDigit in Hc. apply andb_true_iff in Hc as [H1 H2].
    apply Nat.leb_le in H1. apply Nat.leb_le in H2.
    unfold digitValue. lia.
  - split; intros ->; discriminate.
Qed.

Lemma getnum_range (s : string) (fixed : bool) (n : Z) (rest : string) :
  getnum s fixed = Some (n, rest) -> 0 <= n <= 99.
Proof.
  unfold getnum. destruct s as [|c0 [|c1 rest1]]; [done| |].
  - destruct (isDigit c0) eqn:H0; [|done].
    destruct (isDigit_value c0 H0) as [Hv _].
    destruct fixed; [done|]. intros [= <- _]. lia.
  - destruct (isDigit c0) eqn:H0; [|done].
    destruct (isDigit_value c0 H0) as [Hv0 _].
    destruct (isDigit c1) eqn:H1.
    + destruct (isDigit_value c1 H1) as [Hv1 _]. intros [= <- _]. lia.
    + destruct fixed; [done|]. intros [= <- _]. lia.
Qed.

Lemma leadingInt_step (c : ascii) (rest : string) (x : Z) :
  isDigit c = true -> 0 <= x <= 1000 ->
  leadingInt (String c rest) x = leadingInt rest (x * 10 + digitValue c).
Proof.
  intros Hc Hx. destruct (isDigit_value c Hc) as [Hv _].
  cbn [leadingInt]. rewrite Hc.
  assert (two63 / 10 = 922337203685477580) as E by reflexivity.
  destruct (Z.ltb_spec (two63 / 10) x); [lia|].
  destruct (Z.ltb_spec two63 (x * 10 + digitValue c)) as [Hbig|_]; [|done].
  unfold two63 in Hbig. lia.
Qed.

Lemma parseLongYear_range (value : string) (y : Z) (rest : string) :
  parseLongYear value = Some (y, rest) -> 0 <= y <= 9999.
Proof.
  unfold parseLongYear.
  destruct value as [|c0 [|c1 [|c2 [|c3 tail]]]]; try done.
  destruct (isDigit c0) eqn:H0; [|done].
  destruct (isDigit_value c0 H0) as (Hv0 & Hm & Hp).
  unfold atoi.
  rewrite (bool_decide_eq_false_2 _ Hm), (bool_decide_eq_false_2 _ Hp).
  rewrite leadingInt_step by (done || lia).
  destruct (isDigit c1) eqn:H1; [|by cbn [leadingInt]; rewrite H1].
  destruct (isDigit_value c1 H1) as (Hv1 & _).
  rewrite leadingInt_step by (done || lia).
  destruct (isDigit c2) eqn:H2; [|by cbn [leadingInt]; rewrite H2].
  destruct (isDigit_value c2 H2) as (Hv2 & _).
  rewrite leadingInt_step by (done || lia).
  destruct (isDigit c3) eqn:H3; [|by cbn [leadingInt]; rewrite H3].
  destruct (isDigit_value c3 H3) as (Hv3 & _).
  rewrite leadingInt_step by (done || lia).
  cbn [leadingInt]. intros [= <- _]. lia.
Qed.

Lemma inRange_spec (lo x hi : Z) : inRange lo x hi = true -> lo <= x <= hi.
Proof.
  unfold inRange. intros H. apply andb_true_iff in H as [H1 H2].
  apply Z.leb_le in H1. apply Z.leb_le in H2. lia.
Qed.

Lemma parseClock_range (value : string) (h m s ns : Z) (rest : string) :
  parseClock value = Some (h, m, s, ns, rest) ->
  0 <= h <= 23 /\ 0 <= m <= 59 /\ 0 <= s <= 59.
Proof.
  unfold parseClock. intros Hp.
  destruct (skipSpace value) as [v1|]; [|done]. cbn [mbind option_bind] in Hp.
  destruct (getnum v1 false) as [[hour v2]|]; [|done].
  cbn [mbind option_bind] in Hp.
  destruct (inRange 0 hour 23) eqn:Hh; [|done]. cbn [negb] in Hp.
  destruct (skipChar ":" v2) as [v3|]; [|done]. cbn [mbind option_bind] in Hp.
  destruct (getnum v3 true) as [[minute v4]|]; [|done].
  cbn [mbind option_bind] in Hp.
  destruct (inRange 0 minute 59) eqn:Hm; [|done]. cbn [negb] in Hp.
  destruct (skipChar ":" v4) as [v5|]; [|done]. cbn [mbind option_bind] in Hp.
  destruct (getnum v5 true) as [[second v6]|]; [|done].
  cbn [mbind option_bind] in Hp.
  destruct (inRange 0 second 59) eqn:Hs; [|done]. cbn [negb] in Hp.
  destruct (parseFraction v6) as [[nsec v7]|]; [|done].
  cbn [mbind option_bind] in Hp. injection Hp as <- <- <- _ _.
  apply inRange_spec in Hh, Hm, Hs. done.
Qed.

(* Every time that parses in a layout is a calendar time of the years
   0..9999. *)
Lemma parseInUTC_valid (layout : timeLayout) (value : string) (t : Time) :
  parseInUTC layout value = Some t -> validTime t.
Proof.
  unfold parseInUTC. intros Hp.
  destruct (parseLongYear value) as [[year v1]|] eqn:Hy; [|done].
  cbn [mbind option_bind] in Hp. apply parseLongYear_range in Hy.
  destruct (skipChar "-" v1) as [v2|]; [|done]. cbn [mbind option_bind] in Hp.
  destruct (getnum v2 true) as [[month v3]|]; [|done].
  cbn [mbind option_bind] in Hp.
  destruct (inRange 1 month 12) eqn:Hm; [|done]. cbn [negb] in Hp.
  destruct (skipChar "-" v3) as [v4|]; [|done]. cbn [mbind option_bind] in Hp.
  destruct (getnum v4 true) as [[day v5]|]; [|done].
  cbn [mbind option_bind] in Hp.
  assert (exists h mi s ns v6,
            match layout with
            | LayoutDate => Some (0, 0, 0, 0, v5)
            | LayoutDateTime => parseClock v5
            end = Some (h, mi, s, ns, v6)
            /\ 0 <= h <= 23 /\ 0 <= mi <= 59 /\ 0 <= s <= 59
            /\ (if negb (bool_decide (v6 = "")) then None
                else if negb (inRange 1 day (daysIn month year)) then None
                     else Some (mkTime year month day h mi s ns UTC))
               = Some t) as (h & mi & s & ns & v6 & _ & Hh & Hmi & Hs & Hrest).
  { destruct layout.
    - exists 0, 0, 0, 0, v5. cbn [mbind option_bind] in Hp.
      repeat split; try lia; done.
    - destruct (parseClock v5) as [[[[[h mi] s] ns] v6]|] eqn:Hc; [|done].
      cbn [mbind option_bind] in Hp.
      exists h, mi, s, ns, v6. apply parseClock_range in Hc.
      destruct Hc as (? & ? & ?). repeat split; try lia; done. }
  destruct (bool_decide (v6 = "")); [|done]. cbn [negb] in Hrest.
  destruct (inRange 1 day (daysIn month year)) eqn:Hd; [|done].
  cbn [negb] in Hrest. injection Hrest as <-.
  apply inRange_spec in Hm, Hd. unfold validTime.
  cbn [tYear tMonth tDay tHour tMinute tSecond]. lia.
Qed.

(* --------------------------------------------------------------------- *)
(* The date bind setter and the time field setter                         *)
(* --------------------------------------------------------------------- *)

Section DateSetterFacts.
Variables columnName fieldName : string.
Variable layout : timeLayout.
Variable nullable : bool.

Lemma date_setter_accepts (v : any) (t : Time) :
  acceptedTime layout v = Some t ->
  createDateFieldBindSetter columnName layout nullable v
  = Returned (AString (Format layout t), None).
Proof.
  intros Hacc. destruct v as [|s| | | | | | | |t'|[p|]|]; try done;
    cbn [acceptedTime] in Hacc; cbn [createDateFieldBindSetter].
  - unfold ParseInLocation. by rewrite Hacc.
  - destruct (notNamedUTC t'); [done|]. by injection Hacc as ->.
  - destruct (notNamedUTC (deref p)); [done|]. by injection Hacc as ->.
Qed.

Lemma date_setter_rejects_other_names (t : Time) :
  locName (tLocation t) <> "UTC" ->
  createDateFieldBindSetter columnName layout nullable (ATime t)
  = Returned (ANil, Some (utcOnlyError columnName))
  /\ forall a,
       createDateFieldBindSetter columnName layout nullable
                                 (ATimePtr (Some (mkPtr a t)))
       = Returned (ANil, Some (utcOnlyError columnName)).
Proof.
  intros Hname. cbn [createDateFieldBindSetter deref].
  unfold notNamedUTC. cbn [locName UTC].
  rewrite (bool_decide_eq_false_2 _ Hname). by split.
Qed.

(** C7 (amended): for the Date/DateTime column type the bind setter
    accepts a time.Time and a non-nil *time.Time whose location is named
    UTC and a string that parses in the configured layout, and returns the
    time formatted in that layout; it rejects every time whose location
    has another name with a BindError and every string that does not
    parse. For every accepted value the round trip
    FieldSetter(BindSetter(v)) stores the formatted string parsed back as
    a UTC time, which for a calendar time of the years 0..9999 (every
    time an accepted string stands for is one) is the time cut down to
    what the layout holds. *)
Theorem date_setter_round_trip :
  (forall v t elem,
     acceptedTime layout v = Some t ->
     exists canonical,
       createDateFieldBindSetter columnName layout nullable v
       = Returned (canonical, None)
       /\ canonical = AString (Format layout t)
       /\ createTimeFieldSetter fieldName layout canonical elem
          = Returned (withTimeField fieldName
                        (fst (ParseInLocation layout (Format layout t)))
                        elem)
       /\ (validTime t ->
           fst (ParseInLocation layout (Format layout t))
           = truncateTo layout t))
  /\ (forall t,
        locName (tLocation t) <> "UTC" ->
        createDateFieldBindSetter columnName layout nullable (ATime t)
        = Returned (ANil, Some (utcOnlyError columnName))
        /\ forall a,
             createDateFieldBindSetter columnName layout nullable
                                       (ATimePtr (Some (mkPtr a t)))
             = Returned (ANil, Some (utcOnlyError columnName)))
  /\ (forall s,
        parseInUTC layout s = None ->
        createDateFieldBindSetter columnName layout nullable (AString s)
        = Returned (ANil, Some (BindError columnName
                                  ("invalid time " +:+ s))))
  /\ (forall s t,
        acceptedTime layout (AString s) = Some t -> validTime t).
Proof.
  split; [|split; [|split]]; [| | |apply parseInUTC_valid].
  - intros v t elem Hacc. exists (AString (Format layout t)).
    split; [by apply date_setter_accepts|]. split; [done|].
    split; [reflexivity|].
    intros Hvalid. unfold ParseInLocation.
    by rewrite parseInUTC_Format.
  - apply date_setter_rejects_other_names.
  - intros s Hs. cbn [createDateFieldBindSetter]. unfold ParseInLocation.
    by rewrite Hs.
Qed.

End DateSetterFacts.

Lemma date_setter_round_trip_witness :
  exists canonical,
    createDateFieldBindSetter "CreatedAt" LayoutDateTime false
                              (ATime (mkTime 2021 3 7 10 5 9 123 UTC))
    = Returned (canonical, None)
    /\ canonical = AString "2021-03-07 10:05:09"
    /\ createTimeFieldSetter "CreatedAt" LayoutDateTime canonical
                             (mkStructValue 1 ∅)
       = Returned (withTimeField "CreatedAt"
                     (mkTime 2021 3 7 10 5 9 0 UTC) (mkStructValue 1 ∅)).
Proof.
  destruct (date_setter_round_trip "CreatedAt" "CreatedAt" LayoutDateTime
              false) as (Hround & _).
  destruct (Hround (ATime (mkTime 2021 3 7 10 5 9 123 UTC))
                   (mkTime 2021 3 7 10 5 9 123 UTC) (mkStructValue 1 ∅))
    as (canonical & Hset & Hcan & Hfield & _); [reflexivity|].
  exists canonical. split; [exact Hset|]. split; [exact Hcan|exact Hfield].
Defined.

Lemma date_setter_round_trip_counterexample :
  tLocation elevenInMisnamedZone <> UTC
  /\ createDateFieldBindSetter "CreatedAt" LayoutDateTime false
                               (ATime elevenInMisnamedZone)
     = Returned (AString "2021-03-07 11:00:00", None)
  /\ createDateFieldBindSetter "CreatedAt" LayoutDateTime true
                               (ATimePtr None)
     = Panicked runtimeNilError.
Proof. split; [discriminate|]. split; reflexivity. Qed.

(* ===================================================================== *)
(* Part U. Further properties of the code                                 *)
(* ===================================================================== *)

(* --------------------------------------------------------------------- *)
(* strconv                                                                *)
(* --------------------------------------------------------------------- *)

Lemma parseUintFrom_range (s : string) :
  forall n r, 0 <= n <= maxUint64 ->
    parseUintFrom s n = (r, None) -> 0 <= r <= maxUint64.
Proof.
  induction s as [|c rest IH]; intros n r Hn; cbn [parseUintFrom].
  - by intros [= <-].
  - destruct (isDigit c) eqn:Hc; [|done].
    destruct (isDigit_value c Hc) as [Hv _].
    destruct (maxUint64 / 10 + 1 <=? n); [done|].
    destruct (Z.ltb_spec maxUint64 (n * 10 + digitValue c)); [done|].
    apply IH. lia.
Qed.

Lemma ParseUint_range (s : string) (r : Z) :
  ParseUint s = (r, None) -> 0 <= r <= maxUint64.
Proof.
  unfold ParseUint. destruct s; [done|].
  apply parseUintFrom_range. unfold maxUint64, two64. lia.
Qed.

Lemma parseUintFrom_ErrRange (s : string) :
  forall n r, parseUintFrom s n = (r, Some ErrRange) -> r = maxUint64.
Proof.
  induction s as [|c rest IH]; intros n r; cbn [parseUintFrom]; [done|].
  destruct (isDigit c); [|done].
  destruct (maxUint64 / 10 + 1 <=? n); [by intros [= <-]|].
  destruct (maxUint64 <? n * 10 + digitValue c); [by intros [= <-]|].
  apply IH.
Qed.

Lemma ParseInt_range (s : string) (r : Z) :
  ParseInt s = (r, None) -> minInt64 <= r <= maxInt64.
Proof.
  unfold ParseInt. destruct s as [|c rest]; [done|].
  destruct (ParseUint _) as [un [[]|]] eqn:Hp; try done.
  - assert (un = maxUint64) as ->.
    { unfold ParseUint in Hp.
      match type of Hp with
      | match ?d with _ => _ end = _ => destruct d; [done|]
      end.
      by apply parseUintFrom_ErrRange in Hp. }
    destruct (bool_decide (c = "-"%char)); cbn [negb andb]; done.
  - apply ParseUint_range in Hp.
    destruct (bool_decide (c = "-"%char)); cbn [negb andb].
    + destruct (Z.ltb_spec two63 un); [done|]. intros [= <-].
      unfold minInt64, maxInt64, two63 in *. lia.
    + destruct (Z.leb_spec two63 un); [done|]. intros [= <-].
      unfold minInt64, maxInt64, two63 in *. lia.
Qed.

Lemma pretty_N_char_digit (d : N) :
  (d < 10)%N ->
  isDigit (pretty_N_char d) = true
  /\ digitValue (pretty_N_char d) = Z.of_N d.
Proof.
  intros Hd.
  assert (d = 0 \/ d = 1 \/ d = 2 \/ d = 3 \/ d = 4 \/ d = 5 \/ d = 6
          \/ d = 7 \/ d = 8 \/ d = 9)%N as Hcases by lia.
  repeat destruct Hcases as [->|Hcases]; try subst d; by split.
Qed.

Lemma parseUintFrom_pretty_go (x : N) :
  forall s, (Z.of_N x < two64) ->
    parseUintFrom (pretty_N_go x s) 0 = parseUintFrom s (Z.of_N x).
Proof.
  induction (N.lt_wf_0 x) as [x _ IH]. intros s Hx.
  destruct (decide (x = 0%N)) as [->|Hpos]; [by rewrite pretty_N_go_0|].
  rewrite pretty_N_go_step by lia.
  assert (Z.of_N (x `div` 10) = Z.of_N x / 10) as Hdiv by (by rewrite N2Z.inj_div).
  assert (Z.of_N (x `mod` 10) = Z.of_N x mod 10) as Hmod by (by rewrite N2Z.inj_mod).
  pose proof (Z.div_mod (Z.of_N x) 10 ltac:(lia)) as Hdm.
  pose proof (Z.mod_pos_bound (Z.of_N x) 10 ltac:(lia)) as Hmb.
  rewrite IH.
  - destruct (pretty_N_char_digit (x `mod` 10)) as [Hd Hv].
    { apply N.mod_lt. lia. }
    cbn [parseUintFrom]. rewrite Hd, Hv, Hdiv, Hmod.
    assert (maxUint64 / 10 + 1 = 1844674407370955162) as E by reflexivity.
    assert (maxUint64 = 18446744073709551615) as E' by reflexivity.
    unfold two64 in Hx.
    destruct (Z.leb_spec (maxUint64 / 10 + 1) (Z.of_N x / 10)); [lia|].
    destruct (Z.ltb_spec maxUint64 (Z.of_N x / 10 * 10 + Z.of_N x mod 10));
      [lia|].
    f_equal. lia.
  - apply N.div_lt; lia.
  - rewrite Hdiv. pose proof (Z.div_le_upper_bound (Z.of_N x) 10 (Z.of_N x)).
    lia.
Qed.

(* Reading back the decimal rendering of a uint64. *)
Lemma ParseUint_FormatUint (n : Z) :
  0 <= n < two64 -> ParseUint (FormatUint n) = (n, None).
Proof.
  intros Hn. destruct n as [|p|p]; [done| |lia].
  unfold FormatUint, pretty, pretty_Z, pretty, pretty_positive, pretty,
    pretty_N.
  rewrite decide_False by done.
  pose proof (parseUintFrom_pretty_go (N.pos p) "" ltac:(simpl; lia)) as Hgo.
  cbn [parseUintFrom] in Hgo.
  unfold ParseUint. destruct (pretty_N_go (N.pos p) "") eqn:Hs.
  - cbn [parseUintFrom] in Hgo. by injection Hgo.
  - exact Hgo.
Qed.

(* Distinct integers have distinct decimal renderings. *)
Lemma FormatInt_inj (n m : Z) : FormatInt n = FormatInt m -> n = m.
Proof. unfold FormatInt. apply pretty_Z_inj. Qed.

(* --------------------------------------------------------------------- *)
(* The number setter: what it lets through                                *)
(* --------------------------------------------------------------------- *)

Lemma kindMin_ge (k : intKind) : minInt64 <= kindMin k <= 0.
Proof. destruct k; vm_compute; split; discriminate. Qed.

(* The integers the type switch hands on are 64-bit values. *)
Lemma numberSwitch_range (columnName : string) (unsigned : bool) (v : any)
      (asUint64 asInt64 : Z) (isNil : bool) :
  wellTyped v ->
  numberSwitch columnName unsigned v = inl (asUint64, asInt64, isNil) ->
  0 <= asUint64 <= maxUint64 /\ minInt64 <= asInt64 <= maxInt64.
Proof.
  assert (0 <= 0 <= maxUint64) as Hu0 by (vm_compute; split; discriminate).
  assert (minInt64 <= 0 <= maxInt64) as Hi0 by (vm_compute; split; discriminate).
  intros Hwt. unfold numberSwitch.
  destruct v as [|s| | | |k n|k [i|]|fk f|fk [i|]| | |]; try done.
  - destruct unsigned.
    + destruct (ParseUint s) as [n [e|]] eqn:Hp; [done|].
      intros [= <- <- _]. apply ParseUint_range in Hp. done.
    + destruct (ParseInt s) as [n [e|]] eqn:Hp; [done|].
      intros [= <- <- _]. apply ParseInt_range in Hp. done.
  - cbn [wellTyped] in Hwt. destruct Hwt as [Hlo Hhi].
    pose proof (kindMax_lt_two64 k). pose proof (kindMin_ge k).
    destruct (isUnsignedKind k) eqn:Hk; intros [= <- <- _].
    + split; [|done]. destruct k; try done;
        unfold maxUint64 in *; cbn [kindMin] in *; lia.
    + split; [done|]. destruct k; try done;
        unfold maxInt64, minInt64, two63 in *; cbn [kindMin kindMax] in *; lia.
  - cbn [wellTyped] in Hwt. destruct Hwt as [Hlo Hhi].
    pose proof (kindMax_lt_two64 k). pose proof (kindMin_ge k).
    destruct (isUnsignedKind k) eqn:Hk; intros [= <- <- _].
    + split; [|done]. destruct k; try done;
        unfold maxUint64 in *; cbn [kindMin] in *; lia.
    + split; [done|]. destruct k; try done;
        unfold maxInt64, minInt64, two63 in *; cbn [kindMin kindMax] in *; lia.
  - by intros [= <- <- _].
  - intros [= <- <- _]. split; [done|]. apply int64OfFloat_range.
  - intros [= <- <- _]. split; [done|]. apply int64OfFloat_range.
  - by intros [= <- <- _].
Qed.

Section NumberSetterRange.
Variable formatFloatV : floatKind -> spec_float -> string.
Variable columnName : string.
Variables min max : Z.

(** X1: whatever an unsigned number setter accepts is null or an uint64
    between 0 and the column's max. *)
Theorem unsigned_setter_output_in_range (nullable : bool) (v r : any) :
  wellTyped v ->
  createNumberFieldBindSetter formatFloatV columnName true nullable min max v
  = (r, None) ->
  (r = ANil /\ nullable = true)
  \/ exists n, r = AInt Uint64 n /\ 0 <= n <= max /\ n <= maxUint64.
Proof.
  intros Hwt. unfold createNumberFieldBindSetter.
  destruct (decide (v = ANil)) as [->|Hv].
  { destruct nullable; cbn [negb]; [|done]. intros [= <-]. by left. }
  assert (forall X : any * option error,
            match v with ANil => (ANil, Some (BindError "" "")) | _ => X end
            = X) as Hmatch by (intros X; by destruct v).
  destruct (numberSwitch columnName true v) as [[[asU asI] isNil]|e] eqn:Hsw.
  2: { by destruct v. }
  destruct (numberSwitch_range _ _ _ _ _ _ Hwt Hsw) as [HU HI].
  assert (uint64_of_int64 asI = asI \/ asI < 0) as Hconv.
  { destruct (Z.lt_ge_cases asI 0); [by right|left].
    unfold uint64_of_int64. apply Z.mod_small.
    unfold maxInt64, two63, two64 in *. lia. }
  intros Hres.
  assert ((if isNil
           then if negb nullable
                then (ANil, Some (BindError columnName "nil is not allowed"))
                else (ANil, None)
           else if asI <? 0
                then (ANil, Some (BindError columnName
                        ("negative number " +:+ sprintD formatFloatV v
                         +:+ " not allowed")))
                else if max <? (if 0 <? asI then uint64_of_int64 asI else asU)
                     then (ANil, Some (BindError columnName
                             ("value " +:+ sprintD formatFloatV v
                              +:+ " exceeded max allowed value")))
                     else (AInt Uint64
                             (if 0 <? asI then uint64_of_int64 asI else asU),
                           None))
          = (r, None)) as Hres' by (by destruct v).
  clear Hres. destruct isNil.
  { destruct nullable; cbn [negb] in Hres'; [|done].
    injection Hres' as <-. by left. }
  destruct (Z.ltb_spec asI 0); [done|].
  destruct (Z.ltb_spec 0 asI).
  - destruct Hconv as [Hc|?]; [|lia]. rewrite Hc in Hres'.
    destruct (Z.ltb_spec max asI); [done|]. injection Hres' as <-.
    right. exists asI. unfold maxInt64, maxUint64, two63, two64 in *.
    repeat split; lia.
  - destruct (Z.ltb_spec max asU); [done|]. injection Hres' as <-.
    right. exists asU. repeat split; lia.
Qed.

(** X2: whatever a signed number setter accepts is null or an int64; a
    positive result is at most the column's max and a negative one at
    least its min. *)
Theorem signed_setter_output_in_range (nullable : bool) (v r : any) :
  wellTyped v ->
  createNumberFieldBindSetter formatFloatV columnName false nullable min max v
  = (r, None) ->
  (r = ANil /\ nullable = true)
  \/ exists n, r = AInt Int64 n /\ minInt64 <= n <= maxInt64
               /\ (0 < n -> n <= max) /\ (n < 0 -> min <= n).
Proof.
  intros Hwt. unfold createNumberFieldBindSetter.
  destruct (decide (v = ANil)) as [->|Hv].
  { destruct nullable; cbn [negb]; [|done]. intros [= <-]. by left. }
  destruct (numberSwitch columnName false v) as [[[asU asI] isNil]|e] eqn:Hsw.
  2: { by destruct v. }
  destruct (numberSwitch_range _ _ _ _ _ _ Hwt Hsw) as [HU HI].
  intros Hres.
  set (n := if 0 <? asU then int64_of_uint64 asU else asI) in *.
  assert (minInt64 <= n <= maxInt64) as Hn.
  { subst n. destruct (0 <? asU); [|done]. unfold int64_of_uint64.
    unfold minInt64, maxInt64, maxUint64, two63, two64 in *.
    destruct (Z.ltb_spec asU (2 ^ 63)); lia. }
  assert ((if isNil
           then if negb nullable
                then (ANil, Some (BindError columnName "nil is not allowed"))
                else (ANil, None)
           else if (0 <? n) && (max <? uint64_of_int64 n)
                then (ANil, Some (BindError columnName
                        ("value " +:+ sprintD formatFloatV v
                         +:+ " exceeded max allowed value")))
                else if (n <? 0) && (n <? min)
                     then (ANil, Some (BindError columnName
                             ("value " +:+ sprintD formatFloatV v
                              +:+ " exceeded min allowed value")))
                     else (AInt Int64 n, None))
          = (r, None)) as Hres' by (by destruct v).
  clear Hres. destruct isNil.
  { destruct nullable; cbn [negb] in Hres'; [|done].
    injection Hres' as <-. by left. }
  destruct ((0 <? n) && (max <? uint64_of_int64 n)) eqn:Hmax; [done|].
  destruct ((n <? 0) && (n <? min)) eqn:Hmin; [done|].
  injection Hres' as <-. right. exists n. split; [done|]. split; [done|].
  split.
  - intros Hpos. apply andb_false_iff in Hmax as [Hf|Hf].
    + apply Z.ltb_ge in Hf. lia.
    + apply Z.ltb_ge in Hf. revert Hf. unfold uint64_of_int64.
      rewrite Z.mod_small; [lia|].
      unfold maxInt64, two63, two64 in *. lia.
  - intros Hneg. apply andb_false_iff in Hmin as [Hf|Hf];
      apply Z.ltb_ge in Hf; lia.
Qed.

End NumberSetterRange.

Section NumberSetterMore.
Variable formatFloatV : floatKind -> spec_float -> string.
Variable columnName : string.
Variables min max : Z.

Lemma unsigned_setter_canonical (nullable : bool) (n : Z) :
  0 <= n <= max ->
  createNumberFieldBindSetter formatFloatV columnName true nullable min max
                              (AInt Uint64 n)
  = (AInt Uint64 n, None).
Proof.
  intros Hn. unfold createNumberFieldBindSetter, numberSwitch.
  cbn [isUnsignedKind negb Z.ltb Z.compare].
  destruct (Z.ltb_spec max n); [lia|done].
Qed.

Lemma signed_setter_canonical (nullable : bool) (n : Z) :
  minInt64 <= n <= maxInt64 ->
  (0 < n -> n <= max) -> (n < 0 -> min <= n) ->
  createNumberFieldBindSetter formatFloatV columnName false nullable min max
                              (AInt Int64 n)
  = (AInt Int64 n, None).
Proof.
  intros Hn Hpos Hneg. unfold createNumberFieldBindSetter, numberSwitch.
  cbn [isUnsignedKind negb Z.ltb Z.compare].
  destruct (Z.ltb_spec 0 n) as [H0|H0]; cbn [andb].
  - assert (uint64_of_int64 n = n) as ->.
    { unfold uint64_of_int64. apply Z.mod_small.
      unfold maxInt64, two63, two64 in *. lia. }
    destruct (Z.ltb_spec max n); [lia|].
    destruct (Z.ltb_spec n 0); [lia|done].
  - destruct (Z.ltb_spec n 0); cbn [andb]; [|done].
    destruct (Z.ltb_spec n min); [lia|done].
Qed.

(** X3: the canonical values of a number setter are its fixed points:
    a value the setter returned is returned unchanged when it is passed
    through the same setter again. *)
Theorem number_setter_idempotent (unsigned nullable : bool) (v r : any) :
  wellTyped v ->
  createNumberFieldBindSetter formatFloatV columnName unsigned nullable
                              min max v = (r, None) ->
  createNumberFieldBindSetter formatFloatV columnName unsigned nullable
                              min max r = (r, None).
Proof.
  intros Hwt Hres. destruct unsigned.
  - destruct (unsigned_setter_output_in_range _ _ _ _ _ _ _ Hwt Hres)
      as [[-> ->]|(n & -> & Hn & _)]; [done|].
    by apply unsigned_setter_canonical.
  - destruct (signed_setter_output_in_range _ _ _ _ _ _ _ Hwt Hres)
      as [[-> ->]|(n & -> & Hn & Hpos & Hneg)]; [done|].
    by apply signed_setter_canonical.
Qed.

(** X4: an unsigned number setter accepts the decimal rendering of every
    value between 0 and the column's max and yields that value. *)
Theorem unsigned_setter_accepts_decimal (nullable : bool) (n : Z) :
  0 <= n <= max -> max < two64 ->
  createNumberFieldBindSetter formatFloatV columnName true nullable min max
                              (AString (FormatUint n))
  = (AInt Uint64 n, None).
Proof.
  intros Hn Hmax. unfold createNumberFieldBindSetter, numberSwitch.
  rewrite ParseUint_FormatUint by lia.
  cbn [negb Z.ltb Z.compare].
  destruct (Z.ltb_spec max n); [lia|done].
Qed.

(** X5: a signed number setter reads a uint or uint64 input of 2^63 or
    more as the negative int64 with the same bits and accepts it whenever
    that value is not below the column's min. *)
Theorem signed_setter_wraps_large_unsigned (nullable : bool) (k : intKind)
        (n : Z) :
  k = Uint \/ k = Uint64 ->
  two63 <= n < two64 ->
  min <= n - two64 ->
  createNumberFieldBindSetter formatFloatV columnName false nullable min max
                              (AInt k n)
  = (AInt Int64 (n - two64), None).
Proof.
  intros Hk Hn Hmin. unfold createNumberFieldBindSetter, numberSwitch.
  assert (isUnsignedKind k = true) as -> by (by destruct Hk as [->| ->]).
  cbn [negb]. unfold two63, two64 in *.
  destruct (Z.ltb_spec 0 n); [|lia].
  unfold int64_of_uint64, two63, two64.
  destruct (Z.ltb_spec n (2 ^ 63)); [lia|].
  destruct (Z.ltb_spec 0 (n - 2 ^ 64)); [lia|]. cbn [andb].
  destruct (Z.ltb_spec (n - 2 ^ 64) 0); [|lia]. cbn [andb].
  destruct (Z.ltb_spec (n - 2 ^ 64) min); [lia|done].
Qed.

End NumberSetterMore.

Lemma unsigned_setter_output_in_range_witness :
  (AInt Uint64 200 = ANil /\ false = true)
  \/ exists n, AInt Uint64 200 = AInt Uint64 n /\ 0 <= n <= 255
               /\ n <= maxUint64.
Proof.
  apply (unsigned_setter_output_in_range (fun _ _ => "") "Age" 0 255 false
           (AInt Int16 200) (AInt Uint64 200)).
  - unfold wellTyped, fitsKind. simpl. lia.
  - reflexivity.
Defined.

Lemma signed_setter_output_in_range_witness :
  (AInt Int64 (-7) = ANil /\ false = true)
  \/ exists n, AInt Int64 (-7) = AInt Int64 n /\ minInt64 <= n <= maxInt64
               /\ (0 < n -> n <= 127) /\ (n < 0 -> -128 <= n).
Proof.
  apply (signed_setter_output_in_range (fun _ _ => "") "Delta" (-128) 127
           false (AString "-7") (AInt Int64 (-7))).
  - exact I.
  - reflexivity.
Defined.

Lemma number_setter_idempotent_witness :
  createNumberFieldBindSetter (fun _ _ => "") "Age" true false 0 255
                              (AInt Uint64 42)
  = (AInt Uint64 42, None).
Proof.
  apply (number_setter_idempotent (fun _ _ => "") "Age" 0 255 true false
           (AString "42") (AInt Uint64 42)).
  - exact I.
  - reflexivity.
Defined.

Lemma unsigned_setter_accepts_decimal_witness :
  createNumberFieldBindSetter (fun _ _ => "") "Age" true false 0 255
                              (AString (FormatUint 42))
  = (AInt Uint64 42, None).
Proof.
  apply (unsigned_setter_accepts_decimal (fun _ _ => "") "Age" 0 255 false 42).
  - lia.
  - unfold two64. lia.
Defined.

Lemma signed_setter_wraps_large_unsigned_witness :
  createNumberFieldBindSetter (fun _ _ => "") "Balance" false false
                              minInt64 maxInt64 (AInt Uint64 maxUint64)
  = (AInt Int64 (maxUint64 - two64), None).
Proof.
  apply (signed_setter_wraps_large_unsigned (fun _ _ => "") "Balance"
           minInt64 maxInt64 false Uint64 maxUint64).
  - by right.
  - vm_compute. split; [discriminate|reflexivity].
  - vm_compute. discriminate.
Defined.

(* --------------------------------------------------------------------- *)
(* Attribute strings and the string setter                                *)
(* --------------------------------------------------------------------- *)

(** X6: the attribute string of a raw value agrees with the attribute
    string of its bind value: when the uint64 attribute setter renders a
    raw value v, the bind setter maps v to some uint64 n and rendering n
    as a bind value gives the same string; two bind values render to the
    same string only if they are equal; and a raw value the bind setter
    maps to null makes the attribute setter panic. *)
Theorem uint64_attr_string_agrees (setter : fieldBindSetter) :
  (forall v str,
     createUint64AttrToStringSetter setter v false = Returned (str, None) ->
     exists n, setter v = (AInt Uint64 n, None)
               /\ createUint64AttrToStringSetter setter (AInt Uint64 n) true
                  = Returned (str, None))
  /\ (forall n m str,
        createUint64AttrToStringSetter setter (AInt Uint64 n) true
        = Returned (str, None) ->
        createUint64AttrToStringSetter setter (AInt Uint64 m) true
        = Returned (str, None) ->
        n = m)
  /\ (forall v,
        setter v = (ANil, None) ->
        createUint64AttrToStringSetter setter v false
        = Panicked typeAssertionPanic).
Proof.
  split; [|split].
  - intros v str. unfold createUint64AttrToStringSetter.
    destruct (setter v) as [v2 [err|]]; [done|].
    destruct v2 as [| | | | |[] n| | | | | |]; try done.
    intros [= <-]. by exists n.
  - intros n m str. cbn. intros [= <-] [= Heq]. symmetry.
    by apply FormatInt_inj.
  - intros v Hv. unfold createUint64AttrToStringSetter. by rewrite Hv.
Qed.

(** X7: whatever the string setter accepts is null or a non-empty string
    of at most `length` bytes (when a length is configured); null is
    accepted only when the column is not required; and an accepted value
    passed through the setter again is returned unchanged. *)
Theorem string_setter_output (columnName : string) (length : Z)
        (required : bool) (v r : any) :
  createStringFieldBindSetter columnName length required v = (r, None) ->
  ((r = ANil /\ required = false)
   \/ exists s, r = AString s /\ s <> ""
                /\ (0 < length -> Z.of_nat (String.length s) <= length))
  /\ createStringFieldBindSetter columnName length required r = (r, None).
Proof.
  unfold createStringFieldBindSetter at 1.
  destruct v as [|s| | | | | | | | | |]; try done.
  - destruct required; [done|]. intros [= <-]. split; [by left|done].
  - destruct (bool_decide (s = "")) eqn:Hs.
    + destruct required; [done|]. intros [= <-]. split; [by left|done].
    + apply bool_decide_eq_false in Hs.
      destruct ((0 <? length) && (length <? Z.of_nat (String.length s)))
        eqn:Hlen; [done|]. intros [= <-]. split.
      * right. exists s. split; [done|]. split; [done|].
        intros Hpos. apply andb_false_iff in Hlen as [Hf|Hf];
          apply Z.ltb_ge in Hf; lia.
      * unfold createStringFieldBindSetter.
        by rewrite (bool_decide_eq_false_2 _ Hs), Hlen.
Qed.

Lemma string_setter_output_witness :
  ((AString "a@b.c" = ANil /\ true = false)
   \/ exists s, AString "a@b.c" = AString s /\ s <> ""
                /\ (0 < 20 -> Z.of_nat (String.length s) <= 20))
  /\ createStringFieldBindSetter "Email" 20 true (AString "a@b.c")
     = (AString "a@b.c", None).
Proof.
  apply (string_setter_output "Email" 20 true (AString "a@b.c")).
  reflexivity.
Defined.

(* --------------------------------------------------------------------- *)
(* EditEntityField: errors, repeated edits, unique indexes                *)
(* --------------------------------------------------------------------- *)

(** X8: when EditEntityField returns an error the tracked-entities map is
    left as it was, and the error is one of three: `unknown field` for a
    field without bind setter, the error of the bind setter on the
    supplied value, or the marked-to-delete error for an entity tracked
    for removal. *)
Theorem edit_error_leaves_tracked (schema : entitySchema)
        (tracked tracked' : trackedMap) (entity : structValue)
        (field : string) (value : any) (err : error) :
  editEntityField schema tracked entity field value
  = (tracked', Returned (Some err)) ->
  tracked' = tracked
  /\ ((fieldBindSetters schema !! field = None
       /\ err = BindError field "unknown field")
      \/ (exists setter,
            fieldBindSetters schema !! field = Some setter
            /\ snd (setter value) = Some err)
      \/ ((exists value',
             trackedEntry tracked (index schema) (svID entity)
             = Some (removableEntity value'))
          /\ err = markedToDeleteError field)).
Proof.
  unfold editEntityField.
  destruct (fieldBindSetters schema !! field) as [setter|] eqn:Hset.
  2: { intros [= <- <-]. split; [done|]. by left. }
  destruct (setter value) as [newValue [e|]] eqn:Hnew.
  { intros [= <- <-]. split; [done|]. right; left. exists setter.
    by rewrite Hnew. }
  destruct (fieldGetters schema !! field) as [getter|]; [|done].
  destruct (setter (getter entity)) as [oldValue e].
  destruct (bool_decide (e = None) && any_eqb oldValue newValue); [done|].
  unfold recordEdit.
  destruct (trackedEntry tracked (index schema) (svID entity))
    as [[id' value' nb ob|value'|value'|value']|] eqn:Hentry.
  - by destruct (addUniqueIndexFieldsToBind _ _ _ _ _) as [[??]|?].
  - by destruct (fieldSetters schema !! field).
  - by destruct (fieldSetters schema !! field).
  - intros [= <- <-]. split; [done|]. right; right. split; [|done].
    by exists value'.
  - by destruct (addUniqueIndexFieldsToBind _ _ _ _ _) as [[??]|?].
Qed.

Lemma edit_error_leaves_tracked_witness :
  ∅ = (∅ : trackedMap)
  /\ ((fieldBindSetters accountSchema !! "Phone" = None
       /\ BindError "Phone" "unknown field" = BindError "Phone" "unknown field")
      \/ (exists setter,
            fieldBindSetters accountSchema !! "Phone" = Some setter
            /\ snd (setter (AString "1")) = Some (BindError "Phone" "unknown field"))
      \/ ((exists value',
             trackedEntry ∅ (index accountSchema) (svID (account "a" "t"))
             = Some (removableEntity value'))
          /\ BindError "Phone" "unknown field" = markedToDeleteError "Phone")).
Proof.
  apply (edit_error_leaves_tracked accountSchema ∅ ∅ (account "a" "t")
           "Phone" (AString "1") (BindError "Phone" "unknown field")).
  reflexivity.
Defined.

Lemma addIndexColumns_other_index (schema : entitySchema)
      (elem : structValue) (field : string)
      (indexes : list (string * list string)) (oldBind newBind : Bind) :
  (forall name cols, (name, cols) ∈ indexes -> field ∉ cols) ->
  addUniqueIndexFields schema field elem indexes oldBind newBind
  = Returned (oldBind, newBind).
Proof.
  induction indexes as [|[name cols] rest IH]; intros Hnone; [done|].
  cbn [addUniqueIndexFields].
  rewrite bool_decide_eq_false_2 by (apply (Hnone name); left).
  apply IH. intros name' cols' Hin. apply (Hnone name'). by right.
Qed.

(** X9: two edits of one field accumulate into one pending change. For a
    field that belongs to no unique index and an untracked entity,
    EditEntityField with a value of canonical form x followed by
    EditEntityField with a value of canonical form y (both different from
    the canonical form a of the entity's content) leaves newBind = {field:
    y} and oldBind = {field: a}. *)
Theorem edit_twice_accumulates (schema : entitySchema) (tracked : trackedMap)
        (entity : structValue) (field : string) (value1 value2 : any)
        (setter : fieldBindSetter) (getter : structValue -> any)
        (x y a : any) :
  fieldBindSetters schema !! field = Some setter ->
  fieldGetters schema !! field = Some getter ->
  (forall name cols, (name, cols) ∈ uniqueIndexes schema -> field ∉ cols) ->
  setter value1 = (x, None) ->
  setter value2 = (y, None) ->
  setter (getter entity) = (a, None) ->
  a <> x -> a <> y ->
  trackedEntry tracked (index schema) (svID entity) = None ->
  exists tracked1 tracked2,
    editEntityField schema tracked entity field value1
    = (tracked1, Returned None)
    /\ editEntityField schema tracked1 entity field value2
       = (tracked2, Returned None)
    /\ trackedEntry tracked2 (index schema) (svID entity)
       = Some (editableFields (svID entity) entity
                              {[field := y]} {[field := a]}).
Proof.
  intros Hset Hget Hnone Hx Hy Ha Hax Hay Hentry.
  eexists _, _. unfold editEntityField.
  rewrite Hset, Hget, Hx, Hy, Ha. unfold any_eqb.
  rewrite !bool_decide_eq_true_2 by done.
  rewrite (bool_decide_eq_false_2 _ Hax), (bool_decide_eq_false_2 _ Hay).
  cbn [andb]. unfold recordEdit at 1. rewrite Hentry.
  unfold addUniqueIndexFieldsToBind.
  rewrite addIndexColumns_other_index by done.
  split; [reflexivity|].
  unfold recordEdit. rewrite trackedEntry_set.
  unfold addUniqueIndexFieldsToBind.
  rewrite addIndexColumns_other_index by done.
  split; [reflexivity|].
  rewrite trackedEntry_set. by rewrite !insert_singleton_eq.
Qed.

Lemma edit_twice_accumulates_witness :
  exists tracked1 tracked2,
    editEntityField noteSchema ∅ (note "original") "Title" (AString "x")
    = (tracked1, Returned None)
    /\ editEntityField noteSchema tracked1 (note "original") "Title"
                       (AString "y")
       = (tracked2, Returned None)
    /\ trackedEntry tracked2 (index noteSchema) (svID (note "original"))
       = Some (editableFields (svID (note "original")) (note "original")
                              {["Title" := AString "y"]}
                              {["Title" := AString "original"]}).
Proof.
  apply (edit_twice_accumulates noteSchema ∅ (note "original") "Title"
           (AString "x") (AString "y")
           (createStringFieldBindSetter "Title" 50 true)
           (fieldByName "Title") (AString "x") (AString "y")
           (AString "original")).
  - vm_compute. reflexivity.
  - vm_compute. reflexivity.
  - intros name cols Hin. by apply elem_of_nil in Hin.
  - reflexivity.
  - reflexivity.
  - reflexivity.
  - discriminate.
  - discriminate.
  - reflexivity.
Defined.

(* Once a column is bound to the canonical form of the entity's content
   in both binds, the loops over the unique indexes keep it so. *)
Lemma addIndexColumns_settled (schema : entitySchema) (elem : structValue)
      (cols : list string) (c : string) (setter : fieldBindSetter)
      (current : any) :
  fieldBindSetters schema !! c = Some setter ->
  svFields elem !! c = Some current ->
  forall oldBind newBind oldBind' newBind',
    oldBind !! c = Some (fst (setter current)) ->
    newBind !! c = Some (fst (setter current)) ->
    addIndexColumns schema elem cols oldBind newBind
    = Returned (oldBind', newBind') ->
    oldBind' !! c = Some (fst (setter current))
    /\ newBind' !! c = Some (fst (setter current)).
Proof.
  intros Hset Hcur.
  induction cols as [|c' rest IH]; intros ob nb ob' nb' Ho Hn Hrun.
  - cbn in Hrun. by injection Hrun as <- <-.
  - cbn [addIndexColumns] in Hrun.
    destruct (bindIsNil ob c'); [|by apply (IH ob nb ob' nb')].
    destruct (decide (c' = c)) as [->|Hne].
    + rewrite Hset, Hcur in Hrun.
      eapply IH; [| |exact Hrun]; by rewrite lookup_insert_eq.
    + destruct (fieldBindSetters schema !! c') as [setter'|]; [|done].
      destruct (svFields elem !! c') as [current'|]; [|done].
      eapply IH; [| |exact Hrun]; by rewrite lookup_insert_ne.
Qed.

Lemma addIndexColumns_binds_nil_column (schema : entitySchema)
      (elem : structValue) (cols : list string) (c : string)
      (setter : fieldBindSetter) (current : any) :
  fieldBindSetters schema !! c = Some setter ->
  svFields elem !! c = Some current ->
  c ∈ cols ->
  forall oldBind newBind oldBind' newBind',
    bindIsNil oldBind c = true ->
    addIndexColumns schema elem cols oldBind newBind
    = Returned (oldBind', newBind') ->
    oldBind' !! c = Some (fst (setter current))
    /\ newBind' !! c = Some (fst (setter current)).
Proof.
  intros Hset Hcur.
  induction cols as [|c' rest IH]; intros Hin ob nb ob' nb' Hnil Hrun.
  - by apply elem_of_nil in Hin.
  - cbn [addIndexColumns] in Hrun.
    destruct (decide (c' = c)) as [->|Hne].
    + rewrite Hnil, Hset, Hcur in Hrun.
      eapply addIndexColumns_settled; [done|done| | |exact Hrun];
        by rewrite lookup_insert_eq.
    + apply elem_of_cons in Hin as [?|Hin]; [done|].
      destruct (bindIsNil ob c'); [|by eapply IH].
      destruct (fieldBindSetters schema !! c') as [setter'|]; [|done].
      destruct (svFields elem !! c') as [current'|]; [|done].
      eapply IH; [done| |exact Hrun]. by rewrite bindIsNil_insert_ne.
Qed.

Lemma addUniqueIndexFields_settled (schema : entitySchema) (field : string)
      (elem : structValue) (indexes : list (string * list string))
      (c : string) (setter : fieldBindSetter) (current : any) :
  fieldBindSetters schema !! c = Some setter ->
  svFields elem !! c = Some current ->
  forall oldBind newBind oldBind' newBind',
    oldBind !! c = Some (fst (setter current)) ->
    newBind !! c = Some (fst (setter current)) ->
    addUniqueIndexFields schema field elem indexes oldBind newBind
    = Returned (oldBind', newBind') ->
    oldBind' !! c = Some (fst (setter current))
    /\ newBind' !! c = Some (fst (setter current)).
Proof.
  intros Hset Hcur.
  induction indexes as [|[name cols] rest IH]; intros ob nb ob' nb' Ho Hn Hrun.
  - cbn in Hrun. by injection Hrun as <- <-.
  - cbn [addUniqueIndexFields] in Hrun.
    destruct (bool_decide (field ∈ cols)); [|by apply (IH ob nb ob' nb')].
    destruct (addIndexColumns schema elem cols ob nb) as [[ob1 nb1]|p]
      eqn:Hcols; [|done].
    destruct (addIndexColumns_settled _ _ _ _ _ _ Hset Hcur _ _ _ _ Ho Hn
                Hcols) as [Ho1 Hn1].
    by apply (IH ob1 nb1 ob' nb').
Qed.

Lemma addUniqueIndexFields_binds_nil_field (schema : entitySchema)
      (field : string) (elem : structValue)
      (indexes : list (string * list string))
      (setter : fieldBindSetter) (current : any) :
  fieldBindSetters schema !! field = Some setter ->
  svFields elem !! field = Some current ->
  (exists name cols, (name, cols) ∈ indexes /\ field ∈ cols) ->
  forall oldBind newBind oldBind' newBind',
    bindIsNil oldBind field = true ->
    addUniqueIndexFields schema field elem indexes oldBind newBind
    = Returned (oldBind', newBind') ->
    oldBind' !! field = Some (fst (setter current))
    /\ newBind' !! field = Some (fst (setter current)).
Proof.
  intros Hset Hcur.
  induction indexes as [|[name cols] rest IH];
    intros (name0 & cols0 & Hin & Hfield) ob nb ob' nb' Hnil Hrun.
  - by apply elem_of_nil in Hin.
  - cbn [addUniqueIndexFields] in Hrun.
    destruct (decide (field ∈ cols)) as [Hhere|Hnot].
    + rewrite bool_decide_eq_true_2 in Hrun by done.
      destruct (addIndexColumns schema elem cols ob nb) as [[ob1 nb1]|p]
        eqn:Hcols; [|done].
      destruct (addIndexColumns_binds_nil_column _ _ _ _ _ _ Hset Hcur Hhere
                  _ _ _ _ Hnil Hcols) as [Ho1 Hn1].
      by apply (addUniqueIndexFields_settled schema field elem rest field
                  setter current Hset Hcur ob1 nb1 ob' nb').
    + rewrite bool_decide_eq_false_2 in Hrun by done.
      apply elem_of_cons in Hin as [[= -> ->]|Hin]; [done|].
      eapply IH; [by exists name0, cols0|done|exact Hrun].
Qed.

(** X10: an edit of a field that belongs to a unique index and whose
    current canonical value is nil does not keep the new value: the loop
    over the unique indexes finds oldBind[field] == nil and overwrites
    both newBind[field] and oldBind[field] with the canonical form of the
    entity's present content of that field. *)
Theorem edit_nil_valued_unique_field (schema : entitySchema)
        (tracked tracked' : trackedMap) (entity : structValue)
        (field : string) (value : any) (setter : fieldBindSetter)
        (getter : structValue -> any) (newValue current : any) :
  fieldBindSetters schema !! field = Some setter ->
  fieldGetters schema !! field = Some getter ->
  svFields entity !! field = Some current ->
  (exists name cols, (name, cols) ∈ uniqueIndexes schema /\ field ∈ cols) ->
  setter value = (newValue, None) ->
  setter (getter entity) = (ANil, None) ->
  newValue <> ANil ->
  fieldEditsOnly (trackedEntry tracked (index schema) (svID entity)) ->
  editEntityField schema tracked entity field value
  = (tracked', Returned None) ->
  pendingNewBind (trackedEntry tracked' (index schema) (svID entity))
    !! field = Some (fst (setter current))
  /\ pendingOldBind (trackedEntry tracked' (index schema) (svID entity))
       !! field = Some (fst (setter current)).
Proof.
  intros Hset Hget Hcur Hindex Hnew Hold Hne Hentry Hrun.
  unfold editEntityField in Hrun. rewrite Hset, Hnew, Hget, Hold in Hrun.
  unfold any_eqb in Hrun.
  rewrite bool_decide_eq_true_2 in Hrun by done.
  rewrite bool_decide_eq_false_2 in Hrun by (intros Heq; by apply Hne).
  cbn [andb] in Hrun.
  unfold recordEdit, addUniqueIndexFieldsToBind in Hrun.
  destruct (trackedEntry tracked (index schema) (svID entity))
    as [[id' value' nb0 ob0| | |]|] eqn:Hprev; try done.
  - destruct (addUniqueIndexFields schema field entity (uniqueIndexes schema)
                (<[field := ANil]> ob0) (<[field := newValue]> nb0))
      as [[ob nb]|p] eqn:Hadd; [|done].
    injection Hrun as <-. rewrite trackedEntry_set.
    cbn [pendingNewBind pendingOldBind].
    assert (bindIsNil (<[field := ANil]> ob0) field = true) as Hnil
      by (unfold bindIsNil; by rewrite lookup_insert_eq).
    by destruct (addUniqueIndexFields_binds_nil_field _ _ _ _ _ _ Hset Hcur
                   Hindex _ _ _ _ Hnil Hadd).
  - destruct (addUniqueIndexFields schema field entity (uniqueIndexes schema)
                {[field := ANil]} {[field := newValue]})
      as [[ob nb]|p] eqn:Hadd; [|done].
    injection Hrun as <-. rewrite trackedEntry_set.
    cbn [pendingNewBind pendingOldBind].
    assert (bindIsNil ({[field := ANil]} : Bind) field = true) as Hnil
      by (unfold bindIsNil; by rewrite lookup_singleton_eq).
    by destruct (addUniqueIndexFields_binds_nil_field _ _ _ _ _ _ Hset Hcur
                   Hindex _ _ _ _ Hnil Hadd).
Qed.

Lemma edit_nil_valued_unique_field_witness :
  pendingNewBind
    (trackedEntry (editEntityField voucherSchema ∅ (voucher "") "Code"
                                   (AString "SPRING")).1 5 2)
    !! "Code" = Some ANil
  /\ pendingOldBind
       (trackedEntry (editEntityField voucherSchema ∅ (voucher "") "Code"
                                      (AString "SPRING")).1 5 2)
       !! "Code" = Some ANil.
Proof.
  apply (edit_nil_valued_unique_field voucherSchema ∅
           (editEntityField voucherSchema ∅ (voucher "") "Code"
                            (AString "SPRING")).1
           (voucher "") "Code" (AString "SPRING")
           (createStringFieldBindSetter "Code" 10 false)
           (fieldByName "Code") (AString "SPRING") (AString "")).
  - vm_compute. reflexivity.
  - vm_compute. reflexivity.
  - vm_compute. reflexivity.
  - exists "Code", ["Code"]. split; [left|left].
  - reflexivity.
  - reflexivity.
  - discriminate.
  - vm_compute. exact I.
  - vm_compute. reflexivity.
Defined.

(* --------------------------------------------------------------------- *)
(* Dirty events and log rows                                              *)
(* --------------------------------------------------------------------- *)

Lemma hasDirtyColumn_spec (bind : Bind) (columns : list string) :
  hasDirtyColumn bind columns = true
  <-> exists column, column ∈ columns
                     /\ (column = "ORM" \/ is_Some (bind !! column)).
Proof.
  induction columns as [|c rest IH]; cbn [hasDirtyColumn].
  - split; [done|]. intros (column & Hin & _). by apply elem_of_nil in Hin.
  - destruct (bool_decide (c = "ORM") || bool_decide (is_Some (bind !! c)))
      eqn:Hc.
    + split; [|done]. intros _. exists c. split; [left|].
      apply orb_true_iff in Hc as [Hc|Hc]; apply bool_decide_eq_true in Hc;
        [by left|by right].
    + rewrite IH. apply orb_false_iff in Hc as [H1 H2].
      apply bool_decide_eq_false in H1, H2.
      split; intros (column & Hin & Hdirty); exists column.
      * split; [by right|done].
      * apply elem_of_cons in Hin as [->|Hin]; [|done].
        by destruct Hdirty.
Qed.

Lemma dirtyStreams_spec (bind : Bind) (fields : list (string * list string))
      (stream : string) :
  stream ∈ dirtyStreams bind fields
  <-> exists columns, (stream, columns) ∈ fields
                      /\ hasDirtyColumn bind columns = true.
Proof.
  induction fields as [|[s cols] rest IH]; cbn [dirtyStreams].
  - split; [intros H; by apply elem_of_nil in H|].
    intros (columns & Hin & _). by apply elem_of_nil in Hin.
  - destruct (hasDirtyColumn bind cols) eqn:Hd.
    + rewrite elem_of_cons, IH. split.
      * intros [->|(columns & Hin & Hc)].
        -- exists cols. split; [left|done].
        -- exists columns. split; [by right|done].
      * intros (columns & Hin & Hc).
        apply elem_of_cons in Hin as [[= -> ->]|Hin]; [by left|].
        right. by exists columns.
    + rewrite IH. split; intros (columns & Hin & Hc); exists columns.
      * split; [by right|done].
      * apply elem_of_cons in Hin as [[= -> ->]|Hin]; [congruence|done].
Qed.

(** X11: a dirty event goes to a stream exactly when one of the columns
    the stream tracks is bound or is the pseudo-column ORM. A lazy
    addDirtyQueues publishes nothing and returns the event with exactly
    those streams, or nil when there is none; a non-lazy one returns nil
    and publishes the event to exactly those streams. *)
Theorem addDirtyQueues_streams (bind : Bind) (schema : tableEvents) (id : Z)
        (action : string) :
  (fst (addDirtyQueues bind schema id action true) = []
   /\ (snd (addDirtyQueues bind schema id action true) = None
       <-> forall stream columns column,
             (stream, columns) ∈ dirtyFields schema -> column ∈ columns ->
             column <> "ORM" /\ bind !! column = None)
   /\ forall row,
        snd (addDirtyQueues bind schema id action true) = Some row ->
        dEvent row = mkDirtyEvent (typeName schema) id action
        /\ forall stream,
             stream ∈ dStreams row
             <-> exists columns column,
                   (stream, columns) ∈ dirtyFields schema
                   /\ column ∈ columns
                   /\ (column = "ORM" \/ is_Some (bind !! column)))
  /\ (snd (addDirtyQueues bind schema id action false) = None
      /\ forall stream event,
           (stream, event) ∈ fst (addDirtyQueues bind schema id action false)
           <-> event = mkDirtyEvent (typeName schema) id action
               /\ exists columns column,
                    (stream, columns) ∈ dirtyFields schema
                    /\ column ∈ columns
                    /\ (column = "ORM" \/ is_Some (bind !! column))).
Proof.
  assert (forall stream,
            stream ∈ dirtyStreams bind (dirtyFields schema)
            <-> exists columns column,
                  (stream, columns) ∈ dirtyFields schema
                  /\ column ∈ columns
                  /\ (column = "ORM" \/ is_Some (bind !! column))) as Hspec.
  { intros stream. rewrite dirtyStreams_spec. split.
    - intros (columns & Hin & Hd). apply hasDirtyColumn_spec in Hd
        as (column & Hc & Hdirty). by exists columns, column.
    - intros (columns & column & Hin & Hc & Hdirty). exists columns.
      split; [done|]. apply hasDirtyColumn_spec. by exists column. }
  unfold addDirtyQueues. cbn [negb]. split; [|split; [done|]].
  - destruct (dirtyStreams bind (dirtyFields schema)) as [|s0 rest] eqn:Hs;
      cbn [fst snd].
    + split; [done|]. split; [|done]. split; [|done].
      intros _ stream columns column Hin Hc.
      assert (stream ∉ ([] : list string)) as Hnot by apply not_elem_of_nil.
      rewrite Hspec in Hnot.
      split.
      * intros ->. apply Hnot. exists columns, "ORM".
        split; [done|]. split; [done|]. by left.
      * destruct (bind !! column) eqn:Hb; [|done]. exfalso. apply Hnot.
        exists columns, column. repeat split; try done. right. by rewrite Hb.
    + split; [done|]. split.
      * split; [done|]. intros Hnone. exfalso.
        assert (s0 ∈ s0 :: rest) as Hin by left.
        apply Hspec in Hin as (columns & column & Hin & Hc & Hdirty).
        destruct (Hnone s0 columns column Hin Hc) as [Hne Hb].
        destruct Hdirty as [?|Hsome]; [done|].
        rewrite Hb in Hsome. by destruct Hsome.
      * intros row [= <-]. split; [done|]. cbn [dStreams]. apply Hspec.
  - intros stream event. cbn [fst].
    change (map ?f ?l) with (f <$> l). rewrite list_elem_of_fmap. split.
    + intros (s & [= -> ->] & Hin). split; [done|]. by apply Hspec.
    + intros [-> Hdirty]. exists stream. split; [done|]. by apply Hspec.
Qed.

Lemma skipped_all_iff (changed : Bind) (skips : list string) :
  NoDup skips ->
  length (filter (fun skip => is_Some (changed !! skip)) skips) = size changed
  <-> forall column, is_Some (changed !! column) -> column ∈ skips.
Proof.
  intros Hnd.
  set (hit := filter (fun skip => is_Some (changed !! skip)) skips).
  assert (NoDup hit) as Hnd' by (by apply NoDup_filter).
  assert ((list_to_set hit : gset string) ⊆ dom changed) as Hsub.
  { intros k Hk. apply elem_of_list_to_set, list_elem_of_filter in Hk
      as [Hk _]. by apply elem_of_dom. }
  rewrite <- (size_list_to_set (C := gset string) hit Hnd'), <- size_dom.
  split.
  - intros Hsize column Hc.
    assert ((list_to_set hit : gset string) = dom changed) as Heq.
    { apply set_subseteq_size_eq; [done|]. by rewrite Hsize. }
    apply elem_of_dom in Hc. rewrite <- Heq in Hc.
    by apply elem_of_list_to_set, list_elem_of_filter in Hc as [_ ?].
  - intros Hall. f_equal. apply set_eq. intros k. split; [apply Hsub|].
    intros Hk. apply elem_of_dom in Hk.
    apply elem_of_list_to_set, list_elem_of_filter. split; [done|].
    by apply Hall.
Qed.

(** X12: addToLogQueue yields no log row for a schema without log and,
    when the schema names columns to skip (each once), for a change whose
    columns are all skipped; otherwise it yields one row with the id, the
    before and changes maps and the log table and pool of the schema,
    whose meta holds the entity's entries overridden by the engine's, and
    it publishes that row only when the flush is not lazy. *)
Theorem addToLogQueue_rows (schema : tableEvents) (logMetaData : option Bind)
        (id : Z) (before changes entityMeta : option Bind) (lazy : bool) :
  (hasLog schema = false ->
   addToLogQueue schema logMetaData id before changes entityMeta lazy
   = ([], None))
  /\ (forall changed,
        hasLog schema = true -> changes = Some changed ->
        skipLogs schema <> [] -> NoDup (skipLogs schema) ->
        (snd (addToLogQueue schema logMetaData id before changes entityMeta
                            lazy) = None
         <-> forall column,
               is_Some (changed !! column) -> column ∈ skipLogs schema))
  /\ (forall val,
        snd (addToLogQueue schema logMetaData id before changes entityMeta
                           lazy) = Some val ->
        fst (addToLogQueue schema logMetaData id before changes entityMeta
                           lazy) = (if lazy then [] else [val])
        /\ logID val = id /\ logBefore val = before
        /\ logChanges val = changes
        /\ logTableName val = logTableNameOf schema
        /\ logPoolName val = logPoolNameOf schema
        /\ (entityMeta = None -> logMeta val = logMetaData)
        /\ (forall entity key,
              entityMeta = Some entity ->
              exists meta,
                logMeta val = Some meta
                /\ meta !! key
                   = match default ∅ logMetaData !! key with
                     | Some v => Some v
                     | None => entity !! key
                     end)).
Proof.
  unfold addToLogQueue. split; [by intros ->|]. split.
  - intros changed -> -> Hskips Hnd. cbn [negb].
    destruct (Nat.ltb_spec 0 (length (skipLogs schema))) as [_|Hlen].
    2: { destruct (skipLogs schema); [done|simpl in Hlen; lia]. }
    rewrite <- skipped_all_iff by done.
    destruct (decide (length (filter (fun skip => is_Some (changed !! skip))
                                     (skipLogs schema)) = size changed))
      as [Heq|Hne].
    + rewrite (bool_decide_eq_true_2 _ Heq). by split.
    + rewrite (bool_decide_eq_false_2 _ Hne). by split.
  - intros val. destruct (hasLog schema); cbn [negb]; [|done].
    match goal with
    | |- context [if ?b then ([], None) else _] => destruct b
    end; [done|].
    cbn [fst snd]. intros [= <-]. cbn.
    split; [by destruct lazy|]. repeat split; try done.
    + by intros ->.
    + intros entity key ->. eexists. split; [done|].
      rewrite lookup_union.
      destruct (default ∅ logMetaData !! key), (entity !! key); done.
Qed.

(* --------------------------------------------------------------------- *)
(* Rows: injectBind and convertDBDataToMap                                *)
(* --------------------------------------------------------------------- *)

Lemma storeBind_slots (mapping : gmap string nat)
      (kvs : list (string * any)) :
  forall data data',
    NoDup (mappingIndex mapping <$> kvs.*1) ->
    storeBind mapping kvs data = Returned data' ->
    length data' = length data
    /\ (forall key value, (key, value) ∈ kvs ->
          data' !! mappingIndex mapping key = Some value)
    /\ (forall i, i ∉ (mappingIndex mapping <$> kvs.*1) ->
          data' !! i = data !! i).
Proof.
  induction kvs as [|[k v] rest IH]; intros data data' Hnd Hrun.
  - cbn in Hrun. injection Hrun as <-. split; [done|]. split; [|done].
    intros key value Hin. by apply elem_of_nil in Hin.
  - cbn [storeBind] in Hrun. cbn [fmap list_fmap fst] in Hnd.
    apply NoDup_cons in Hnd as [Hk Hnd].
    destruct (Nat.ltb_spec (mappingIndex mapping k) (length data)) as [Hlt|];
      [|done].
    destruct (IH _ _ Hnd Hrun) as (Hlen & Hset & Hkeep).
    rewrite length_insert in Hlen. split; [done|]. split.
    + intros key value Hin. apply elem_of_cons in Hin as [[= -> ->]|Hin].
      * rewrite (Hkeep _ Hk). by apply list_lookup_insert_eq.
      * by apply Hset.
    + intros i Hi. cbn [fmap list_fmap fst] in Hi.
      apply not_elem_of_cons in Hi as [Hne Hi].
      rewrite (Hkeep _ Hi). by apply list_lookup_insert_ne.
Qed.

(** X13: injectBind merges the bind into the row by column mapping: when
    the bound columns map to distinct slots of the row, every bound value
    ends up in the slot of its column, every other slot keeps its value
    (nil in a fresh row), the row keeps its length, the ID field is left
    alone and the entity is marked Loaded and InDB. *)
Theorem injectBind_slots (e e1 : Entity) (bind : Bind) :
  (forall k1 k2,
     is_Some (bind !! k1) -> is_Some (bind !! k2) ->
     mappingIndex (columnMapping (schema e)) k1
     = mappingIndex (columnMapping (schema e)) k2 -> k1 = k2) ->
  injectBind e bind = Returned e1 ->
  loaded e1 = true /\ inDB e1 = true /\ idElem e1 = idElem e
  /\ length (dBData e1) = length (dBData (initDBData e))
  /\ (forall key value,
        bind !! key = Some value ->
        dBData e1 !! mappingIndex (columnMapping (schema e)) key
        = Some value)
  /\ (forall i,
        (forall key, is_Some (bind !! key) ->
                     mappingIndex (columnMapping (schema e)) key <> i) ->
        dBData e1 !! i = dBData (initDBData e) !! i).
Proof.
  intros Hinj. unfold injectBind.
  assert (schema (initDBData e) = schema e) as Hs
    by (unfold initDBData; by destruct (dBData e)).
  assert (idElem (initDBData e) = idElem e) as Hid
    by (unfold initDBData; by destruct (dBData e)).
  rewrite Hs.
  destruct (storeBind (columnMapping (schema e)) (map_to_list bind)
                      (dBData (initDBData e))) as [data|p] eqn:Hst; [|done].
  intros [= <-]. cbn [loaded inDB idElem dBData].
  apply storeBind_slots in Hst as (Hlen & Hset & Hkeep).
  - repeat split; try done.
    + intros key value Hb. apply Hset. by apply elem_of_map_to_list.
    + intros i Hi. apply Hkeep. intros Hin.
      apply list_elem_of_fmap in Hin as (key & -> & Hin).
      apply list_elem_of_fmap in Hin as ([k v] & -> & Hin).
      apply elem_of_map_to_list in Hin. by apply (Hi k); [exists v|].
  - apply NoDup_fmap_2_strong; [|apply NoDup_fst_map_to_list].
    intros k1 k2 H1 H2 Heq.
    apply list_elem_of_fmap in H1 as ([k1' v1] & -> & H1).
    apply list_elem_of_fmap in H2 as ([k2' v2] & -> & H2).
    apply elem_of_map_to_list in H1, H2.
    apply Hinj; [by exists v1|by exists v2|done].
Qed.

Lemma usersSchema_injective (k1 k2 : string) (bind : Bind) :
  bind = {["Name" := AString "a"]} ->
  is_Some (bind !! k1) -> is_Some (bind !! k2) ->
  mappingIndex (columnMapping usersSchema) k1
  = mappingIndex (columnMapping usersSchema) k2 -> k1 = k2.
Proof.
  intros -> [v1 H1] [v2 H2] _.
  apply lookup_singleton_Some in H1 as [<- _].
  by apply lookup_singleton_Some in H2 as [<- _].
Qed.

Lemma injectBind_slots_witness :
  loaded (mkEntity 0 [ANil; AString "a"] true true usersSchema) = true
  /\ inDB (mkEntity 0 [ANil; AString "a"] true true usersSchema) = true
  /\ idElem (mkEntity 0 [ANil; AString "a"] true true usersSchema)
     = idElem (newUser 0)
  /\ length (dBData (mkEntity 0 [ANil; AString "a"] true true usersSchema))
     = length (dBData (initDBData (newUser 0)))
  /\ (forall key value,
        ({["Name" := AString "a"]} : Bind) !! key = Some value ->
        dBData (mkEntity 0 [ANil; AString "a"] true true usersSchema)
          !! mappingIndex (columnMapping (schema (newUser 0))) key
        = Some value)
  /\ (forall i,
        (forall key, is_Some (({["Name" := AString "a"]} : Bind) !! key) ->
                     mappingIndex (columnMapping (schema (newUser 0))) key
                     <> i) ->
        dBData (mkEntity 0 [ANil; AString "a"] true true usersSchema) !! i
        = dBData (initDBData (newUser 0)) !! i).
Proof.
  apply (injectBind_slots (newUser 0)
           (mkEntity 0 [ANil; AString "a"] true true usersSchema)
           {["Name" := AString "a"]}).
  - intros k1 k2. by apply usersSchema_injective.
  - vm_compute. reflexivity.
Defined.

Lemma rowToMap_lookup (mapping : gmap string nat) (names : list string)
      (data : list any) :
  forall m m',
    rowToMap mapping names data m = Returned m' ->
    (forall name value, m !! name = Some value ->
       data !! mappingIndex mapping name = Some value) ->
    forall name value, m' !! name = Some value ->
      data !! mappingIndex mapping name = Some value.
Proof.
  induction names as [|n rest IH]; intros m m' Hrun Hm.
  - cbn in Hrun. by injection Hrun as <-.
  - cbn [rowToMap] in Hrun.
    destruct (data !! mappingIndex mapping n) as [v|] eqn:Hv; [|done].
    apply (IH _ _ Hrun). intros name value Hl.
    destruct (decide (n = name)) as [->|Hne].
    + rewrite lookup_insert_eq in Hl. by injection Hl as <-.
    + rewrite lookup_insert_ne in Hl by done. by apply Hm.
Qed.

Lemma storeBind_same (mapping : gmap string nat) (kvs : list (string * any))
      (data : list any) :
  (forall key value, (key, value) ∈ kvs ->
     data !! mappingIndex mapping key = Some value) ->
  storeBind mapping kvs data = Returned data.
Proof.
  induction kvs as [|[k v] rest IH]; intros Hall; [done|].
  cbn [storeBind].
  pose proof (Hall k v ltac:(left)) as Hk.
  destruct (Nat.ltb_spec (mappingIndex mapping k) (length data)) as [_|Hge].
  - rewrite list_insert_id by done. apply IH.
    intros key value Hin. apply Hall. by right.
  - apply lookup_lt_Some in Hk. lia.
Qed.

(** X14: writing a row's own map back into the row changes nothing: for
    an entity with a loaded row, injectBind of the map convertDBDataToMap
    makes of that row leaves DbData as it is (and marks the entity Loaded
    and InDB). *)
Theorem injectBind_of_own_row (e : Entity) (m : Bind) :
  dBData e <> [] ->
  convertDBDataToMap (schema e) (dBData e) = Returned m ->
  injectBind e m
  = Returned (mkEntity (idElem e) (dBData e) true true (schema e)).
Proof.
  intros Hrow Hconv. unfold injectBind.
  assert (initDBData e = e) as ->
    by (unfold initDBData; by destruct (dBData e)).
  rewrite storeBind_same; [done|].
  intros key value Hin. apply elem_of_map_to_list in Hin.
  unfold convertDBDataToMap in Hconv.
  destruct (columnNames (schema e)) as [|idColumn names]; [done|].
  eapply rowToMap_lookup; [exact Hconv| |exact Hin].
  intros name v Hl. by rewrite lookup_empty in Hl.
Qed.

Lemma injectBind_of_own_row_witness :
  injectBind (mkEntity 7 [AInt Uint64 7; AString "a"] false false usersSchema)
             {["Name" := AString "a"]}
  = Returned (mkEntity 7 [AInt Uint64 7; AString "a"] true true usersSchema).
Proof.
  apply (injectBind_of_own_row
           (mkEntity 7 [AInt Uint64 7; AString "a"] false false usersSchema)
           {["Name" := AString "a"]}).
  - discriminate.
  - vm_compute. reflexivity.
Defined.

(* --------------------------------------------------------------------- *)
(* The lazy map                                                           *)
(* --------------------------------------------------------------------- *)

Lemma fillLazyQueries_cons (m : lazyMap) (st : lazyStatement)
      (sts : list lazyStatement) :
  fillLazyQueries m (st :: sts)
  = fillLazyQueries (fillLazyQuery m (stCode st) (stSQL st) (stValues st)
                                   (stLogs st) (stDirty st)) sts.
Proof. reflexivity. Qed.

Lemma fillLazyQueries_q (sts : list lazyStatement) (m : lazyMap) :
  default [] (lazyQ (fillLazyQueries m sts))
  = default [] (lazyQ m) ++ map queryOf sts.
Proof.
  revert m. induction sts as [|st sts IH]; intros m.
  - by rewrite app_nil_r.
  - rewrite fillLazyQueries_cons, IH. cbn [fillLazyQuery lazyQ map].
    unfold default at 1. unfold id. by rewrite <- app_assoc.
Qed.

Lemma fillLazyQueries_l (sts : list lazyStatement) (m : lazyMap) :
  lazyL (fillLazyQueries m sts)
  = from_option Some (lazyL m)
      (last (List.filter nonEmpty (map stLogs sts))).
Proof.
  revert m. induction sts as [|st sts IH]; intros m; [done|].
  rewrite fillLazyQueries_cons, IH.
  cbn [fillLazyQuery lazyL map List.filter]. unfold nonEmpty at 2 4.
  destruct (0 <? length (stLogs st))%nat; [|done].
  rewrite last_cons.
  by destruct (last (List.filter nonEmpty (map stLogs sts))).
Qed.

Lemma fillLazyQueries_d (sts : list lazyStatement) (m : lazyMap) :
  lazyD (fillLazyQueries m sts)
  = from_option Some (lazyD m)
      (last (List.filter nonEmpty (map stDirty sts))).
Proof.
  revert m. induction sts as [|st sts IH]; intros m; [done|].
  rewrite fillLazyQueries_cons, IH.
  cbn [fillLazyQuery lazyD map List.filter]. unfold nonEmpty at 2 4.
  destruct (0 <? length (stDirty st))%nat; [|done].
  rewrite last_cons.
  by destruct (last (List.filter nonEmpty (map stDirty sts))).
Qed.

(** X15: a run of fillLazyQuery calls appends one entry per statement to
    the q list of the lazy map, in call order, but keeps under l and under
    d only the events of the last statement that had any: events of
    earlier statements are replaced, and a statement without events leaves
    the stored ones alone. *)
Theorem fillLazyQueries_keeps_last_events (m : lazyMap) (st : lazyStatement)
        (sts : list lazyStatement) :
  lazyQ (fillLazyQueries m (st :: sts))
  = Some (default [] (lazyQ m) ++ map queryOf (st :: sts))
  /\ lazyL (fillLazyQueries m (st :: sts))
     = from_option Some (lazyL m)
         (last (List.filter nonEmpty (map stLogs (st :: sts))))
  /\ lazyD (fillLazyQueries m (st :: sts))
     = from_option Some (lazyD m)
         (last (List.filter nonEmpty (map stDirty (st :: sts)))).
Proof.
  split; [|split; [apply fillLazyQueries_l|apply fillLazyQueries_d]].
  pose proof (fillLazyQueries_q (st :: sts) m) as Hq.
  destruct (lazyQ (fillLazyQueries m (st :: sts))) as [q|] eqn:E.
  - change (q = default [] (lazyQ m) ++ map queryOf (st :: sts)) in Hq.
    by rewrite Hq.
  - exfalso.
    change ([] = default [] (lazyQ m) ++ map queryOf (st :: sts)) in Hq.
    symmetry in Hq. apply app_eq_nil in Hq as [_ Hq]. discriminate.
Qed.

(* --------------------------------------------------------------------- *)
(* More of the flusher                                                    *)
(* --------------------------------------------------------------------- *)

Section FlusherMore.
Context {W : Type} `{engineOps W}.

(** X16: the track limit is tested by equality with 10,001, so a flusher
    whose counter is already past the limit (the panic of the 10,001st
    entity was recovered) accepts every further entity: Track appends and
    counts them and does not panic again. *)
Theorem Track_past_limit (entity : list entityRef) (f : flusher) (w : W) :
  10001 <= trackedEntitiesCounter f ->
  trackedEntitiesCounter f + Z.of_nat (length entity) < two63 ->
  exists w',
    Track entity f w =
    (mkFlusher (trackedEntities f ++ entity)
               (trackedEntitiesCounter f + Z.of_nat (length entity))
               (buffers f), w', None).
Proof.
  revert f w. induction entity as [|e rest IH]; intros f w H0 Hle.
  - exists w. simpl. destruct f; simpl. by rewrite app_nil_r, Z.add_0_r.
  - cbn [Track]. cbn [trackedEntitiesCounter].
    cbn [length] in Hle. rewrite Nat2Z.inj_succ in Hle.
    rewrite wrapInt_small by (unfold two63 in *; lia).
    destruct (Z.eqb_spec (trackedEntitiesCounter f + 1) 10001) as [E|_]; [lia|].
    edestruct (IH (mkFlusher (trackedEntities f ++ [e])
                             (trackedEntitiesCounter f + 1) (buffers f))
                  (initIfNeeded e w)) as [w' Hw'].
    + simpl; lia.
    + simpl; lia.
    + exists w'. rewrite Hw'.
      cbn [trackedEntities trackedEntitiesCounter buffers].
      rewrite <- app_assoc. cbn [app length]. rewrite Nat2Z.inj_succ.
      replace (trackedEntitiesCounter f + 1 + Z.of_nat (length rest))
        with (trackedEntitiesCounter f + Z.succ (Z.of_nat (length rest)))
        by lia.
      reflexivity.
Qed.

Lemma flushTrackedEntities_tracked (lazy transaction : bool) (f : flusher)
      (w : W) :
  trackedEntities (flushTrackedEntities lazy transaction f w).1.1
  = trackedEntities f
  /\ trackedEntitiesCounter (flushTrackedEntities lazy transaction f w).1.1
     = trackedEntitiesCounter f.
Proof.
  unfold flushTrackedEntities.
  destruct (trackedEntitiesCounter f =? 0); [done|].
  destruct (if transaction then _ else _) as [w1 [r|]]; [done|].
  destruct (flush true lazy transaction _ _ w1) as [[b w2] [r|]].
  - by destruct (eachPool dbRollback _ w2) as [w3 [r'|]].
  - destruct (if transaction then _ else _) as [w3 [r|]];
      by destruct (eachPool dbRollback _ w3) as [w4 [r'|]].
Qed.

(** X17: no flush takes an entity off the tracked list. Whatever the
    engine does and whether the flush returns or panics, Flush, FlushLazy
    and FlushInTransaction leave the tracked entities and their counter as
    they were; only Clear (and with it the failing checked flushes) resets
    them. *)
Theorem flush_never_untracks (f : flusher) (w : W) :
  (trackedEntities (Flush f w).1.1 = trackedEntities f
   /\ trackedEntitiesCounter (Flush f w).1.1 = trackedEntitiesCounter f)
  /\ (trackedEntities (FlushLazy f w).1.1 = trackedEntities f
      /\ trackedEntitiesCounter (FlushLazy f w).1.1
         = trackedEntitiesCounter f)
  /\ (trackedEntities (FlushInTransaction f w).1.1 = trackedEntities f
      /\ trackedEntitiesCounter (FlushInTransaction f w).1.1
         = trackedEntitiesCounter f)
  /\ trackedEntities (Clear f) = []
  /\ trackedEntitiesCounter (Clear f) = 0.
Proof.
  unfold Flush, FlushLazy, FlushInTransaction.
  repeat split; apply flushTrackedEntities_tracked.
Qed.

(** X18: the checked flushes reset the flusher exactly when the flush
    failed. FlushWithCheck and FlushInTransactionWithCheck either return
    nil with the tracked entities kept, or leave an empty flusher (no
    tracked entity, counter 0, empty buffers) on which a further Flush
    does nothing; what they return is then a *ForeignKeyError or a
    *DuplicatedKeyError, and what they panic with is never one of these
    two. *)
Theorem flushWithCheck_outcomes (transaction : bool) (f : flusher) (w : W) :
  match flushWithCheck transaction f w with
  | (f', w', Returned None) =>
    trackedEntities f' = trackedEntities f
    /\ trackedEntitiesCounter f' = trackedEntitiesCounter f
  | (f', w', Returned (Some e)) =>
    f' = mkFlusher [] 0 emptyBuffers
    /\ Flush f' w' = (f', w', None)
    /\ ((exists m k, e = ForeignKeyError m k)
        \/ (exists m k, e = DuplicatedKeyError m k))
  | (f', w', Panicked p) =>
    f' = mkFlusher [] 0 emptyBuffers
    /\ Flush f' w' = (f', w', None)
    /\ (forall m k, p <> PanicError (ForeignKeyError m k))
    /\ (forall m k, p <> PanicError (DuplicatedKeyError m k))
  end.
Proof.
  unfold flushWithCheck.
  pose proof (flushTrackedEntities_tracked false transaction f w) as Ht.
  destruct (flushTrackedEntities false transaction f w) as [[f1 w1] [r|]];
    [|exact Ht].
  destruct r as [e|v]; [destruct e|]; cbn; repeat split; eauto; done.
Qed.

End FlusherMore.

Lemma Track_past_limit_witness :
  exists w',
    Track (H := countingEngine) [7%nat; 8%nat]
          (mkFlusher [] 10001 emptyBuffers) 0%nat
    = (mkFlusher [7%nat; 8%nat] 10003 emptyBuffers, w', None).
Proof.
  apply (Track_past_limit (H := countingEngine) [7%nat; 8%nat]
           (mkFlusher [] 10001 emptyBuffers) 0%nat).
  - simpl. lia.
  - vm_compute. reflexivity.
Defined.

(* --------------------------------------------------------------------- *)
(* More of handleQueries                                                  *)
(* --------------------------------------------------------------------- *)

Lemma stampInsertedIDs_envQ (autoincrement lastInsertId : Z)
      (env : lazyEnvelope) :
  envQ (stampInsertedIDs autoincrement lastInsertId env) = envQ env.
Proof.
  unfold stampInsertedIDs.
  destruct (envL env) as [rows|];
    [destruct (renumberLogRows autoincrement rows lastInsertId)|];
    (destruct (envD env) as [drows|];
     [destruct (renumberDirtyRows autoincrement drows _)|]); done.
Qed.

Lemma renumberLogRows_again (a1 a2 : Z) (rows : list lazyLogRow) :
  forall id1 id2,
    renumberLogRows a2 (renumberLogRows a1 rows id1).1 id2
    = renumberLogRows a2 rows id2.
Proof.
  induction rows as [|row rest IH]; intros id1 id2; [done|].
  cbn [renumberLogRows].
  specialize (IH (wrap64 (id1 + a1)) (wrap64 (id2 + a2))).
  destruct (renumberLogRows a1 rest (wrap64 (id1 + a1))) as [r1 i1].
  cbn [fst renumberLogRows lPoolName lTableName lMeta lBefore lChanges].
  cbn [fst] in IH. by rewrite IH.
Qed.

Lemma renumberDirtyRows_again (a1 a2 : Z) (rows : list lazyDirtyRow) :
  forall id1 id2,
    renumberDirtyRows a2 (renumberDirtyRows a1 rows id1).1 id2
    = renumberDirtyRows a2 rows id2.
Proof.
  induction rows as [|row rest IH]; intros id1 id2; [done|].
  cbn [renumberDirtyRows].
  specialize (IH (wrap64 (id1 + a1)) (wrap64 (id2 + a2))).
  destruct (renumberDirtyRows a1 rest (wrap64 (id1 + a1))) as [r1 i1].
  cbn [fst renumberDirtyRows dEvent dStreams evE evA].
  cbn [fst] in IH. by rewrite IH.
Qed.

Lemma stampInsertedIDs_again (a1 l1 a2 l2 : Z) (env : lazyEnvelope) :
  stampInsertedIDs a2 l2 (stampInsertedIDs a1 l1 env)
  = stampInsertedIDs a2 l2 env.
Proof.
  unfold stampInsertedIDs.
  destruct (envL env) as [rows|].
  - pose proof (renumberLogRows_again a1 a2 rows l1 l2) as Hl.
    destruct (renumberLogRows a1 rows l1) as [rows1 i1]. cbn [fst] in Hl.
    destruct (envD env) as [drows|].
    + destruct (renumberLogRows a2 rows l2) as [rows2 i2] eqn:E2.
      pose proof (renumberDirtyRows_again a1 a2 drows i1 i2) as Hd.
      destruct (renumberDirtyRows a1 drows i1) as [drows1 j1].
      cbn [fst] in Hd. cbn [envL envD envQ]. by rewrite Hl, Hd.
    + cbn [envL envD envQ]. by rewrite Hl.
  - destruct (envD env) as [drows|]; [|done].
    pose proof (renumberDirtyRows_again a1 a2 drows l1 l2) as Hd.
    destruct (renumberDirtyRows a1 drows l1) as [drows1 j1].
    cbn [fst] in Hd. cbn [envL envD envQ]. by rewrite Hd.
Qed.

Section ConsumerMore.
Context {D : Type} `{lazyDB D}.

Lemma runLazyQueries_ids (queries : list lazyQuery) :
  forall env db ids0 ids env1 db1,
    runLazyQueries queries env db ids0 = Returned (ids, env1, db1) ->
    exists news,
      ids = ids0 ++ news
      /\ length news = length queries
      /\ envQ env1 = envQ env
      /\ (forall query, query ∈ queries ->
            (11 <= String.length (qSQL query))%nat)
      /\ (forall i query,
            queries !! i = Some query ->
            String.substring 0 11 (qSQL query) <> "INSERT INTO" ->
            news !! i = Some 0)
      /\ ((forall query, query ∈ queries ->
             String.substring 0 11 (qSQL query) <> "INSERT INTO") ->
          env1 = env).
Proof.
  induction queries as [|query rest IH]; intros env db ids0 ids env1 db1 Hrun.
  - cbn in Hrun. injection Hrun as <- <- <-. exists [].
    rewrite app_nil_r. repeat split; try done.
    intros query Hin. by apply elem_of_nil in Hin.
  - cbn [runLazyQueries] in Hrun.
    destruct (execSQL (qCode query) (qSQL query) (qArgs query) db)
      as [db2 [lastInsertId|p]]; [|done].
    destruct (Nat.ltb_spec (String.length (qSQL query)) 11) as [|Hlen];
      [done|].
    destruct (bool_decide_reflect
                (String.substring 0 11 (qSQL query) = "INSERT INTO"))
      as [Hins|Hins];
      apply IH in Hrun
        as (news & -> & Hn & Hq & Hlong & Hzero & Hsame).
    + exists (lastInsertId :: news). rewrite <- app_assoc.
      split; [done|]. split; [by cbn [length]; rewrite Hn|].
      split; [by rewrite Hq, stampInsertedIDs_envQ|].
      split; [|split].
      * intros q Hin. apply elem_of_cons in Hin as [->|Hin]; [done|].
        by apply Hlong.
      * intros [|i] q Hl Hno; cbn in Hl; [by simplify_eq|].
        by apply (Hzero i q).
      * intros Hall. exfalso. apply (Hall query); [left|done].
    + exists (0 :: news). rewrite <- app_assoc.
      split; [done|]. split; [by cbn [length]; rewrite Hn|].
      split; [done|]. split; [|split].
      * intros q Hin. apply elem_of_cons in Hin as [->|Hin]; [done|].
        by apply Hlong.
      * intros [|i] q Hl Hno; cbn in Hl; [done|]. by apply (Hzero i q).
      * intros Hall. apply Hsame. intros q Hin. apply Hall. by right.
Qed.

(** X19: handleQueries returns one id per statement of the q list, 0 for
    every statement that does not begin with INSERT INTO, and leaves the q
    list as it was; when no statement is an INSERT the envelope is not
    rewritten at all, so the log rows are handed on with the ids they
    came with. *)
Theorem handleQueries_ids (env : lazyEnvelope) (db : D)
        (queries : list lazyQuery) (ids : list Z) (env1 : lazyEnvelope)
        (db1 : D) (logged : list LogQueueValue)
        (published : list (string * dirtyEvent)) :
  envQ env = Some queries ->
  handleQueries env db = Returned (Some ids, env1, db1, logged, published) ->
  length ids = length queries
  /\ envQ env1 = Some queries
  /\ (forall i query,
        queries !! i = Some query ->
        String.substring 0 11 (qSQL query) <> "INSERT INTO" ->
        ids !! i = Some 0)
  /\ ((forall query, query ∈ queries ->
         String.substring 0 11 (qSQL query) <> "INSERT INTO") ->
      env1 = env
      /\ logged = map logQueueValueOf (default [] (envL env))
      /\ published = concat (map publishedBy (default [] (envD env)))).
Proof.
  intros Hq. unfold handleQueries. rewrite Hq.
  destruct (runLazyQueries queries env db []) as [[[ids' env'] db']|p] eqn:Hrun;
    [|done].
  intros [= <- <- <- <- <-].
  apply runLazyQueries_ids in Hrun
    as (news & -> & Hn & Hq' & _ & Hzero & Hsame).
  cbn [app]. split; [done|]. split; [by rewrite Hq'|]. split; [done|].
  intros Hall. rewrite (Hsame Hall). split; [done|].
  split; [by destruct (envL env)|by destruct (envD env)].
Qed.

(** X20: handleQueries slices the first eleven bytes of every statement
    after it has executed it, so an envelope with a statement shorter
    than eleven bytes never comes back from handleQueries: the replay
    panics, whatever the database answers. *)
Theorem handleQueries_short_statement (env : lazyEnvelope) (db : D)
        (queries : list lazyQuery) (query : lazyQuery) :
  envQ env = Some queries ->
  query ∈ queries ->
  (String.length (qSQL query) < 11)%nat ->
  exists p, handleQueries env db = Panicked p.
Proof.
  intros Hq Hin Hshort. unfold handleQueries. rewrite Hq.
  destruct (runLazyQueries queries env db []) as [[[ids' env'] db']|p] eqn:Hrun;
    [|by exists p].
  apply runLazyQueries_ids in Hrun as (news & _ & _ & _ & Hlong & _).
  apply Hlong in Hin. lia.
Qed.

Lemma runLazyQueries_app (front back : list lazyQuery) :
  forall env db ids0,
    runLazyQueries (front ++ back) env db ids0
    = match runLazyQueries front env db ids0 with
      | Returned (ids, env1, db1) => runLazyQueries back env1 db1 ids
      | Panicked p => Panicked p
      end.
Proof.
  induction front as [|query rest IH]; intros env db ids0; [done|].
  cbn [app runLazyQueries].
  destruct (execSQL (qCode query) (qSQL query) (qArgs query) db)
    as [db2 [lastInsertId|p]]; [|done].
  destruct (String.length (qSQL query) <? 11)%nat; [done|].
  destruct (bool_decide _); apply IH.
Qed.

Lemma runLazyQueries_stamp (queries : list lazyQuery) :
  forall env db ids0 ids env1 db1,
    runLazyQueries queries env db ids0 = Returned (ids, env1, db1) ->
    forall a l, stampInsertedIDs a l env1 = stampInsertedIDs a l env.
Proof.
  induction queries as [|query rest IH]; intros env db ids0 ids env1 db1 Hrun.
  - cbn in Hrun. by injection Hrun as <- <- <-.
  - cbn [runLazyQueries] in Hrun.
    destruct (execSQL (qCode query) (qSQL query) (qArgs query) db)
      as [db2 [lastInsertId|p]]; [|done].
    destruct (String.length (qSQL query) <? 11)%nat; [done|].
    destruct (bool_decide _); intros a l;
      rewrite (IH _ _ _ _ _ _ Hrun a l); [|done].
    apply stampInsertedIDs_again.
Qed.

(** X21: each INSERT statement of an envelope renumbers all the log and
    dirty rows from its own LastInsertId, so what an earlier INSERT wrote
    is overwritten: when the last statement of the q list is an INSERT,
    the envelope handleQueries leaves is the original one stamped once,
    from the id of that last statement. *)
Theorem handleQueries_last_insert_wins (env : lazyEnvelope) (db : D)
        (front : list lazyQuery) (query : lazyQuery) (ids : list Z)
        (env1 : lazyEnvelope) (db1 : D) (logged : list LogQueueValue)
        (published : list (string * dirtyEvent)) :
  envQ env = Some (front ++ [query]) ->
  String.substring 0 11 (qSQL query) = "INSERT INTO" ->
  handleQueries env db = Returned (Some ids, env1, db1, logged, published) ->
  exists lastInsertId,
    last ids = Some lastInsertId
    /\ env1 = stampInsertedIDs (getAutoincrement (qCode query))
                               lastInsertId env.
Proof.
  intros Hq Hins. unfold handleQueries. rewrite Hq.
  rewrite runLazyQueries_app.
  destruct (runLazyQueries front env db []) as [[[ids0 env0] db0]|p] eqn:Hrun;
    [|done].
  cbn [runLazyQueries].
  destruct (execSQL (qCode query) (qSQL query) (qArgs query) db0)
    as [db2 [lastInsertId|p]]; [|done].
  destruct (String.length (qSQL query) <? 11)%nat; [done|].
  rewrite bool_decide_true by done.
  intros [= <- <- <- <- <-]. exists lastInsertId.
  split; [by rewrite last_snoc|].
  by apply (runLazyQueries_stamp front env db [] ids0 env0 db0).
Qed.

End ConsumerMore.

Lemma handleQueries_ids_witness :
  length [0] = length [mkLazyQuery "default" "UPDATE users SET `Name` = ?"
                                   (Some [AString "a"])]
  /\ envQ (mkLazyEnvelope
             (Some [mkLazyQuery "default" "UPDATE users SET `Name` = ?"
                                (Some [AString "a"])])
             None None)
     = Some [mkLazyQuery "default" "UPDATE users SET `Name` = ?"
                         (Some [AString "a"])].
Proof.
  pose proof (handleQueries_ids (H := tenDB)
    (mkLazyEnvelope
       (Some [mkLazyQuery "default" "UPDATE users SET `Name` = ?"
                          (Some [AString "a"])])
       None None)
    0%nat
    [mkLazyQuery "default" "UPDATE users SET `Name` = ?" (Some [AString "a"])]
    [0]
    (mkLazyEnvelope
       (Some [mkLazyQuery "default" "UPDATE users SET `Name` = ?"
                          (Some [AString "a"])])
       None None)
    1%nat [] []) as Hids.
  destruct Hids as (Hlen & Hq & _).
  - reflexivity.
  - vm_compute. reflexivity.
  - split; [exact Hlen|exact Hq].
Defined.

Lemma handleQueries_short_statement_witness :
  exists p,
    handleQueries (H := tenDB)
      (mkLazyEnvelope (Some [mkLazyQuery "default" "SELECT 1" None])
                      None None) 0%nat
    = Panicked p.
Proof.
  apply (handleQueries_short_statement (H := tenDB)
           (mkLazyEnvelope (Some [mkLazyQuery "default" "SELECT 1" None])
                           None None)
           0%nat [mkLazyQuery "default" "SELECT 1" None]
           (mkLazyQuery "default" "SELECT 1" None)).
  - reflexivity.
  - left.
  - vm_compute. lia.
Defined.

Lemma handleQueries_last_insert_wins_witness :
  exists lastInsertId,
    last [10] = Some lastInsertId
    /\ mkLazyEnvelope (envQ oneInsertEnvelope)
         (Some [mkLazyLogRow "default" "_log_default_users" 10 None None
                             (Some {["Name" := AString "a"]})])
         (Some [mkLazyDirtyRow (mkDirtyEvent "orm.User" 11 "i")
                               ["user_changed"]])
       = stampInsertedIDs
           (getAutoincrement (lazyDB := tenDB) "default")
           lastInsertId oneInsertEnvelope.
Proof.
  apply (handleQueries_last_insert_wins (H := tenDB) oneInsertEnvelope 0%nat
           [] (mkLazyQuery "default" "INSERT INTO users(`Name`) VALUES (?)"
                           (Some [AString "a"]))
           [10] _ 1%nat
           [mkLogQueueValue "default" "_log_default_users" 10 None None
                            (Some {["Name" := AString "a"]})]
           [("user_changed", mkDirtyEvent "orm.User" 11 "i")]).
  - reflexivity.
  - reflexivity.
  - vm_compute. reflexivity.
Defined.

(* --------------------------------------------------------------------- *)
(* handleCache                                                            *)
(* --------------------------------------------------------------------- *)

Lemma splitOn_nonempty (sep : ascii) (s : string) :
  forall cur, splitOn sep s cur <> [].
Proof.
  induction s as [|c s IH]; intros cur; cbn [splitOn]; [done|].
  destruct (bool_decide (c = sep)); [done|apply IH].
Qed.

Lemma Join_cons (e : string) (rest : list string) (sep : string) :
  rest <> [] -> Join (e :: rest) sep = e +:+ sep +:+ Join rest sep.
Proof. by destruct rest. Qed.

Lemma Join_snoc (elems : list string) (x sep : string) :
  elems <> [] -> Join (elems ++ [x]) sep = Join elems sep +:+ sep +:+ x.
Proof.
  induction elems as [|e rest IH]; intros Hne; [done|].
  destruct rest as [|e' rest]; [done|].
  change (Join (e :: (e' :: rest) ++ [x]) sep
          = Join (e :: e' :: rest) sep +:+ sep +:+ x).
  rewrite !Join_cons by done. rewrite IH by done.
  by rewrite !string_app_assoc.
Qed.

Lemma Join_splitOn (sep : ascii) (s : string) :
  forall cur, Join (splitOn sep s cur) (String sep "") = cur +:+ s.
Proof.
  induction s as [|c s IH]; intros cur; cbn [splitOn].
  - cbn [Join]. by rewrite append_empty_r.
  - destruct (bool_decide_reflect (c = sep)) as [->|Hne].
    + rewrite Join_cons by apply splitOn_nonempty.
      by rewrite IH, append_empty.
    + rewrite IH, string_app_assoc. by rewrite append_String, append_empty.
Qed.

Lemma splitOn_app_sep (sep : ascii) (p t : string) :
  forall cur,
    splitOn sep (p +:+ String sep t) cur
    = splitOn sep p cur ++ splitOn sep t "".
Proof.
  induction p as [|c p IH]; intros cur.
  - rewrite append_empty. cbn [splitOn]. by rewrite bool_decide_eq_true_2.
  - rewrite append_String. cbn [splitOn].
    destruct (bool_decide (c = sep)); by rewrite IH.
Qed.

Lemma rewriteCacheKey_placeholder (p : string) (ids : list Z) (idKey : nat) :
  rewriteCacheKey (p +:+ ":0") ids idKey
  = match ids !! idKey with
    | Some id => Returned (p +:+ ":" +:+ FormatUint id, S idKey)
    | None => Panicked runtimeIndexError
    end.
Proof.
  unfold rewriteCacheKey, Split.
  change (p +:+ ":0") with (p +:+ String ":" "0").
  rewrite splitOn_app_sep.
  change (splitOn ":" "0" "") with ["0"].
  pose proof (splitOn_nonempty ":" p "") as Hne.
  rewrite length_app. cbn [length].
  replace (length (splitOn ":" p "") + 1 - 1)%nat
    with (length (splitOn ":" p "") + 0)%nat by lia.
  destruct (Nat.ltb_spec 1 (length (splitOn ":" p "") + 1)) as [_|Hlen].
  2: { destruct (splitOn ":" p ""); [done|]. cbn [length] in Hlen. lia. }
  rewrite lookup_app_r by lia.
  replace (length (splitOn ":" p "") + 0 - length (splitOn ":" p ""))%nat
    with 0%nat by lia.
  cbn [lookup list_lookup]. rewrite bool_decide_eq_true_2 by done.
  destruct (ids !! idKey) as [id|]; [|done].
  rewrite insert_app_r. cbn [insert list_insert].
  rewrite Join_snoc by done.
  change (Join (splitOn ":" p "") ":")
    with (Join (splitOn ":" p "") (String ":" "")).
  by rewrite Join_splitOn, append_empty.
Qed.

Lemma rewriteCacheKey_plain (v : string) (ids : list Z) (idKey : nat) :
  (forall p, v <> p +:+ ":0") ->
  rewriteCacheKey v ids idKey
  = Returned (v, if (1 <? length (Split v ":"))%nat then S idKey else idKey).
Proof.
  intros Hplain. unfold rewriteCacheKey.
  assert (Join (Split v ":") ":" = v) as Hjoin.
  { unfold Split.
    change (Join (splitOn ":" v "") ":")
      with (Join (splitOn ":" v "") (String ":" "")).
    by rewrite Join_splitOn, append_empty. }
  rewrite Hjoin.
  destruct (1 <? length (Split v ":"))%nat eqn:Hlen; [|done].
  destruct (bool_decide_reflect
              (Split v ":" !! (length (Split v ":") - 1)%nat = Some "0"))
    as [Hlast|_]; [|done].
  exfalso. apply Nat.ltb_lt in Hlen.
  destruct (Split v ":") as [|e parts] using rev_ind; [cbn in Hlen; lia|].
  clear IHparts. rewrite length_app in Hlen, Hlast. cbn [length] in Hlen, Hlast.
  rewrite lookup_app_r in Hlast by lia.
  replace (length parts + 1 - 1 - length parts)%nat with 0%nat in Hlast
    by lia.
  cbn in Hlast. injection Hlast as ->.
  apply (Hplain (Join parts ":")). rewrite <- Hjoin at 1.
  rewrite Join_snoc; [done|]. intros ->. cbn in Hlen. lia.
Qed.

Lemma rewriteCacheKeys_plain (allKeys : list string) (ids : list Z) :
  (forall v, v ∈ allKeys -> forall p, v <> p +:+ ":0") ->
  forall idKey, exists idKey',
    rewriteCacheKeys allKeys ids idKey = Returned (allKeys, idKey').
Proof.
  induction allKeys as [|v rest IH]; intros Hplain idKey.
  - by exists idKey.
  - cbn [rewriteCacheKeys].
    rewrite rewriteCacheKey_plain by (apply Hplain; left).
    destruct (IH (fun v' Hin => Hplain v' ltac:(by right))
                 (if (1 <? length (Split v ":"))%nat then S idKey else idKey))
      as [idKey' ->].
    by exists idKey'.
Qed.

Lemma rewriteCacheKeys_placeholders (prefixes : list string) (ids : list Z) :
  forall idKey,
    (idKey + length prefixes <= length ids)%nat ->
    rewriteCacheKeys (map (fun p => p +:+ ":0") prefixes) ids idKey
    = Returned (zip_with (fun p id => p +:+ ":" +:+ FormatUint id)
                         prefixes (drop idKey ids),
                (idKey + length prefixes)%nat).
Proof.
  induction prefixes as [|p rest IH]; intros idKey Hlen.
  - cbn. by rewrite Nat.add_0_r.
  - cbn [map rewriteCacheKeys length] in *.
    rewrite rewriteCacheKey_placeholder.
    destruct (ids !! idKey) as [id|] eqn:Hid.
    2: { apply lookup_ge_None in Hid. lia. }
    rewrite IH by lia.
    rewrite (drop_S _ _ _ Hid). cbn [zip_with].
    do 2 f_equal. lia.
Qed.

(** X22: handleCache fills the placeholder keys of a remote cache with
    the ids of the replayed statements in order: for a cr entry whose keys
    all end in :0 and as many ids as keys at least, the k-th key is
    deleted with its trailing 0 replaced by the decimal rendering of
    ids[k]; the local keys are removed as they stand. *)
Theorem handleCache_fills_placeholders (cacheCode : string)
        (prefixes : list string)
        (localKeys : option (list (string * list string))) (ids : list Z) :
  (length prefixes <= length ids)%nat ->
  handleCache
    (mkCacheEnvelope
       (Some [(cacheCode, map (fun p => p +:+ ":0") prefixes)]) localKeys)
    ids
  = ([(cacheCode,
       zip_with (fun p id => p +:+ ":" +:+ FormatUint id) prefixes ids)],
     default [] localKeys, None).
Proof.
  intros Hlen. unfold handleCache. cbn [envCR envCL deleteRemoteKeys].
  rewrite rewriteCacheKeys_placeholders by (cbn; lia).
  by rewrite drop_0.
Qed.

Lemma deleteRemoteKeys_plain (validKeys : list (string * list string))
      (ids : list Z) :
  (forall cacheCode allKeys v,
     (cacheCode, allKeys) ∈ validKeys -> v ∈ allKeys ->
     forall p, v <> p +:+ ":0") ->
  forall idKey, deleteRemoteKeys validKeys ids idKey = (validKeys, None).
Proof.
  induction validKeys as [|[cacheCode allKeys] rest IH]; intros Hplain idKey;
    [done|].
  cbn [deleteRemoteKeys].
  destruct (rewriteCacheKeys_plain allKeys ids
              (fun v Hin => Hplain cacheCode allKeys v ltac:(left) Hin) idKey)
    as [idKey' ->].
  rewrite IH; [done|].
  intros code keys v Hin. apply (Hplain code keys v). by right.
Qed.

(** X23: a key that does not end in :0 is deleted exactly as it was
    queued: splitting it at the colons and joining it again gives the key
    back. An envelope none of whose remote keys ends in :0 therefore has
    every key deleted unchanged, cache by cache, and handleCache reads no
    id and cannot panic, even with no ids at all. *)
Theorem handleCache_plain_keys_unchanged
        (validKeys : list (string * list string))
        (localKeys : option (list (string * list string))) (ids : list Z) :
  (forall cacheCode allKeys v,
     (cacheCode, allKeys) ∈ validKeys -> v ∈ allKeys ->
     forall p, v <> p +:+ ":0") ->
  handleCache (mkCacheEnvelope (Some validKeys) localKeys) ids
  = (validKeys, default [] localKeys, None).
Proof.
  intros Hplain. unfold handleCache. cbn [envCR envCL].
  by rewrite deleteRemoteKeys_plain.
Qed.

(** X24: a placeholder key without an id left for it stops the replay:
    when the keys of the first remote cache all end in :0 and there are
    fewer ids than keys (none at all when the envelope had no q list),
    handleCache panics with an index out of range before any key is
    deleted, and the local caches are not touched. *)
Theorem handleCache_missing_id (cacheCode : string) (prefixes : list string)
        (others : list (string * list string))
        (localKeys : option (list (string * list string))) (ids : list Z) :
  (length ids < length prefixes)%nat ->
  handleCache
    (mkCacheEnvelope
       (Some ((cacheCode, map (fun p => p +:+ ":0") prefixes) :: others))
       localKeys)
    ids
  = ([], [], Some runtimeIndexError).
Proof.
  intros Hlen. unfold handleCache. cbn [envCR envCL deleteRemoteKeys].
  assert (forall ps idKey,
            (length ids < idKey + length ps)%nat ->
            (idKey <= length ids)%nat ->
            rewriteCacheKeys (map (fun p => p +:+ ":0") ps) ids idKey
            = Panicked runtimeIndexError) as Hpanic.
  { induction ps as [|p rest IH]; intros idKey Hshort Hle;
      cbn [map rewriteCacheKeys length] in *; [lia|].
    rewrite rewriteCacheKey_placeholder.
    destruct (ids !! idKey) as [id|] eqn:Hid; [|done].
    apply lookup_lt_Some in Hid. rewrite IH; [done|lia|lia]. }
  rewrite Hpanic; [done|cbn; lia|lia].
Qed.

Lemma handleCache_fills_placeholders_witness :
  handleCache
    (mkCacheEnvelope (Some [("default", ["a1b2:7:0"; "c3d4:0"])]) None)
    [10; 12]
  = ([("default", ["a1b2:7:10"; "c3d4:12"])], [], None).
Proof.
  apply (handleCache_fills_placeholders "default" ["a1b2:7"; "c3d4"] None
           [10; 12]).
  simpl. lia.
Defined.

Lemma handleCache_plain_keys_unchanged_witness :
  handleCache
    (mkCacheEnvelope (Some [("default", ["a1b2:7"])])
                     (Some [("local", ["k"])]))
    []
  = ([("default", ["a1b2:7"])], [("local", ["k"])], None).
Proof.
  apply (handleCache_plain_keys_unchanged [("default", ["a1b2:7"])]
           (Some [("local", ["k"])]) []).
  intros cacheCode allKeys v Hin Hv p Heq.
  apply elem_of_cons in Hin as [Hin|Hin]; [|by apply elem_of_nil in Hin].
  injection Hin as -> ->.
  apply elem_of_cons in Hv as [->|Hv]; [|by apply elem_of_nil in Hv].
  assert (rewriteCacheKey "a1b2:7" [] 0 = rewriteCacheKey (p +:+ ":0") [] 0)
    as Hrun by (by rewrite Heq).
  rewrite rewriteCacheKey_placeholder in Hrun. vm_compute in Hrun.
  discriminate.
Defined.

Lemma handleCache_missing_id_witness :
  handleCache
    (mkCacheEnvelope (Some [("default", ["c3d4:0"])])
                     (Some [("local", ["k"])]))
    []
  = ([], [], Some runtimeIndexError).
Proof.
  apply (handleCache_missing_id "default" ["c3d4"] []
           (Some [("local", ["k"])]) []).
  simpl. lia.
Defined.

(* --------------------------------------------------------------------- *)
(* The indexer cursor and the date setter                                 *)
(* --------------------------------------------------------------------- *)

Section IndexerMore.
Context {R : Type} `{searchOps R}.

(** X25: the cursor the indexer loop stores is the cursor the next run
    starts from. On a store that gives back what Set wrote, after a turn
    that continues with cursor nextID an event for the same index handled
    in the state that turn left resumes the loop at nextID: the decimal
    string written with FormatUint is read back by ParseUint as the same
    uint64. *)
Theorem indexer_resumes_from_stored_cursor
        (indexDefinition : RedisSearchIndex R) (redisPool : string)
        (indexEvent : redisIndexerEvent) (id nextID : Z) (r r' : R)
        (fuel : nat) :
  (forall key value ttl store,
     redisGet key (redisSet key value ttl store) = Some value) ->
  indexerInRange indexDefinition ->
  0 <= id < two64 ->
  indexerTurn indexDefinition redisPool
              (lastIDKeyPrefix +:+ Index indexEvent
               +:+ FormatUint (IndexID indexEvent))
              (IndexID indexEvent) id r
  = Continue nextID r' ->
  handleRedisIndexerEvent fuel indexDefinition redisPool indexEvent r'
  = indexerLoop fuel indexDefinition redisPool
                (lastIDKeyPrefix +:+ Index indexEvent
                 +:+ FormatUint (IndexID indexEvent))
                (IndexID indexEvent) nextID r'.
Proof.
  intros Hstore Hrange Hid Hturn. unfold handleRedisIndexerEvent.
  unfold indexerTurn in Hturn.
  destruct (Indexer indexDefinition) as [indexer|] eqn:Hix; [|done].
  pose proof (Hrange indexer id r Hix Hid) as Hnext.
  destruct (indexer id r) as [r1 [newID hasNext]].
  cbn [fst snd] in Hnext.
  destruct hasNext; cbn [negb] in Hturn; [|done].
  destruct (newID <=? id); [done|].
  injection Hturn as <- <-.
  rewrite Hstore, ParseUint_FormatUint by done. reflexivity.
Qed.

End IndexerMore.

Lemma indexer_resumes_from_stored_cursor_witness :
  handleRedisIndexerEvent (H := keyValueStore) 5 steppingIndex "search"
    (mkRedisIndexerEvent "users" 7) {["_orm_force_indexusers7" := "100"]}
  = indexerLoop (H := keyValueStore) 5 steppingIndex "search"
      "_orm_force_indexusers7" 7 100 {["_orm_force_indexusers7" := "100"]}.
Proof.
  apply (indexer_resumes_from_stored_cursor (H := keyValueStore)
           steppingIndex "search" (mkRedisIndexerEvent "users" 7) 0 100
           ∅ {["_orm_force_indexusers7" := "100"]} 5).
  - intros key value ttl store. apply lookup_insert_eq.
  - intros indexer id r [= <-] Hid. cbn [fst snd]. unfold two64 in *. lia.
  - unfold two64. lia.
  - reflexivity.
Defined.

Lemma Format_truncateTo (layout : timeLayout) (t : Time) :
  Format layout (truncateTo layout t) = Format layout t.
Proof. by destruct layout. Qed.

Section DateSetterMore.
Variable columnName : string.
Variable layout : timeLayout.
Variable nullable : bool.

(** X26: what the date bind setter returns is a fixed point of it. For
    every value it accepts whose time is a calendar time of the years
    0..9999 (the times of accepted strings always are), the setter applied
    to its own result returns that result again without error; so does
    nil for a nullable column. *)
Theorem date_setter_idempotent (v canonical : any) :
  (forall t, acceptedTime layout v = Some t -> validTime t) ->
  createDateFieldBindSetter columnName layout nullable v
  = Returned (canonical, None) ->
  createDateFieldBindSetter columnName layout nullable canonical
  = Returned (canonical, None).
Proof.
  assert (forall t, validTime t ->
            createDateFieldBindSetter columnName layout nullable
                                      (AString (Format layout t))
            = Returned (AString (Format layout t), None)) as Hfix.
  { intros t Hvalid. cbn [createDateFieldBindSetter]. unfold ParseInLocation.
    by rewrite parseInUTC_Format, Format_truncateTo. }
  intros Hvalid Hrun.
  destruct v as [|s| | | | | | | |t|[p|]|]; cbn in Hrun, Hvalid; try done.
  - destruct nullable; cbn in Hrun; [|done]. by injection Hrun as <-.
  - unfold ParseInLocation in Hrun.
    destruct (parseInUTC layout s) as [t|] eqn:Hp; [|done].
    injection Hrun as <-. by apply Hfix, Hvalid.
  - destruct (notNamedUTC t); [done|].
    injection Hrun as <-. by apply Hfix, Hvalid.
  - destruct (notNamedUTC (deref p)); [done|].
    injection Hrun as <-. by apply Hfix, Hvalid.
Qed.

End DateSetterMore.

Lemma date_setter_idempotent_witness :
  createDateFieldBindSetter "Born" LayoutDate false (AString "2024-02-29")
  = Returned (AString "2024-02-29", None).
Proof.
  apply (date_setter_idempotent "Born" LayoutDate false
           (ATime (mkTime 2024 2 29 13 45 10 0 UTC)) (AString "2024-02-29")).
  - intros t [= <-]. vm_compute. repeat split; discriminate.
  - reflexivity.
Defined.
